(** * scarlett2: firmware file codec, firmware catalog, version selection
      and the update sequence

    A shallow embedding of [scarlett2-firmware.c] and of the command-line
    tool (the command line, the sound cards, the catalog, the selector,
    the listings, the erase monitor, the write loop and [main]), with the
    properties of the specification stated over it and further properties
    of the code.

    Conventions.
    - C integers are [Z]; conversions between widths are written out
      ([to_u32], [ntohs], [ntohl]).
    - File contents and buffers are [list byte]; paths are [string].
    - A function that returns [NULL] after printing a message returns
      [Err] with the message as a constructor.
    - External collaborators (libc's [qsort] and [strtol], OpenSSL's
      [SHA256], the ALSA calls) are Section variables or scripted
      answers. *)

From Stdlib Require Import String Ascii.
From Stdlib Require Import ZArith List Lia Bool.
From Stdlib Require Import Strings.Byte.
From Stdlib Require Import DecimalString.
From Stdlib Require Import Sorting.Permutation Sorting.Sorted.
Import ListNotations.
Open Scope Z_scope.

Set Implicit Arguments.

(** ** Results of fallible functions *)

Inductive result (E A : Type) : Type :=
| Ok (a : A)
| Err (e : E).
Arguments Ok {E A} a.
Arguments Err {E A} e.

Definition is_ok {E A} (r : result E A) : bool :=
  match r with Ok _ => true | Err _ => false end.

(** ** Bytes and byte order *)

Definition byte_val (b : byte) : Z := Z.of_N (Byte.to_N b).

(** The header is read by overlaying the packed struct on the file bytes, so
    a multi-byte field first holds the host's reading of the bytes. The host
    is little-endian (the tool runs on Linux on x86 and ARM). *)
Definition load16 (b0 b1 : byte) : Z :=
  Z.lor (byte_val b0) (Z.shiftl (byte_val b1) 8).

Definition load32 (b0 b1 b2 b3 : byte) : Z :=
  Z.lor (Z.lor (byte_val b0) (Z.shiftl (byte_val b1) 8))
        (Z.lor (Z.shiftl (byte_val b2) 16) (Z.shiftl (byte_val b3) 24)).

(** [ntohs] and [ntohl] on a little-endian host: byte swaps. *)
Definition ntohs (x : Z) : Z :=
  Z.lor (Z.shiftl (Z.land x 255) 8) (Z.land (Z.shiftr x 8) 255).

Definition ntohl (x : Z) : Z :=
  Z.lor (Z.lor (Z.shiftl (Z.land x 255) 24)
               (Z.shiftl (Z.land (Z.shiftr x 8) 255) 16))
        (Z.lor (Z.shiftl (Z.land (Z.shiftr x 16) 255) 8)
               (Z.land (Z.shiftr x 24) 255)).

(** Conversion of a C [int] to [unsigned int] (32 bits). *)
Definition to_u32 (x : Z) : Z := x mod 2 ^ 32.

(** ** scarlett2-firmware.c *)

Definition SHA256_DIGEST_LENGTH : nat := 32.

(** Modelled from the spec: the declaration of the header struct is in
    scarlett2-firmware.h, which is not among the sources. The fields are
    those the codec reads, with the widths and offsets of the file format
    table: 8 bytes of magic, 16-bit vendor and product ids, 32-bit version
    and length, 32 bytes of hash; the numeric fields are unsigned, as
    [ntohs] and [ntohl] return them. *)
Record scarlett2_firmware_header : Type := {
  magic : list byte;
  usb_vid : Z;
  usb_pid : Z;
  firmware_version : Z;
  firmware_length : Z;
  sha256 : list byte
}.

Record scarlett2_firmware_file : Type := {
  header : scarlett2_firmware_header;
  firmware_data : list byte
}.

(** sizeof(struct scarlett2_firmware_header): 8 + 2 + 2 + 4 + 4 + 32, the
    offset of the payload in the file format table. *)
Definition HEADER_SIZE : nat := 52.

(** The messages the codec prints before it returns [NULL]. *)
Inductive firmware_error : Type :=
| E_fopen            (* "Unable to open %s" *)
| E_unexpected_eof   (* "Unexpected end of file" while reading the header *)
| E_invalid_magic    (* "Invalid magic number" *)
| E_alloc            (* "Failed to allocate memory for firmware data" *)
| E_short_data       (* "Error reading firmware data from %s" *)
| E_corrupt.         (* "Corrupt firmware (failed checksum) in %s" *)

Definition NUL : byte := x00.

(** [strncmp]: compares at most [n] characters and stops after a NUL. A
    string that ends before [n] characters reads as NUL there (the
    terminator of a literal). *)
Fixpoint strncmp (s1 s2 : list byte) (n : nat) : Z :=
  match n with
  | O => 0
  | S n' =>
      let c1 := hd NUL s1 in
      let c2 := hd NUL s2 in
      if negb (byte_val c1 =? byte_val c2) then byte_val c1 - byte_val c2
      else if byte_val c1 =? 0 then 0
      else strncmp (tl s1) (tl s2) n'
  end.

(** [memcmp] over [n] bytes of two buffers that hold at least [n] bytes. *)
Fixpoint memcmp (b1 b2 : list byte) (n : nat) : Z :=
  match n with
  | O => 0
  | S n' =>
      let c1 := hd NUL b1 in
      let c2 := hd NUL b2 in
      if negb (byte_val c1 =? byte_val c2) then byte_val c1 - byte_val c2
      else memcmp (tl b1) (tl b2) n'
  end.

(** The raw overlay of the 52 header bytes: the fields before [ntohs] and
    [ntohl] are applied. *)
Definition overlay_header (bs : list byte) : scarlett2_firmware_header :=
  let b i := nth i bs NUL in
  {| magic := firstn 8 bs;
     usb_vid := load16 (b 8%nat) (b 9%nat);
     usb_pid := load16 (b 10%nat) (b 11%nat);
     firmware_version := load32 (b 12%nat) (b 13%nat) (b 14%nat) (b 15%nat);
     firmware_length := load32 (b 16%nat) (b 17%nat) (b 18%nat) (b 19%nat);
     sha256 := firstn SHA256_DIGEST_LENGTH (skipn 20 bs) |}.

Section Scarlett2.

(** [MAGIC_STRING] is declared in scarlett2-firmware.h, which is not among
    the sources. *)
Variable MAGIC_STRING : list byte.

(** OpenSSL's [SHA256]. *)
Variable SHA256 : list byte -> list byte.

(** Whether [malloc] of the given size returns a buffer. *)
Variable malloc_ok : Z -> bool.

Definition verify_sha256 (data expected_hash : list byte) : bool :=
  memcmp (SHA256 data) expected_hash SHA256_DIGEST_LENGTH =? 0.

(** [read_header]: the stream is the list of bytes not yet read; the
    result carries the rest of the stream. *)
Definition read_header (file : list byte)
  : result firmware_error (scarlett2_firmware_header * list byte) :=
  if (length file <? HEADER_SIZE)%nat then Err E_unexpected_eof
  else
    let raw := overlay_header (firstn HEADER_SIZE file) in
    if negb (strncmp (magic raw) MAGIC_STRING 8 =? 0) then Err E_invalid_magic
    else
      Ok ({| magic := magic raw;
             usb_vid := ntohs (usb_vid raw);
             usb_pid := ntohs (usb_pid raw);
             firmware_version := ntohl (firmware_version raw);
             firmware_length := ntohl (firmware_length raw);
             sha256 := sha256 raw |},
          skipn HEADER_SIZE file).

(** [opened] is what [fopen(fn, "rb")] gives: the bytes of the file, or
    [None] when it cannot be opened. *)
Definition scarlett2_read_firmware_header (opened : option (list byte))
  : result firmware_error scarlett2_firmware_header :=
  match opened with
  | None => Err E_fopen
  | Some file =>
      match read_header file with
      | Err e => Err e
      | Ok (h, _) => Ok h
      end
  end.

Definition scarlett2_read_firmware_file (opened : option (list byte))
  : result firmware_error scarlett2_firmware_file :=
  match opened with
  | None => Err E_fopen
  | Some file =>
      match read_header file with
      | Err e => Err e
      | Ok (h, rest) =>
          if negb (malloc_ok (firmware_length h)) then Err E_alloc
          else
            let data := firstn (Z.to_nat (firmware_length h)) rest in
            let read_count := Z.of_nat (length data) in
            if negb (read_count =? firmware_length h) then Err E_short_data
            else if negb (verify_sha256 data (sha256 h)) then Err E_corrupt
            else Ok {| header := h; firmware_data := data |}
      end
  end.

(** ** The tool: supported devices, found cards, found firmware *)

Definition REQUIRED_HWDEP_VERSION_MAJOR : Z := 1.
Definition VENDOR_VID : Z := 0x1235.
Definition SYSTEM_FIRMWARE_DIR : string := "/usr/lib/firmware/scarlett2".
Definition FIRMWARE_DIR : string := "firmware".

Record scarlett2_device : Type := {
  pid : Z;
  name : string
}.

(** The table without its terminating [{ 0, NULL }] entry, at which the
    loops over it stop. *)
Definition scarlett2_supported : list scarlett2_device :=
  [ {| pid := 0x8203; name := "Scarlett 2nd Gen 6i6" |};
    {| pid := 0x8204; name := "Scarlett 2nd Gen 18i8" |};
    {| pid := 0x8201; name := "Scarlett 2nd Gen 18i20" |};
    {| pid := 0x8211; name := "Scarlett 3rd Gen Solo" |};
    {| pid := 0x8210; name := "Scarlett 3rd Gen 2i2" |};
    {| pid := 0x8212; name := "Scarlett 3rd Gen 4i4" |};
    {| pid := 0x8213; name := "Scarlett 3rd Gen 8i6" |};
    {| pid := 0x8214; name := "Scarlett 3rd Gen 18i8" |};
    {| pid := 0x8215; name := "Scarlett 3rd Gen 18i20" |};
    {| pid := 0x8218; name := "Scarlett 4th Gen Solo" |};
    {| pid := 0x8219; name := "Scarlett 4th Gen 2i2" |};
    {| pid := 0x821a; name := "Scarlett 4th Gen 4i4" |};
    {| pid := 0x8206; name := "Clarett USB 2Pre" |};
    {| pid := 0x8207; name := "Clarett USB 4Pre" |};
    {| pid := 0x8208; name := "Clarett USB 8Pre" |};
    {| pid := 0x820a; name := "Clarett+ 2Pre" |};
    {| pid := 0x820b; name := "Clarett+ 4Pre" |};
    {| pid := 0x820c; name := "Clarett+ 8Pre" |} ].

Record sound_card : Type := {
  card_num : Z;
  card_name : string;
  alsa_name : string;
  card_pid : Z;
  product_name : string;
  card_firmware_version : Z       (* int; -1 when it could not be read *)
}.

Record found_firmware : Type := {
  fn : string;
  firmware : scarlett2_firmware_header
}.

(** A pointer into [scarlett2_supported] is the index of the element it
    points to; [None] is the null pointer. *)
Definition device_ptr : Type := option nat.

Fixpoint get_device_from (tbl : list scarlett2_device) (i : nat) (p : Z)
  : device_ptr :=
  match tbl with
  | [] => None
  | d :: tbl' => if pid d =? p then Some i else get_device_from tbl' (S i) p
  end.

Definition get_device_for_pid (p : Z) : device_ptr :=
  get_device_from scarlett2_supported 0 p.

(** The address a pointer holds when the table starts at [base]; an
    element takes 16 bytes (an [int], padding and a pointer). *)
Definition ptr_addr (base : Z) (d : device_ptr) : Z :=
  match d with
  | None => 0
  | Some i => base + 16 * Z.of_nat i
  end.

(** [d1 < d2] on pointers: the null pointer is below every element. *)
Definition ptr_lt (d1 d2 : device_ptr) : bool :=
  match d1, d2 with
  | None, None => false
  | None, Some _ => true
  | Some _, None => false
  | Some i, Some j => (i <? j)%nat
  end.

Definition same_firmware (a b : scarlett2_firmware_header) : bool :=
  (usb_vid a =? usb_vid b) && (usb_pid a =? usb_pid b)
  && (firmware_version a =? firmware_version b).

(** [add_found_firmware]: the new value of [found_firmwares]. *)
Definition add_found_firmware (found_firmwares : list found_firmware)
    (fn0 : string) (fw : scarlett2_firmware_header) : list found_firmware :=
  if negb (usb_vid fw =? VENDOR_VID) then found_firmwares
  else if existsb (fun ff => same_firmware (firmware ff) fw) found_firmwares
  then found_firmwares
  else found_firmwares ++ [ {| fn := fn0; firmware := fw |} ].

Definition found_firmware_cmp (ff1 ff2 : found_firmware) : Z :=
  let f1 := firmware ff1 in
  let f2 := firmware ff2 in
  let d1 := get_device_for_pid (usb_pid f1) in
  let d2 := get_device_for_pid (usb_pid f2) in
  if ptr_lt d1 d2 then -1
  else if ptr_lt d2 d1 then 1
  else if firmware_version f1 <? firmware_version f2 then 1
  else if firmware_version f1 >? firmware_version f2 then -1
  else 0.

(** What [qsort] may return for an array and a comparison function: a
    rearrangement of the array in which no element is followed by one
    that compares below it. *)
Definition cmp_le (a b : found_firmware) : Prop := found_firmware_cmp a b <= 0.

Definition qsort_result (l l' : list found_firmware) : Prop :=
  Permutation l l' /\ Sorted cmp_le l'.

(** libc's [qsort] called with [found_firmware_cmp]. *)
Variable qsort : list found_firmware -> list found_firmware.

(** One function that meets [qsort_result]: insertion sort. *)
Fixpoint insert_sorted (x : found_firmware) (l : list found_firmware)
  : list found_firmware :=
  match l with
  | [] => [x]
  | y :: l' =>
      if found_firmware_cmp x y <=? 0 then x :: l else y :: insert_sorted x l'
  end.

Definition insertion_sort (l : list found_firmware) : list found_firmware :=
  fold_right insert_sorted [] l.

(** The file system as the tool sees it. *)
Inductive dir_result : Type :=
| Dir_entries (names : list string)   (* [readdir] order *)
| Dir_ENOENT
| Dir_error.

Record filesystem : Type := {
  opendir : string -> dir_result;
  fopen : string -> option (list byte)
}.

(** The non-fatal messages of the scan. *)
Inductive scan_warning : Type :=
| W_unable_to_opendir (dirname : string)
| W_failed_to_read (full_path : string) (e : firmware_error).

(** [strstr(d_name, ".bin")] is not [NULL]. *)
Definition has_bin (d_name : string) : bool :=
  match String.index 0 ".bin" d_name with
  | Some _ => true
  | None => false
  end.

(** The [readdir] loop of [enum_firmware_dir]; the state is
    [found_firmwares] and the messages printed so far. *)
Fixpoint enum_firmware_entries (fs : filesystem) (dirname : string)
    (entries : list string)
    (st : list found_firmware * list scan_warning)
  : list found_firmware * list scan_warning :=
  match entries with
  | [] => st
  | d_name :: rest =>
      if negb (has_bin d_name) then enum_firmware_entries fs dirname rest st
      else
        let full_path := (dirname ++ "/" ++ d_name)%string in
        match scarlett2_read_firmware_header (fopen fs full_path) with
        | Ok fw =>
            enum_firmware_entries fs dirname rest
              (add_found_firmware (fst st) full_path fw, snd st)
        | Err e =>
            enum_firmware_entries fs dirname rest
              (fst st, snd st ++ [W_failed_to_read full_path e])
        end
  end.

Definition enum_firmware_dir (fs : filesystem) (dirname : string)
    (st : list found_firmware * list scan_warning)
  : list found_firmware * list scan_warning :=
  match opendir fs dirname with
  | Dir_ENOENT => st
  | Dir_error => (fst st, snd st ++ [W_unable_to_opendir dirname])
  | Dir_entries names => enum_firmware_entries fs dirname names st
  end.

(** [enum_firmwares]; [exec_dir] is the result of [get_firmware_exec_dir]. *)
Definition enum_firmwares (fs : filesystem) (exec_dir : option string)
  : list found_firmware * list scan_warning :=
  let st0 := ([], []) in
  let st1 := match exec_dir with
             | Some firmware_dir => enum_firmware_dir fs firmware_dir st0
             | None => st0
             end in
  let st2 := enum_firmware_dir fs SYSTEM_FIRMWARE_DIR st1 in
  (qsort (fst st2), snd st2).

Definition get_latest_firmware (found_firmwares : list found_firmware)
    (p : Z) : option found_firmware :=
  find (fun ff => usb_pid (firmware ff) =? p) found_firmwares.

Definition get_firmware_for_version (found_firmwares : list found_firmware)
    (p version : Z) : option found_firmware :=
  find (fun ff => (usb_pid (firmware ff) =? p)
                  && (firmware_version (firmware ff) =? to_u32 version))
       found_firmwares.

(** ** Selection of the card and of the firmware *)

(** The messages after which the tool calls [exit(EXIT_FAILURE)]. *)
Inductive fatal : Type :=
| F_no_supported_devices
| F_more_than_one_device
| F_selected_card_not_found (n : Z)
| F_no_firmware_available
| F_already_up_to_date (running : Z)
| F_no_firmware_version (version : Z)
| F_unable_to_load_firmware (e : firmware_error)
| F_different_device (firmware_pid device_pid : Z)
| F_unable_to_open_card
| F_unable_to_get_protocol_version
| F_unsupported_protocol_version (v : Z)
| F_unable_to_reboot
| F_unable_to_get_erase_progress (progress : Z)
| F_erase_went_backwards (last_progress progress : Z)
| F_erase_timed_out
| F_unable_to_reset_configuration
| F_unable_to_erase_firmware
| F_unable_to_write_firmware (err : Z)
| F_write_returned_0 (offset len : Z)
| F_unknown_command.

(** [check_card_selection]: the selected card, from [found_cards] and the
    [-c] option ([-1] when absent). *)
Definition check_card_selection (found_cards : list sound_card)
    (selected_card_num : Z) : result fatal sound_card :=
  match found_cards with
  | [] => Err F_no_supported_devices
  | first :: others =>
      if (selected_card_num =? -1) && (1 <? Z.of_nat (length found_cards))
      then Err F_more_than_one_device
      else
        let selected_card_num :=
          if selected_card_num =? -1 then card_num first
          else selected_card_num in
        match find (fun sc => card_num sc =? selected_card_num) found_cards with
        | Some sc => Ok sc
        | None => Err (F_selected_card_not_found selected_card_num)
        end
  end.

(** The first half of [check_firmware_selection]: the catalog entry. The
    running version is an [int] and the header's version is unsigned, so
    the comparison is made on the unsigned reading of the former. *)
Definition select_found_firmware (found_firmwares : list found_firmware)
    (selected_card : sound_card) (selected_firmware_version : Z)
  : result fatal found_firmware :=
  if selected_firmware_version =? 0 then
    match get_latest_firmware found_firmwares (card_pid selected_card) with
    | None => Err F_no_firmware_available
    | Some ff =>
        if to_u32 (card_firmware_version selected_card)
           >=? firmware_version (firmware ff)
        then Err (F_already_up_to_date (card_firmware_version selected_card))
        else Ok ff
    end
  else
    match get_firmware_for_version found_firmwares (card_pid selected_card)
            selected_firmware_version with
    | None => Err (F_no_firmware_version selected_firmware_version)
    | Some ff => Ok ff
    end.

(** [check_firmware_selection]: the entry, then the file read again from
    its path and the check of its PID. *)
Definition check_firmware_selection (fs : filesystem)
    (found_firmwares : list found_firmware) (selected_card : sound_card)
    (selected_firmware_version : Z)
  : result fatal (found_firmware * scarlett2_firmware_file) :=
  match select_found_firmware found_firmwares selected_card
          selected_firmware_version with
  | Err f => Err f
  | Ok ff =>
      match scarlett2_read_firmware_file (fopen fs (fn ff)) with
      | Err e => Err (F_unable_to_load_firmware e)
      | Ok selected_firmware =>
          if negb (usb_pid (header selected_firmware) =? card_pid selected_card)
          then Err (F_different_device (usb_pid (header selected_firmware))
                                       (card_pid selected_card))
          else Ok (ff, selected_firmware)
      end
  end.

(** ** The erase monitor and the write loop

    The answers of the device are scripted: a list holds what the next
    calls will return, in order. A loop that needs an answer when the
    list is empty is [starved]; that outcome belongs to the model, not to
    the tool. *)

Inductive monitor_result : Type :=
| Mon_done                              (* "Erase progress: Done!" *)
| Mon_error (progress : Z)              (* negative return value *)
| Mon_went_backwards (last_progress progress : Z)
| Mon_timed_out
| Mon_starved.

(** The code after the loop of [monitor_erase_progress]. *)
Definition monitor_after_loop (progress : Z) : monitor_result :=
  if negb (progress =? 255) then Mon_timed_out else Mon_done.

(** The loop [for (int i = 0; i < 10; i++)] of [monitor_erase_progress],
    entered with the given [i], [last_progress] and [progress]. The head
    of [polls] is what [scarlett2_get_erase_progress] returns next; the
    result carries the answers not consumed. After [i = 0] in the body the
    loop's [i++] runs, so the next iteration starts with [i = 1]. *)
Fixpoint monitor_loop (polls : list Z) (i last_progress progress : Z)
  : monitor_result * list Z :=
  if i <? 10 then
    match polls with
    | [] => (Mon_starved, [])
    | p :: polls' =>
        if p <? 0 then (Mon_error p, polls')
        else if p =? 255 then (monitor_after_loop p, polls')
        else if p >? last_progress then monitor_loop polls' (0 + 1) p p
        else if p <? last_progress then
          (Mon_went_backwards last_progress p, polls')
        else monitor_loop polls' (i + 1) last_progress p
    end
  else (monitor_after_loop progress, polls).

Definition monitor_polls (polls : list Z) : monitor_result * list Z :=
  monitor_loop polls 0 0 0.

(** Conversion to a C [int] (32 bits, two's complement). *)
Definition to_i32 (x : Z) : Z := (x + 2 ^ 31) mod 2 ^ 32 - 2 ^ 31.

Inductive write_result : Type :=
| Write_done                            (* "Firmware write progress: Done!" *)
| Write_failed (err : Z)
| Write_returned_0 (offset len : Z)
| Write_starved.

Record write_run : Type := {
  w_result : write_result;
  w_offset : Z;                 (* [offset] when the loop was left *)
  w_calls : list (Z * Z);       (* offset and count of each write, in order *)
  w_progress : list Z;          (* the percentages printed, in order *)
  w_rest : list Z               (* answers not consumed *)
}.

(** The loop [while (offset < len)] of [update_firmware]. The head of
    [rets] is what [snd_hwdep_write] returns next, an [ssize_t]; the loop
    stores it in [int err] and tests and adds that [int]. *)
Fixpoint write_loop (rets : list Z) (offset len : Z)
    (calls : list (Z * Z)) (printed : list Z) : write_run :=
  if offset <? len then
    match rets with
    | [] => {| w_result := Write_starved; w_offset := offset;
               w_calls := calls; w_progress := printed; w_rest := [] |}
    | ret :: rets' =>
        let calls' := calls ++ [(offset, len - offset)] in
        let err := to_i32 ret in
        if err <? 0 then
          {| w_result := Write_failed err; w_offset := offset;
             w_calls := calls'; w_progress := printed; w_rest := rets' |}
        else if err =? 0 then
          {| w_result := Write_returned_0 offset len; w_offset := offset;
             w_calls := calls'; w_progress := printed; w_rest := rets' |}
        else
          let offset' := offset + err in
          let progress := to_i32 ((offset' * 100) / len) in
          write_loop rets' offset' len calls' (printed ++ [progress])
    end
  else {| w_result := Write_done; w_offset := offset;
          w_calls := calls; w_progress := printed; w_rest := rets |}.

Definition write_firmware (rets : list Z) (len : Z) : write_run :=
  write_loop rets 0 len [] [].

(** ** The card: hwdep calls, their trace and the update sequence *)

Inductive hw_cmd : Type :=
| Cmd_open_card
| Cmd_get_protocol_version
| Cmd_reboot
| Cmd_erase_config
| Cmd_erase_firmware
| Cmd_get_erase_progress
| Cmd_hwdep_write (offset count : Z).

(** The commands that change the device. *)
Definition destructive (c : hw_cmd) : bool :=
  match c with
  | Cmd_reboot | Cmd_erase_config | Cmd_erase_firmware
  | Cmd_hwdep_write _ _ => true
  | _ => false
  end.

(** What the card will answer. *)
Record card_script : Type := {
  open_card_ret : Z;
  get_protocol_version_ret : Z;
  erase_config_ret : Z;
  erase_firmware_ret : Z;
  reboot_ret : Z;
  get_erase_progress_rets : list Z;
  hwdep_write_rets : list Z
}.

(** The globals [hwdep] and [protocol_version], the answers still to come
    and what has been sent and printed so far. *)
Record hw_state : Type := {
  script : card_script;
  hwdep : bool;
  protocol_version : Z;
  issued : list hw_cmd;
  printed_write_progress : list Z
}.

Definition initial_hw (c : card_script) : hw_state :=
  {| script := c; hwdep := false; protocol_version := 0;
     issued := []; printed_write_progress := [] |}.

Inductive step (A : Type) : Type :=
| Cont (a : A) (s : hw_state)
| Exit (f : fatal) (s : hw_state)       (* [exit(EXIT_FAILURE)] *)
| Starved (s : hw_state).
Arguments Cont {A} a s.
Arguments Exit {A} f s.
Arguments Starved {A} s.

Definition hw (A : Type) : Type := hw_state -> step A.

Definition ret {A} (a : A) : hw A := fun s => Cont a s.

Definition bind {A B} (c : hw A) (k : A -> hw B) : hw B :=
  fun s =>
    match c s with
    | Cont a s' => k a s'
    | Exit f s' => Exit f s'
    | Starved s' => Starved s'
    end.

Definition exit_failure {A} (f : fatal) : hw A := fun s => Exit f s.

Notation "x <- c1 ;; c2" := (bind c1 (fun x => c2))
  (at level 61, c1 at next level, right associativity).
Notation "c1 ;;; c2" := (bind c1 (fun _ => c2))
  (at level 61, right associativity).

Definition issue (c : hw_cmd) (s : hw_state) : hw_state :=
  {| script := script s; hwdep := hwdep s;
     protocol_version := protocol_version s;
     issued := issued s ++ [c];
     printed_write_progress := printed_write_progress s |}.

Definition issue_all (cs : list hw_cmd) (s : hw_state) : hw_state :=
  fold_left (fun s c => issue c s) cs s.

Definition set_script (c : card_script) (s : hw_state) : hw_state :=
  {| script := c; hwdep := hwdep s;
     protocol_version := protocol_version s;
     issued := issued s;
     printed_write_progress := printed_write_progress s |}.

Definition with_erase_progress_rets (l : list Z) (c : card_script)
  : card_script :=
  {| open_card_ret := open_card_ret c;
     get_protocol_version_ret := get_protocol_version_ret c;
     erase_config_ret := erase_config_ret c;
     erase_firmware_ret := erase_firmware_ret c;
     reboot_ret := reboot_ret c;
     get_erase_progress_rets := l;
     hwdep_write_rets := hwdep_write_rets c |}.

Definition with_hwdep_write_rets (l : list Z) (c : card_script)
  : card_script :=
  {| open_card_ret := open_card_ret c;
     get_protocol_version_ret := get_protocol_version_ret c;
     erase_config_ret := erase_config_ret c;
     erase_firmware_ret := erase_firmware_ret c;
     reboot_ret := reboot_ret c;
     get_erase_progress_rets := get_erase_progress_rets c;
     hwdep_write_rets := l |}.

(** Modelled from the spec: the hwdep calls are defined in scarlett2.c,
    which is not among the sources. Each call returns what the card
    answers (a negative value is an error) and is recorded in [issued];
    [scarlett2_open_card] sets [hwdep] when it succeeds. *)
Definition scarlett2_open_card : hw Z := fun s =>
  let err := open_card_ret (script s) in
  let s1 := issue Cmd_open_card s in
  Cont err {| script := script s1; hwdep := negb (err <? 0);
              protocol_version := protocol_version s1;
              issued := issued s1;
              printed_write_progress := printed_write_progress s1 |}.

Definition scarlett2_get_protocol_version : hw Z := fun s =>
  Cont (get_protocol_version_ret (script s)) (issue Cmd_get_protocol_version s).

Definition scarlett2_reboot : hw Z := fun s =>
  Cont (reboot_ret (script s)) (issue Cmd_reboot s).

Definition scarlett2_erase_config : hw Z := fun s =>
  Cont (erase_config_ret (script s)) (issue Cmd_erase_config s).

Definition scarlett2_erase_firmware : hw Z := fun s =>
  Cont (erase_firmware_ret (script s)) (issue Cmd_erase_firmware s).

Definition set_protocol_version (v : Z) : hw unit := fun s =>
  Cont tt {| script := script s; hwdep := hwdep s; protocol_version := v;
             issued := issued s;
             printed_write_progress := printed_write_progress s |}.

Definition get_hwdep : hw bool := fun s => Cont (hwdep s) s.

(** The macro of scarlett2-ioctls.h that extracts the major number; the
    file is not among the sources. *)
Variable SCARLETT2_HWDEP_VERSION_MAJOR : Z -> Z.

Definition open_card : hw unit :=
  opened <- get_hwdep ;;
  if opened : bool then ret tt
  else
    err <- scarlett2_open_card ;;
    if err <? 0 then exit_failure F_unable_to_open_card
    else
      err <- scarlett2_get_protocol_version ;;
      if err <? 0 then exit_failure F_unable_to_get_protocol_version
      else
        set_protocol_version err ;;;
        if negb (SCARLETT2_HWDEP_VERSION_MAJOR err
                 =? REQUIRED_HWDEP_VERSION_MAJOR)
        then exit_failure (F_unsupported_protocol_version err)
        else ret tt.

Definition reboot_card : hw unit :=
  open_card ;;;
  err <- scarlett2_reboot ;;
  if err <? 0 then exit_failure F_unable_to_reboot else ret tt.

(** [monitor_erase_progress]: runs the loop on the answers still to come
    and records one poll for each answer consumed. *)
Definition monitor_erase_progress : hw unit := fun s =>
  let polls := get_erase_progress_rets (script s) in
  let '(r, rest) := monitor_polls polls in
  let n := (length polls - length rest)%nat in
  let s' := issue_all (repeat Cmd_get_erase_progress n)
              (set_script (with_erase_progress_rets rest (script s)) s) in
  match r with
  | Mon_done => Cont tt s'
  | Mon_error p => Exit (F_unable_to_get_erase_progress p) s'
  | Mon_went_backwards l p => Exit (F_erase_went_backwards l p) s'
  | Mon_timed_out => Exit F_erase_timed_out s'
  | Mon_starved => Starved s'
  end.

Definition reset_config : hw unit :=
  open_card ;;;
  err <- scarlett2_erase_config ;;
  if err <? 0 then exit_failure F_unable_to_reset_configuration
  else monitor_erase_progress.

Definition erase_firmware : hw unit :=
  open_card ;;;
  err <- scarlett2_erase_firmware ;;
  if err <? 0 then exit_failure F_unable_to_erase_firmware
  else monitor_erase_progress.

(** The write loop of [update_firmware] run on the answers still to come. *)
Definition write_selected_firmware
    (selected_firmware : scarlett2_firmware_file) : hw unit := fun s =>
  let len := firmware_length (header selected_firmware) in
  let w := write_firmware (hwdep_write_rets (script s)) len in
  let s1 := issue_all (map (fun c => Cmd_hwdep_write (fst c) (snd c)) (w_calls w))
              (set_script (with_hwdep_write_rets (w_rest w) (script s)) s) in
  let s' := {| script := script s1; hwdep := hwdep s1;
               protocol_version := protocol_version s1;
               issued := issued s1;
               printed_write_progress :=
                 printed_write_progress s1 ++ w_progress w |} in
  match w_result w with
  | Write_done => Cont tt s'
  | Write_failed err => Exit (F_unable_to_write_firmware err) s'
  | Write_returned_0 offset l => Exit (F_write_returned_0 offset l) s'
  | Write_starved => Starved s'
  end.

Definition update_firmware (selected_firmware : scarlett2_firmware_file)
  : hw unit :=
  open_card ;;;
  write_selected_firmware selected_firmware.

(** ** main *)

(** The command line after [parse_args]. *)
Record arguments : Type := {
  command : option string;
  selected_card_num : Z;              (* [-1] without [-c] *)
  selected_firmware_version : Z       (* [0] without [--fw-ver] *)
}.

(** What the tool finds around it: the cards [enum_cards] collects, the
    directory of the executable, the file system while the firmware
    directories are scanned and while the selected file is read, and the
    answers of the card. *)
Record environment : Type := {
  found_cards : list sound_card;
  firmware_exec_dir : option string;
  scan_fs : filesystem;
  load_fs : filesystem;
  card : card_script
}.

Definition lift {A} (r : result fatal A) : hw A :=
  match r with
  | Ok a => ret a
  | Err f => exit_failure f
  end.

(** [main]: the warnings of the scan and the run on the card. The
    commands that only print ([help], [about], [list], [list-all]) send
    nothing to a card. *)
Definition main (args : arguments) (env : environment)
  : list scan_warning * step unit :=
  let command := match command args with
                 | None => "list"%string
                 | Some c => c
                 end in
  let hw0 := initial_hw (card env) in
  if (command =? "help")%string then ([], ret tt hw0)
  else if (command =? "about")%string then ([], ret tt hw0)
  else if (command =? "list")%string then
    (snd (enum_firmwares (scan_fs env) (firmware_exec_dir env)), ret tt hw0)
  else if (command =? "list-all")%string then
    (snd (enum_firmwares (scan_fs env) (firmware_exec_dir env)), ret tt hw0)
  else if (command =? "reboot")%string then
    ([],
     (_ <- lift (check_card_selection (found_cards env)
                   (selected_card_num args)) ;;
      reboot_card) hw0)
  else if (command =? "reset-config")%string then
    ([],
     (_ <- lift (check_card_selection (found_cards env)
                   (selected_card_num args)) ;;
      reset_config ;;;
      reboot_card) hw0)
  else if (command =? "erase-firmware")%string then
    ([],
     (_ <- lift (check_card_selection (found_cards env)
                   (selected_card_num args)) ;;
      reset_config ;;;
      erase_firmware ;;;
      reboot_card) hw0)
  else if (command =? "update")%string then
    let '(found_firmwares, warnings) :=
      enum_firmwares (scan_fs env) (firmware_exec_dir env) in
    (warnings,
     (selected_card <- lift (check_card_selection (found_cards env)
                               (selected_card_num args)) ;;
      sel <- lift (check_firmware_selection (load_fs env) found_firmwares
                     selected_card (selected_firmware_version args)) ;;
      reset_config ;;;
      erase_firmware ;;;
      update_firmware (snd sel) ;;;
      reboot_card) hw0)
  else ([], exit_failure F_unknown_command hw0).

Definition final_state {A} (r : step A) : hw_state :=
  match r with
  | Cont _ s => s
  | Exit _ s => s
  | Starved s => s
  end.

(** ** The catalog order as the specification words it

    Position in the table first, entries of products that are not in the
    table after all the others and in their order before the sort, and
    newest version first within a product. *)

Definition table_position (ff : found_firmware) : option nat :=
  get_device_for_pid (usb_pid (firmware ff)).

Fixpoint index_of (ff : found_firmware) (l : list found_firmware) (i : nat)
  : option nat :=
  match l with
  | [] => None
  | x :: l' =>
      if (String.eqb (fn x) (fn ff)) && same_firmware (firmware x) (firmware ff)
      then Some i else index_of ff l' (S i)
  end.

Definition spec_before (found : list found_firmware) (a b : found_firmware)
  : Prop :=
  match table_position a, table_position b with
  | Some pa, Some pb =>
      (pa < pb)%nat
      \/ (pa = pb /\ firmware_version (firmware a) >= firmware_version (firmware b))
  | Some _, None => True
  | None, Some _ => False
  | None, None =>
      match index_of a found 0, index_of b found 0 with
      | Some ia, Some ib => (ia <= ib)%nat
      | _, _ => False
      end
  end.

Definition spec_catalog_order (found sorted : list found_firmware) : Prop :=
  forall i j a b, (i < j)%nat ->
    nth_error sorted i = Some a -> nth_error sorted j = Some b ->
    spec_before found a b.

(** The order the comparison function gives: the null pointer of an
    unknown product is below every pointer into the table. *)
Definition device_rank (ff : found_firmware) : nat :=
  match table_position ff with
  | None => 0
  | Some i => S i
  end.

Definition catalog_before (a b : found_firmware) : Prop :=
  (device_rank a < device_rank b)%nat
  \/ (device_rank a = device_rank b
      /\ firmware_version (firmware a) >= firmware_version (firmware b)).

(** No two entries with the same (vendor, product, version). *)
Definition triple (ff : found_firmware) : Z * Z * Z :=
  (usb_vid (firmware ff), usb_pid (firmware ff),
   firmware_version (firmware ff)).

(** A scan as the sequence of calls of [add_found_firmware] it makes. *)
Definition add_all (found_firmwares : list found_firmware)
    (adds : list (string * scarlett2_firmware_header))
  : list found_firmware :=
  fold_left (fun found a => add_found_firmware found (fst a) (snd a))
            adds found_firmwares.

(** Each count the write loop takes from the answer to a call that is
    made is at most the count the call passes. *)
Fixpoint within_request (rets : list Z) (offset len : Z) : Prop :=
  match rets with
  | [] => True
  | ret :: rets' =>
      offset < len -> 0 < to_i32 ret ->
      to_i32 ret <= len - offset
      /\ within_request rets' (offset + to_i32 ret) len
  end.

(** The offsets of a run that starts at [offset] and adds the counts
    [errs] one after the other: the offset before each count is added,
    then the offset after the last. *)
Fixpoint offsets_from (offset : Z) (errs : list Z) : list Z :=
  match errs with
  | [] => [offset]
  | err :: errs' => offset :: offsets_from (offset + err) errs'
  end.

(** ** The order of the commands

    What the tool sends after the handshake, as an automaton over the
    commands: the configuration is erased first, then the firmware, then
    the firmware is written, and a reboot ends every sequence. Polls of the
    erase progress follow each erase command. *)

Inductive phase : Type :=
| Ph_opened
| Ph_config_erased
| Ph_firmware_erased
| Ph_writing
| Ph_rebooted.

Definition phase_step (ph : phase) (c : hw_cmd) : option phase :=
  match ph, c with
  | Ph_opened, Cmd_erase_config => Some Ph_config_erased
  | Ph_config_erased, Cmd_get_erase_progress => Some Ph_config_erased
  | Ph_config_erased, Cmd_erase_firmware => Some Ph_firmware_erased
  | Ph_firmware_erased, Cmd_get_erase_progress => Some Ph_firmware_erased
  | Ph_firmware_erased, Cmd_hwdep_write _ _ => Some Ph_writing
  | Ph_writing, Cmd_hwdep_write _ _ => Some Ph_writing
  | Ph_opened, Cmd_reboot => Some Ph_rebooted
  | Ph_config_erased, Cmd_reboot => Some Ph_rebooted
  | Ph_firmware_erased, Cmd_reboot => Some Ph_rebooted
  | Ph_writing, Cmd_reboot => Some Ph_rebooted
  | _, _ => None
  end.

Fixpoint phase_run (ph : phase) (l : list hw_cmd) : option phase :=
  match l with
  | [] => Some ph
  | c :: l' =>
      match phase_step ph c with
      | Some ph' => phase_run ph' l'
      | None => None
      end
  end.

(** The handshake of [open_card] succeeds with these answers. *)
Definition handshake_ok (c : card_script) : Prop :=
  0 <= open_card_ret c /\ 0 <= get_protocol_version_ret c
  /\ SCARLETT2_HWDEP_VERSION_MAJOR (get_protocol_version_ret c)
     = REQUIRED_HWDEP_VERSION_MAJOR.


(** The card is open and what was sent after the handshake has brought
    the automaton to [ph]. *)
Definition in_phase (ph : phase) (s : hw_state) : Prop :=
  hwdep s = true
  /\ exists l, issued s = Cmd_open_card :: Cmd_get_protocol_version :: l
               /\ phase_run Ph_opened l = Some ph.

(** A run that returns has reached a phase of [P]; one that stops has
    kept to the order up to there. *)
Definition ends_in {A} (P : phase -> Prop) (r : step A) : Prop :=
  match r with
  | Cont _ s => exists ph, P ph /\ in_phase ph s
  | Exit _ s => exists ph, in_phase ph s
  | Starved s => exists ph, in_phase ph s
  end.

(** Whatever [c] sends is a command of [P]. *)
Definition emits {A} (P : hw_cmd -> Prop) (c : hw A) : Prop :=
  forall s, exists l,
    issued (final_state (c s)) = issued s ++ l /\ Forall P l.


(** How far into an update a command belongs: the handshake and the
    reboot, the reset of the configuration, the erase of the firmware, the
    write. *)
Definition command_level (c : hw_cmd) : nat :=
  match c with
  | Cmd_open_card | Cmd_get_protocol_version | Cmd_reboot => 0
  | Cmd_erase_config | Cmd_get_erase_progress => 1
  | Cmd_erase_firmware => 2
  | Cmd_hwdep_write _ _ => 3
  end.


(** ** The listings *)

(** One line of [list_cards]: with the update that is available, or with
    the running version only. Versions are printed with [%d]. *)
Inductive card_line : Type :=
| Line_update_available (sc : sound_card) (upgrade_version : Z)
| Line_firmware_version (sc : sound_card).

(** The variable [upgrade_version] of [list_cards] after the test of the
    latest firmware of the card's product. *)
Definition upgrade_version (found_firmwares : list found_firmware)
    (sc : sound_card) : Z :=
  match get_latest_firmware found_firmwares (card_pid sc) with
  | Some ff =>
      if firmware_version (firmware ff) >? to_u32 (card_firmware_version sc)
      then to_i32 (firmware_version (firmware ff))
      else 0
  | None => 0
  end.

Inductive cards_listing : Type :=
| No_supported_devices_found
| Found_supported_devices (count : nat) (plural : bool)
    (lines : list card_line).

Definition list_cards (found_firmwares : list found_firmware)
    (found_cards : list sound_card) : cards_listing :=
  match found_cards with
  | [] => No_supported_devices_found
  | _ =>
      Found_supported_devices (length found_cards)
        (1 <? Z.of_nat (length found_cards))
        (map (fun sc =>
                let upgrade_version := upgrade_version found_firmwares sc in
                if negb (upgrade_version =? 0)
                then Line_update_available sc upgrade_version
                else Line_firmware_version sc)
             found_cards)
  end.

Definition is_connected (found_cards : list sound_card) (p : Z) : bool :=
  existsb (fun sc => card_pid sc =? p) found_cards.

(** One line of [list_all]: the mark of a connected product, the
    product, the versions found for it and, for a connected product, the
    versions its cards run. Versions are printed with [%d]. *)
Record product_line : Type := {
  connected : bool;
  line_pid : Z;
  line_name : string;
  available : list Z;
  running : option (list Z)
}.

(** [list_all]: whether "No firmware found." is printed, and the lines. *)
Definition list_all (found_firmwares : list found_firmware)
    (found_cards : list sound_card) : bool * list product_line :=
  (match found_firmwares with [] => true | _ => false end,
   map (fun dev =>
          {| connected := is_connected found_cards (pid dev);
             line_pid := pid dev;
             line_name := name dev;
             available :=
               map (fun ff => to_i32 (firmware_version (firmware ff)))
                   (filter (fun ff => usb_pid (firmware ff) =? pid dev)
                           found_firmwares);
             running :=
               if is_connected found_cards (pid dev)
               then Some (map card_firmware_version
                              (filter (fun sc => card_pid sc =? pid dev)
                                      found_cards))
               else None |})
       scarlett2_supported).


(** ** The directory of the executable *)

(** The C string a buffer holds: the characters before the first NUL. *)
Fixpoint c_string (s : string) : string :=
  match s with
  | EmptyString => EmptyString
  | String c s' =>
      if Ascii.eqb c zero then EmptyString else String c (c_string s')
  end.

(** [strrchr(path, '/')] and [*last_slash = '\0']: what is before the
    last slash, or [None] when there is no slash. *)
Fixpoint before_last_slash (path : string) : option string :=
  match path with
  | EmptyString => None
  | String c path' =>
      match before_last_slash path' with
      | Some d => Some (String c d)
      | None => if Ascii.eqb c "/" then Some EmptyString else None
      end
  end.

(** [PATH_MAX] of <limits.h>. *)
Variable PATH_MAX : Z.

(** Why [get_exec_dir] returns [NULL]. With a link target of [PATH_MAX]
    bytes the terminator is written one past the buffer; the model stops
    there. *)
Inductive exec_dir_error : Type :=
| X_malloc
| X_readlink
| X_no_slash
| X_terminator_out_of_bounds.

(** [get_exec_dir]; [link] is what [readlink("/proc/self/exe", ...)]
    stores, or [None] when it returns -1. *)
Definition get_exec_dir (link : option string)
  : result exec_dir_error string :=
  if negb (malloc_ok PATH_MAX) then Err X_malloc
  else
    match link with
    | None => Err X_readlink
    | Some target =>
        if PATH_MAX <=? Z.of_nat (String.length target)
        then Err X_terminator_out_of_bounds
        else
          match before_last_slash (c_string target) with
          | None => Err X_no_slash
          | Some exec_dir => Ok exec_dir
          end
    end.

Definition get_firmware_exec_dir (link : option string)
  : result exec_dir_error string :=
  match get_exec_dir link with
  | Err e => Err e
  | Ok exec_dir =>
      if negb (malloc_ok (Z.of_nat (String.length exec_dir)
                          + Z.of_nat (String.length FIRMWARE_DIR) + 2))
      then Err X_malloc
      else Ok (exec_dir ++ "/" ++ FIRMWARE_DIR)%string
  end.


(** ** The command line *)

(** libc's [strtol] on a string in a base: the value, the string at
    [endptr], and whether [errno] was set. *)
Variable strtol : string -> Z -> Z * string * bool.

(** [arg + n] for an argument of at least [n] characters. *)
Fixpoint skip_chars (n : nat) (arg : string) : string :=
  match n, arg with
  | O, _ => arg
  | S n', String _ arg' => skip_chars n' arg'
  | S _, EmptyString => EmptyString
  end.

(** The messages after which [parse_args] leaves the program. *)
Inductive usage_error : Type :=
| U_missing_card_number (arg : string)
| U_multiple_cards
| U_invalid_card_number (card_num_str : string)
| U_missing_firmware_version (arg : string)
| U_multiple_firmware_versions
| U_invalid_firmware_version (fw_ver_str : string)
| U_unknown_argument (arg : string)
| U_command_already_specified (arg : string)
| U_no_command_specified.

Definition set_command (c : string) (st : arguments) : arguments :=
  {| command := Some c;
     selected_card_num := selected_card_num st;
     selected_firmware_version := selected_firmware_version st |}.

(** The check that [-c] was not seen before, and the parse of its
    number. The [long] of [strtol] is stored in an [int]. *)
Definition parse_card_num (card_num_str : string) (st : arguments)
  : result usage_error arguments :=
  if negb (selected_card_num st =? -1) then Err U_multiple_cards
  else
    let '(value, endptr, errno) := strtol card_num_str 10 in
    let selected_card_num := to_i32 value in
    if errno || negb (endptr =? "")%string || (selected_card_num <? 0)
    then Err (U_invalid_card_number card_num_str)
    else Ok {| command := command st;
               selected_card_num := selected_card_num;
               selected_firmware_version := selected_firmware_version st |}.

Definition parse_fw_ver (fw_ver_str : string) (st : arguments)
  : result usage_error arguments :=
  if negb (selected_firmware_version st =? 0)
  then Err U_multiple_firmware_versions
  else
    let '(value, endptr, errno) := strtol fw_ver_str 10 in
    let selected_firmware_version := to_i32 value in
    if errno || negb (endptr =? "")%string || (selected_firmware_version <=? 0)
    then Err (U_invalid_firmware_version fw_ver_str)
    else Ok {| command := command st;
               selected_card_num := selected_card_num st;
               selected_firmware_version := selected_firmware_version |}.

(** The [switch] on [arg[1]] of an argument of two characters. *)
Definition short_command (arg : string) : option string :=
  match arg with
  | String _ (String c EmptyString) =>
      if Ascii.eqb c "h" then Some "help"%string
      else if Ascii.eqb c "l" then Some "list"%string
      else if Ascii.eqb c "u" then Some "update"%string
      else None
  | _ => None
  end.

Definition starts_with_dash (arg : string) : bool :=
  match arg with
  | String c _ => Ascii.eqb c "-"
  | EmptyString => false
  end.

(** The loop of [parse_args] over [argv[1..]]; the state is the globals
    [command], [selected_card_num] and [selected_firmware_version]. *)
Fixpoint parse_args_loop (argv : list string) (st : arguments)
  : result usage_error arguments :=
  match argv with
  | [] => Ok st
  | arg :: rest =>
      if prefix "-c" arg || (arg =? "--card")%string || prefix "--card=" arg
      then
        if prefix "-c" arg && (2 <? String.length arg)%nat then
          match parse_card_num (skip_chars 2 arg) st with
          | Ok st' => parse_args_loop rest st'
          | Err e => Err e
          end
        else if prefix "--card=" arg then
          match parse_card_num (skip_chars 7 arg) st with
          | Ok st' => parse_args_loop rest st'
          | Err e => Err e
          end
        else
          match rest with
          | [] => Err (U_missing_card_number arg)
          | card_num_str :: rest' =>
              match parse_card_num card_num_str st with
              | Ok st' => parse_args_loop rest' st'
              | Err e => Err e
              end
          end
      else if (arg =? "--fw-ver")%string || prefix "--fw-ver=" arg then
        if prefix "--fw-ver=" arg then
          match parse_fw_ver (skip_chars 9 arg) st with
          | Ok st' => parse_args_loop rest st'
          | Err e => Err e
          end
        else
          match rest with
          | [] => Err (U_missing_firmware_version arg)
          | fw_ver_str :: rest' =>
              match parse_fw_ver fw_ver_str st with
              | Ok st' => parse_args_loop rest' st'
              | Err e => Err e
              end
          end
      else if starts_with_dash arg then
        match short_command arg with
        | None => Err (U_unknown_argument arg)
        | Some short_command =>
            match command st with
            | Some _ => Err (U_command_already_specified arg)
            | None => parse_args_loop rest (set_command short_command st)
            end
        end
      else
        match command st with
        | None => parse_args_loop rest (set_command arg st)
        | Some _ => Err (U_command_already_specified arg)
        end
  end.

(** [parse_args] on the arguments after the program name. *)
Definition parse_args (argv : list string) : result usage_error arguments :=
  match parse_args_loop argv {| command := None; selected_card_num := -1;
                                selected_firmware_version := 0 |} with
  | Err e => Err e
  | Ok st =>
      match command st with
      | None =>
          if negb (selected_card_num st =? -1) then Err U_no_command_specified
          else Ok st
      | Some _ => Ok st
      end
  end.

(** ** The sound cards *)

Definition USBID_SIZE : nat := 10.
Definition VENDOR_PREFIX : list byte := list_byte_of_string "1235:".
Definition VENDOR_PREFIX_LEN : nat := 5.

(** [check_usb_id]; [opened] is what [fopen] of the card's usbid file
    gives. The last byte of the buffer is overwritten with NUL before
    the buffer is read as a string. *)
Definition check_usb_id (opened : option (list byte)) : Z :=
  match opened with
  | None => 0
  | Some file =>
      let usbid := firstn USBID_SIZE file in
      if negb (length usbid =? USBID_SIZE)%nat then 0
      else
        let usbid := firstn (USBID_SIZE - 1) usbid ++ [NUL] in
        if negb (strncmp usbid VENDOR_PREFIX VENDOR_PREFIX_LEN =? 0) then 0
        else
          let '(value, endptr, errno) :=
            strtol (c_string (string_of_list_byte
                                (skipn VENDOR_PREFIX_LEN usbid))) 16 in
          let pid := to_i32 value in
          if errno || negb (endptr =? "")%string then 0 else pid
  end.

(** [%d] of a card number. *)
Definition decimal (n : Z) : string := NilZero.string_of_int (Z.to_int n).

(** What the tool asks of ALSA and of /proc: the answers of the calls of
    [snd_card_next] in order (the return value and the card number it
    stores), the usbid file of a card, and the value of the "Firmware
    Version" control of a card as [get_firmware_version] returns it (-1
    when it cannot be read). *)
Record alsa : Type := {
  snd_card_next_rets : list (Z * Z);
  usbid_file : string -> option (list byte);
  get_firmware_version : string -> Z
}.

(** Whether [realloc] returns a buffer for that many cards. *)
Variable realloc_ok : nat -> bool.

Inductive enum_cards_result : Type :=
| Cards_found (found_cards : list sound_card)
| Cards_realloc_failed                 (* [exit(EXIT_FAILURE)] *)
| Cards_starved.

(** The body of the loop of [enum_cards] up to the label [next]. *)
Definition enum_card (sys : alsa) (card_num : Z)
    (found_cards : list sound_card) : option (list sound_card) :=
  let card_name := ("card" ++ decimal card_num)%string in
  let pid :=
    check_usb_id (usbid_file sys ("/proc/asound/" ++ card_name ++ "/usbid")%string) in
  if pid =? 0 then Some found_cards
  else
    match get_device_for_pid pid with
    | None => Some found_cards
    | Some dev =>
        if negb (realloc_ok (length found_cards + 1)) then None
        else
          let alsa_name := ("hw:" ++ decimal card_num)%string in
          Some (found_cards ++
                [ {| card_num := card_num;
                     card_name := card_name;
                     alsa_name := alsa_name;
                     card_pid := pid;
                     product_name :=
                       match nth_error scarlett2_supported dev with
                       | Some d => name d
                       | None => EmptyString
                       end;
                     card_firmware_version :=
                       get_firmware_version sys alsa_name |} ])
    end.

(** The loop [while (card_num >= 0)] of [enum_cards]; [rets] holds the
    answers of the calls of [snd_card_next] still to come. *)
Fixpoint enum_cards_loop (sys : alsa) (rets : list (Z * Z)) (card_num : Z)
    (found_cards : list sound_card) : enum_cards_result :=
  if card_num <? 0 then Cards_found found_cards
  else
    match enum_card sys card_num found_cards with
    | None => Cards_realloc_failed
    | Some found_cards' =>
        match rets with
        | [] => Cards_starved
        | (ret, next) :: rets' =>
            if ret <? 0 then Cards_found found_cards'
            else enum_cards_loop sys rets' next found_cards'
        end
    end.

Definition enum_cards (sys : alsa) : enum_cards_result :=
  match snd_card_next_rets sys with
  | [] => Cards_starved
  | (ret, card_num) :: rets =>
      if (ret <? 0) || (card_num <? 0) then Cards_found []
      else enum_cards_loop sys rets card_num []
  end.


(** ** Sample inputs *)

Definition sample_magic : list byte := list_byte_of_string "SCARLETT".

(** A stand-in for the digest when the model is run on sample files: 32
    copies of the sum of the bytes modulo 256. *)
Definition byte_of_Z (z : Z) : byte :=
  match Byte.of_N (Z.to_N (z mod 256)) with
  | Some b => b
  | None => NUL
  end.

Definition sample_digest (data : list byte) : list byte :=
  repeat (byte_of_Z (fold_right (fun b acc => byte_val b + acc) 0 data))
         SHA256_DIGEST_LENGTH.

Definition sample_major (v : Z) : Z := Z.land (Z.shiftr v 16) 255.

Definition be16 (z : Z) : list byte :=
  [byte_of_Z (Z.shiftr z 8); byte_of_Z z].

Definition be32 (z : Z) : list byte :=
  [byte_of_Z (Z.shiftr z 24); byte_of_Z (Z.shiftr z 16);
   byte_of_Z (Z.shiftr z 8); byte_of_Z z].

(** A firmware file: header fields in network byte order, then payload. *)
Definition sample_image (tag : list byte) (vid p version : Z)
    (digest payload : list byte) : list byte :=
  tag ++ be16 vid ++ be16 p ++ be32 version
      ++ be32 (Z.of_nat (length payload)) ++ digest ++ payload.

Definition sample_payload : list byte := [x01; x02; x03; x04].

Definition sample_header (p version : Z) : scarlett2_firmware_header :=
  {| magic := sample_magic; usb_vid := VENDOR_VID; usb_pid := p;
     firmware_version := version; firmware_length := 4;
     sha256 := sample_digest sample_payload |}.

(** The file whose header is [sample_header p version]. *)
Definition sample_file (p version : Z) : list byte :=
  sample_image sample_magic VENDOR_VID p version
    (sample_digest sample_payload) sample_payload.

(** A header with version 0 and length 0, and no payload. *)
Definition zero_file : list byte :=
  sample_image sample_magic VENDOR_VID 0x8211 0 (sample_digest []) [].

(** An empty payload under a hash that is not its digest. *)
Definition corrupt_empty_file : list byte :=
  sample_image sample_magic VENDOR_VID 0x8211 1605 (sample_digest [x01]) [].

Definition sample_found (path : string) (p version : Z) : found_firmware :=
  {| fn := path; firmware := sample_header p version |}.

Definition sample_card (p running : Z) : sound_card :=
  {| card_num := 1; card_name := "card1"; alsa_name := "hw:1";
     card_pid := p; product_name := "Scarlett 3rd Gen Solo";
     card_firmware_version := running |}.

Definition good_path : string :=
  "/usr/lib/firmware/scarlett2/scarlett2-1235-8211-1605.bin".

Definition broken_path : string := "/usr/lib/firmware/scarlett2/broken.bin".

(** The system firmware directory with an empty file and the firmware
    1605 of the Scarlett 3rd Gen Solo. *)
Definition sample_fs : filesystem :=
  {| opendir := fun d =>
       if (d =? SYSTEM_FIRMWARE_DIR)%string
       then Dir_entries ["broken.bin"; "scarlett2-1235-8211-1605.bin"]%string
       else Dir_ENOENT;
     fopen := fun path =>
       if (path =? good_path)%string then Some (sample_file 0x8211 1605)
       else if (path =? broken_path)%string then Some []
       else None |}.

(** The same paths after the firmware file was replaced by one of the
    Scarlett 3rd Gen 2i2. *)
Definition replaced_fs : filesystem :=
  {| opendir := opendir sample_fs;
     fopen := fun path =>
       if (path =? good_path)%string then Some (sample_file 0x8210 1605)
       else fopen sample_fs path |}.

(** A card that accepts every command, reports each erase as done at the
    second poll and takes the payload in one write. *)
Definition sample_script : card_script :=
  {| open_card_ret := 0;
     get_protocol_version_ret := 0x10000;
     erase_config_ret := 0;
     erase_firmware_ret := 0;
     reboot_ret := 0;
     get_erase_progress_rets := [50; 255; 50; 255];
     hwdep_write_rets := [4] |}.

Definition sample_env (load : filesystem) : environment :=
  {| found_cards := [sample_card 0x8211 1535];
     firmware_exec_dir := Some "/usr/local/bin/firmware"%string;
     scan_fs := sample_fs;
     load_fs := load;
     card := sample_script |}.

Definition sample_update : arguments :=
  {| command := Some "update"%string;
     selected_card_num := -1;
     selected_firmware_version := 0 |}.

Definition exec_firmware_dir : string := "/usr/local/bin/firmware".

Definition exec_path : string :=
  "/usr/local/bin/firmware/scarlett2-1235-8211-1605.bin".

(** The firmware 1605 of the Scarlett 3rd Gen Solo in the directory of
    the executable as well as in the system directory. *)
Definition both_fs : filesystem :=
  {| opendir := fun d =>
       if (d =? exec_firmware_dir)%string
       then Dir_entries ["scarlett2-1235-8211-1605.bin"]%string
       else opendir sample_fs d;
     fopen := fun path =>
       if (path =? exec_path)%string then Some (sample_file 0x8211 1605)
       else fopen sample_fs path |}.

(** A stand-in for [strtol] on strings that start with digits of the
    base: no white space, no sign, no prefix, no overflow. *)
Definition digit_value (c : ascii) : option Z :=
  let n := Z.of_nat (nat_of_ascii c) in
  if (48 <=? n) && (n <=? 57) then Some (n - 48)
  else if (97 <=? n) && (n <=? 102) then Some (n - 87)
  else if (65 <=? n) && (n <=? 70) then Some (n - 55)
  else None.

Fixpoint sample_digits (s : string) (base acc : Z) : Z * string :=
  match s with
  | EmptyString => (acc, s)
  | String c s' =>
      match digit_value c with
      | Some d =>
          if d <? base then sample_digits s' base (acc * base + d)
          else (acc, s)
      | None => (acc, s)
      end
  end.

Definition sample_strtol (nptr : string) (base : Z) : Z * string * bool :=
  (sample_digits nptr base 0, false).

(** A system with the cards 0 and 1; card 1 is a Scarlett 3rd Gen Solo
    that runs the firmware 1535. *)
Definition sample_alsa : alsa :=
  {| snd_card_next_rets := [(0, 0); (0, 1); (0, -1)];
     usbid_file := fun path =>
       if (path =? "/proc/asound/card1/usbid")%string
       then Some (list_byte_of_string "1235:8211" ++ [x0a])
       else None;
     get_firmware_version := fun _ => 1535 |}.


(** * Properties *)

Set Default Proof Using "Type".

(** ** Bytes and comparisons *)

Lemma byte_val_range (b : byte) : 0 <= byte_val b < 256.
Proof.
  unfold byte_val. pose proof (Byte.to_N_bounded b). lia.
Qed.

Lemma byte_val_inj (a b : byte) : byte_val a = byte_val b -> a = b.
Proof.
  unfold byte_val. intros H. apply N2Z.inj in H.
  pose proof (Byte.of_to_N a) as Ha. pose proof (Byte.of_to_N b) as Hb.
  rewrite H in Ha. congruence.
Qed.

Lemma byte_val_NUL (b : byte) : byte_val b = 0 -> b = NUL.
Proof. intros H. apply byte_val_inj. exact H. Qed.

(** Network byte order: [ntohs] and [ntohl] of the overlaid bytes give the
    big-endian reading of the bytes of the file. *)

Lemma lor_shiftl_add (hi lo k : Z) :
  0 <= k -> 0 <= lo < 2 ^ k -> Z.lor (Z.shiftl hi k) lo = hi * 2 ^ k + lo.
Proof.
  intros Hk Hlo.
  assert (L : Z.land (Z.shiftl hi k) lo = 0).
  { apply Z.bits_inj'. intros n Hn.
    rewrite Z.land_spec, Z.bits_0, Z.shiftl_spec by lia.
    destruct (Z.lt_ge_cases n k) as [Hlt | Hge].
    - rewrite (Z.testbit_neg_r hi) by lia. reflexivity.
    - assert (T : Z.testbit lo n = false).
      { rewrite <- (Z.mod_small lo (2 ^ k)) by exact Hlo.
        apply Z.mod_pow2_bits_high. lia. }
      rewrite T. apply andb_false_r. }
  pose proof (Z.add_lor_land (Z.shiftl hi k) lo) as H.
  rewrite L in H. rewrite Z.shiftl_mul_pow2 in * by lia. lia.
Qed.

Lemma land_255 (x : Z) : Z.land x 255 = x mod 256.
Proof. change 255 with (Z.ones 8). rewrite Z.land_ones by lia. reflexivity. Qed.

Lemma load16_value (b0 b1 : byte) :
  load16 b0 b1 = byte_val b1 * 256 + byte_val b0.
Proof.
  unfold load16. rewrite Z.lor_comm.
  pose proof (byte_val_range b0).
  rewrite lor_shiftl_add by lia. reflexivity.
Qed.

Lemma ntohs_load16 (b0 b1 : byte) :
  ntohs (load16 b0 b1) = byte_val b0 * 256 + byte_val b1.
Proof.
  pose proof (byte_val_range b0) as H0. pose proof (byte_val_range b1) as H1.
  unfold ntohs. rewrite load16_value, !land_255, Z.shiftr_div_pow2 by lia.
  change (2 ^ 8) with 256.
  rewrite Z.add_comm, Z.mod_add by lia. rewrite (Z.mod_small (byte_val b0)) by lia.
  rewrite (Z.add_comm (byte_val b0)), Z.div_add_l by lia.
  rewrite (Z.div_small (byte_val b0)) by lia. rewrite Z.add_0_r.
  rewrite (Z.mod_small (byte_val b1)) by lia.
  rewrite lor_shiftl_add by lia. reflexivity.
Qed.

Ltac pows :=
  change (2 ^ 8) with 256 in *; change (2 ^ 16) with 65536 in *;
  change (2 ^ 24) with 16777216 in *.

Lemma load32_value (b0 b1 b2 b3 : byte) :
  load32 b0 b1 b2 b3
  = byte_val b3 * 2 ^ 24 + byte_val b2 * 2 ^ 16 + byte_val b1 * 2 ^ 8 + byte_val b0.
Proof.
  pose proof (byte_val_range b0). pose proof (byte_val_range b1).
  pose proof (byte_val_range b2). pose proof (byte_val_range b3).
  unfold load32.
  rewrite (Z.lor_comm (byte_val b0)), (lor_shiftl_add (byte_val b1)) by (pows; lia).
  replace 24 with (8 + 16) by lia.
  rewrite <- (Z.shiftl_shiftl (byte_val b3) 8 16) by lia.
  rewrite <- Z.shiftl_lor.
  rewrite (Z.lor_comm (byte_val b2)), (lor_shiftl_add (byte_val b3)) by (pows; lia).
  rewrite Z.lor_comm, lor_shiftl_add by (pows; lia).
  change (8 + 16) with 24. pows. lia.
Qed.

Lemma ntohl_load32 (b0 b1 b2 b3 : byte) :
  ntohl (load32 b0 b1 b2 b3)
  = byte_val b0 * 2 ^ 24 + byte_val b1 * 2 ^ 16 + byte_val b2 * 2 ^ 8 + byte_val b3.
Proof.
  pose proof (byte_val_range b0) as H0. pose proof (byte_val_range b1) as H1.
  pose proof (byte_val_range b2) as H2. pose proof (byte_val_range b3) as H3.
  unfold ntohl. rewrite load32_value, !land_255, !Z.shiftr_div_pow2 by lia.
  set (a := byte_val b0) in *. set (b := byte_val b1) in *.
  set (c := byte_val b2) in *. set (d := byte_val b3) in *.
  pows.
  assert (E0 : (d * 16777216 + c * 65536 + b * 256 + a) mod 256 = a).
  { replace (d * 16777216 + c * 65536 + b * 256 + a)
      with (a + (d * 65536 + c * 256 + b) * 256) by lia.
    rewrite Z.mod_add by lia. apply Z.mod_small. lia. }
  assert (E1 : ((d * 16777216 + c * 65536 + b * 256 + a) / 256) mod 256 = b).
  { replace (d * 16777216 + c * 65536 + b * 256 + a)
      with (a + (b + (d * 256 + c) * 256) * 256) by lia.
    rewrite Z.div_add by lia. rewrite (Z.div_small a) by lia.
    rewrite Z.add_0_l, Z.mod_add by lia. apply Z.mod_small. lia. }
  assert (E2 : ((d * 16777216 + c * 65536 + b * 256 + a) / 65536) mod 256 = c).
  { replace (d * 16777216 + c * 65536 + b * 256 + a)
      with ((b * 256 + a) + (c + d * 256) * 65536) by lia.
    rewrite Z.div_add by lia. rewrite (Z.div_small (b * 256 + a)) by lia.
    rewrite Z.add_0_l, Z.mod_add by lia. apply Z.mod_small. lia. }
  assert (E3 : ((d * 16777216 + c * 65536 + b * 256 + a) / 16777216) mod 256 = d).
  { replace (d * 16777216 + c * 65536 + b * 256 + a)
      with ((c * 65536 + b * 256 + a) + d * 16777216) by lia.
    rewrite Z.div_add by lia.
    rewrite (Z.div_small (c * 65536 + b * 256 + a)) by lia.
    rewrite Z.add_0_l. apply Z.mod_small. lia. }
  rewrite E0, E1, E2, E3.
  rewrite (lor_shiftl_add c) by (pows; lia).
  replace 24 with (8 + 16) by lia.
  rewrite <- (Z.shiftl_shiftl a 8 16) by lia.
  rewrite <- Z.shiftl_lor.
  rewrite (lor_shiftl_add a) by (pows; lia).
  rewrite lor_shiftl_add by (pows; lia).
  pows. lia.
Qed.

Lemma strncmp_zero_iff (n : nat) : forall s1 s2,
  length s1 = n -> length s2 = n ->
  (forall b, In b s2 -> b <> NUL) ->
  strncmp s1 s2 n = 0 <-> s1 = s2.
Proof.
  induction n as [|n IH]; intros s1 s2 L1 L2 Hnul.
  - destruct s1, s2; try discriminate. simpl. split; reflexivity.
  - destruct s1 as [|a s1], s2 as [|b s2]; try discriminate.
    simpl in L1, L2. simpl.
    destruct (byte_val a =? byte_val b) eqn:E; simpl.
    + apply Z.eqb_eq in E. apply byte_val_inj in E. subst b.
      destruct (byte_val a =? 0) eqn:E0.
      * apply Z.eqb_eq in E0. apply byte_val_NUL in E0.
        exfalso. apply (Hnul a); [left; reflexivity | exact E0].
      * rewrite IH; [| lia | lia | intros c Hc; apply Hnul; right; exact Hc].
        split; [intros ->; reflexivity | intros H; injection H; auto].
    + apply Z.eqb_neq in E. split.
      * intros H. lia.
      * intros H. injection H. intros _ ->. congruence.
Qed.

Lemma memcmp_zero_iff (n : nat) : forall b1 b2,
  length b1 = n -> length b2 = n ->
  memcmp b1 b2 n = 0 <-> b1 = b2.
Proof.
  induction n as [|n IH]; intros b1 b2 L1 L2.
  - destruct b1, b2; try discriminate. simpl. split; reflexivity.
  - destruct b1 as [|a b1], b2 as [|b b2]; try discriminate.
    simpl in L1, L2. simpl.
    destruct (byte_val a =? byte_val b) eqn:E; simpl.
    + apply Z.eqb_eq in E. apply byte_val_inj in E. subst b.
      rewrite IH by lia.
      split; [intros ->; reflexivity | intros H; injection H; auto].
    + apply Z.eqb_neq in E. split.
      * intros H. lia.
      * intros H. injection H. intros _ ->. congruence.
Qed.

(** ** The codec *)

Lemma read_header_ok_inv (file : list byte) h rest :
  read_header file = Ok (h, rest) ->
  (HEADER_SIZE <= length file)%nat
  /\ strncmp (firstn 8 file) MAGIC_STRING 8 = 0
  /\ rest = skipn HEADER_SIZE file
  /\ length (sha256 h) = SHA256_DIGEST_LENGTH.
Proof.
  unfold read_header. intros H.
  destruct (length file <? HEADER_SIZE)%nat eqn:EL; [discriminate|].
  apply Nat.ltb_ge in EL.
  destruct (strncmp _ MAGIC_STRING 8 =? 0) eqn:EM; simpl in H; [|discriminate].
  apply Z.eqb_eq in EM. injection H as <- <-.
  change (magic (overlay_header (firstn HEADER_SIZE file)))
    with (firstn 8 (firstn HEADER_SIZE file)) in EM.
  rewrite firstn_firstn in EM. change (Nat.min 8 HEADER_SIZE) with 8%nat in EM.
  split; [exact EL|]. split; [exact EM|]. split; [reflexivity|].
  change (length (firstn SHA256_DIGEST_LENGTH
                    (skipn 20 (firstn HEADER_SIZE file)))
          = SHA256_DIGEST_LENGTH).
  rewrite length_firstn, length_skipn, length_firstn.
  unfold SHA256_DIGEST_LENGTH, HEADER_SIZE in *. lia.
Qed.

Lemma read_header_fields (file : list byte) h rest :
  read_header file = Ok (h, rest) ->
  let b i := byte_val (nth i file NUL) in
  magic h = firstn 8 file
  /\ usb_vid h = b 8%nat * 256 + b 9%nat
  /\ usb_pid h = b 10%nat * 256 + b 11%nat
  /\ firmware_version h
     = b 12%nat * 2 ^ 24 + b 13%nat * 2 ^ 16 + b 14%nat * 2 ^ 8 + b 15%nat
  /\ firmware_length h
     = b 16%nat * 2 ^ 24 + b 17%nat * 2 ^ 16 + b 18%nat * 2 ^ 8 + b 19%nat
  /\ sha256 h = firstn SHA256_DIGEST_LENGTH (skipn 20 file).
Proof.
  intros H b. unfold read_header in H.
  destruct (length file <? HEADER_SIZE)%nat eqn:EL; [discriminate|].
  apply Nat.ltb_ge in EL.
  destruct (negb _); [discriminate|].
  apply (f_equal (fun r => match r with Ok p => fst p | Err _ => h end)) in H.
  lazy beta iota delta [fst] in H. subst h.
  assert (N : forall i, (i < HEADER_SIZE)%nat ->
                nth i (firstn HEADER_SIZE file) NUL = nth i file NUL).
  { intros i Hi. rewrite nth_firstn.
    apply Nat.ltb_lt in Hi. rewrite Hi. reflexivity. }
  lazy beta iota zeta delta [overlay_header magic usb_vid usb_pid
                               firmware_version firmware_length sha256].
  rewrite !ntohs_load16, !ntohl_load32.
  rewrite !N by (unfold HEADER_SIZE; lia).
  rewrite firstn_firstn. change (Nat.min 8 HEADER_SIZE) with 8%nat.
  repeat split.
  rewrite <- (firstn_skipn HEADER_SIZE file) at 2.
  rewrite skipn_app, firstn_app.
  rewrite length_firstn, length_skipn, length_firstn.
  replace (20 - Nat.min HEADER_SIZE (length file))%nat with 0%nat
    by (unfold HEADER_SIZE in *; lia).
  replace (SHA256_DIGEST_LENGTH - (Nat.min HEADER_SIZE (length file) - 20))%nat
    with 0%nat by (unfold HEADER_SIZE, SHA256_DIGEST_LENGTH in *; lia).
  simpl. rewrite app_nil_r. reflexivity.
Qed.

Lemma read_header_ranges (file : list byte) h rest :
  read_header file = Ok (h, rest) ->
  0 <= usb_vid h < 2 ^ 16 /\ 0 <= usb_pid h < 2 ^ 16
  /\ 0 <= firmware_version h < 2 ^ 32 /\ 0 <= firmware_length h < 2 ^ 32.
Proof.
  intros H. destruct (read_header_fields _ H) as (_ & -> & -> & -> & -> & _).
  repeat match goal with
         | |- context [byte_val ?x] =>
             let R := fresh "R" in
             pose proof (byte_val_range x) as R;
             let v := fresh "v" in
             set (v := byte_val x) in *; clearbody v
         end.
  change (2 ^ 8) with 256. change (2 ^ 16) with 65536.
  change (2 ^ 24) with 16777216. change (2 ^ 32) with 4294967296.
  lia.
Qed.

Section MagicString.

(** The magic string is a tag of 8 characters. *)
Hypothesis MAGIC_STRING_length : length MAGIC_STRING = 8%nat.
Hypothesis MAGIC_STRING_no_NUL : forall b, In b MAGIC_STRING -> b <> NUL.

(** C2, as the code has it: a header is accepted exactly when the file
    holds the 52 header bytes and its first 8 bytes are the magic string.
    The version and the length are not examined, so a version of 0 or a
    length of 0 does not make the parse fail. *)
Theorem read_header_accepts_iff (file : list byte) :
  is_ok (scarlett2_read_firmware_header (Some file)) = true
  <-> (HEADER_SIZE <= length file)%nat /\ firstn 8 file = MAGIC_STRING.
Proof using MAGIC_STRING_length MAGIC_STRING_no_NUL.
  unfold scarlett2_read_firmware_header, read_header.
  destruct (length file <? HEADER_SIZE)%nat eqn:EL.
  - apply Nat.ltb_lt in EL. simpl. split; [discriminate | lia].
  - apply Nat.ltb_ge in EL.
    change (magic (overlay_header (firstn HEADER_SIZE file)))
      with (firstn 8 (firstn HEADER_SIZE file)).
    rewrite firstn_firstn. change (Nat.min 8 HEADER_SIZE) with 8%nat.
    assert (L8 : length (firstn 8 file) = 8%nat).
    { rewrite length_firstn. unfold HEADER_SIZE in EL. lia. }
    pose proof (strncmp_zero_iff (firstn 8 file) MAGIC_STRING L8
                  MAGIC_STRING_length MAGIC_STRING_no_NUL) as Hs.
    destruct (strncmp (firstn 8 file) MAGIC_STRING 8 =? 0) eqn:EM; simpl.
    + apply Z.eqb_eq in EM. split; [intros _|reflexivity].
      split; [exact EL | apply Hs; exact EM].
    + apply Z.eqb_neq in EM. split; [discriminate|].
      intros [_ Heq]. exfalso. apply EM. apply Hs. exact Heq.
Qed.

End MagicString.

Section Digest.

(** A digest has 32 bytes. *)
Hypothesis SHA256_length :
  forall data, length (SHA256 data) = SHA256_DIGEST_LENGTH.

(** C7: when the header is valid and the digest of the payload differs
    from the header's hash, the full-file parse returns no firmware file,
    and the error is the checksum error whenever the buffer was allocated
    and the payload read in full, also for a payload of zero bytes; a
    firmware file that is returned holds the payload whose digest equals
    the header's hash. *)
Theorem corrupt_payload_rejected (file : list byte) h rest :
  read_header file = Ok (h, rest) ->
  let payload := firstn (Z.to_nat (firmware_length h)) rest in
  (SHA256 payload <> sha256 h ->
     is_ok (scarlett2_read_firmware_file (Some file)) = false
     /\ (malloc_ok (firmware_length h) = true ->
         Z.of_nat (length payload) = firmware_length h ->
         scarlett2_read_firmware_file (Some file) = Err E_corrupt))
  /\ (forall fw, scarlett2_read_firmware_file (Some file) = Ok fw ->
        header fw = h /\ firmware_data fw = payload
        /\ SHA256 (firmware_data fw) = sha256 (header fw)).
Proof using SHA256_length.
  intros Hh payload.
  destruct (read_header_ok_inv _ Hh) as (_ & _ & _ & Lh).
  assert (Hv : verify_sha256 payload (sha256 h) = true
               <-> SHA256 payload = sha256 h).
  { unfold verify_sha256. rewrite Z.eqb_eq.
    apply memcmp_zero_iff; [apply SHA256_length | exact Lh]. }
  unfold scarlett2_read_firmware_file. rewrite Hh. fold payload.
  split.
  - intros Hne.
    assert (Hf : verify_sha256 payload (sha256 h) = false).
    { destruct (verify_sha256 payload (sha256 h)); [|reflexivity].
      exfalso. apply Hne. apply Hv. reflexivity. }
    rewrite Hf. split.
    + destruct (malloc_ok (firmware_length h)); simpl; [|reflexivity].
      destruct (Z.of_nat (length payload) =? firmware_length h); reflexivity.
    + intros Hm Hl. rewrite Hm. simpl.
      apply Z.eqb_eq in Hl. rewrite Hl. reflexivity.
  - intros fw.
    destruct (malloc_ok (firmware_length h)); simpl; [|discriminate].
    destruct (Z.of_nat (length payload) =? firmware_length h); simpl;
      [|discriminate].
    destruct (verify_sha256 payload (sha256 h)) eqn:E; simpl; [|discriminate].
    intros H. injection H as <-. simpl.
    repeat split. apply Hv. reflexivity.
Qed.

Lemma read_firmware_file_verified (opened : option (list byte)) fw :
  scarlett2_read_firmware_file opened = Ok fw ->
  SHA256 (firmware_data fw) = sha256 (header fw)
  /\ Z.of_nat (length (firmware_data fw)) = firmware_length (header fw).
Proof using SHA256_length.
  unfold scarlett2_read_firmware_file.
  destruct opened as [file|]; [|discriminate].
  destruct (read_header file) as [[h rest]|e] eqn:Hh; [|discriminate].
  destruct (read_header_ok_inv _ Hh) as (_ & _ & _ & Lh).
  destruct (negb (malloc_ok _)); [discriminate|].
  destruct (_ =? firmware_length h) eqn:El; simpl; [|discriminate].
  destruct (verify_sha256 _ _) eqn:Ev; simpl; [|discriminate].
  intros [= <-]. simpl. split.
  - unfold verify_sha256 in Ev. apply Z.eqb_eq in Ev.
    apply memcmp_zero_iff in Ev; [exact Ev | apply SHA256_length | exact Lh].
  - apply Z.eqb_eq. exact El.
Qed.

End Digest.

(** ** The catalog: duplicates *)

Lemma same_firmware_iff (a b : scarlett2_firmware_header) :
  same_firmware a b = true
  <-> (usb_vid a, usb_pid a, firmware_version a)
      = (usb_vid b, usb_pid b, firmware_version b).
Proof.
  unfold same_firmware. rewrite !andb_true_iff, !Z.eqb_eq. split.
  - intros [[-> ->] ->]. reflexivity.
  - intros H. injection H. auto.
Qed.

Lemma has_triple_iff (found : list found_firmware) fw :
  existsb (fun ff => same_firmware (firmware ff) fw) found = true
  <-> In (usb_vid fw, usb_pid fw, firmware_version fw) (map triple found).
Proof.
  rewrite existsb_exists, in_map_iff. unfold triple.
  split; intros (x & H1 & H2).
  - exists x. split; [apply same_firmware_iff; exact H2 | exact H1].
  - exists x. split; [exact H2 | apply same_firmware_iff; exact H1].
Qed.

Lemma add_found_firmware_cases (found : list found_firmware) fn0 fw :
  (add_found_firmware found fn0 fw = found
   /\ (usb_vid fw <> VENDOR_VID
       \/ existsb (fun ff => same_firmware (firmware ff) fw) found = true))
  \/ (add_found_firmware found fn0 fw
        = found ++ [ {| fn := fn0; firmware := fw |} ]
      /\ usb_vid fw = VENDOR_VID
      /\ existsb (fun ff => same_firmware (firmware ff) fw) found = false).
Proof.
  unfold add_found_firmware.
  destruct (usb_vid fw =? VENDOR_VID) eqn:EV; simpl.
  - apply Z.eqb_eq in EV.
    destruct (existsb _ found) eqn:EX; [left | right]; auto.
  - apply Z.eqb_neq in EV. left. auto.
Qed.

Lemma add_found_firmware_unique (found : list found_firmware) fn0 fw :
  NoDup (map triple found) ->
  NoDup (map triple (add_found_firmware found fn0 fw)).
Proof.
  intros ND.
  destruct (add_found_firmware_cases found fn0 fw)
    as [[-> _] | (-> & _ & EX)]; [exact ND|].
  rewrite map_app. simpl.
  apply NoDup_rev in ND. rewrite <- (rev_involutive (_ ++ _)).
  apply NoDup_rev. rewrite rev_app_distr. simpl. constructor; [|exact ND].
  rewrite <- in_rev. unfold triple at 1. simpl. intros Hin.
  apply has_triple_iff in Hin. congruence.
Qed.

Lemma add_all_unique adds : forall found,
  NoDup (map triple found) -> NoDup (map triple (add_all found adds)).
Proof.
  induction adds as [|a adds IH]; intros found ND; simpl; [exact ND|].
  apply IH. apply add_found_firmware_unique. exact ND.
Qed.

Lemma add_all_first adds : forall found ff,
  In ff (add_all found adds) ->
  In ff found
  \/ (usb_vid (firmware ff) = VENDOR_VID
      /\ existsb (fun x => same_firmware (firmware x) (firmware ff)) found
         = false
      /\ find (fun a => same_firmware (snd a) (firmware ff)) adds
         = Some (fn ff, firmware ff)).
Proof.
  induction adds as [|a adds IH]; intros found ff Hin; simpl in Hin.
  - left. exact Hin.
  - destruct (IH _ _ Hin) as [Hin' | (Hvid & Hno & Hfind)].
    + destruct (add_found_firmware_cases found (fst a) (snd a))
        as [[E _] | (E & V & EX)]; rewrite E in Hin'.
      * left. exact Hin'.
      * apply in_app_or in Hin'. destruct Hin' as [Hf | [<- | []]].
        -- left. exact Hf.
        -- right. simpl. split; [exact V|]. split; [exact EX|].
           assert (R : same_firmware (snd a) (snd a) = true)
             by (apply same_firmware_iff; reflexivity).
           rewrite R. destruct a; reflexivity.
    + right. split; [exact Hvid|]. simpl.
      destruct (add_found_firmware_cases found (fst a) (snd a))
        as [[E HV] | (E & _ & EX)]; rewrite E in Hno.
      * split; [exact Hno|].
        destruct (same_firmware (snd a) (firmware ff)) eqn:ES;
          [exfalso | exact Hfind].
        apply same_firmware_iff in ES.
        destruct HV as [HV | HV].
        -- injection ES as Hv _ _. congruence.
        -- apply has_triple_iff in HV. rewrite ES in HV.
           apply has_triple_iff in HV. congruence.
      * rewrite existsb_app in Hno. apply orb_false_iff in Hno.
        destruct Hno as [Hno1 Hno2]. simpl in Hno2.
        rewrite orb_false_r in Hno2. rewrite Hno2.
        split; [exact Hno1 | exact Hfind].
Qed.

(** C8: a call of [add_found_firmware] for a triple that the catalog
    already holds leaves the catalog as it is; after any sequence of calls
    the catalog holds no two entries with the same triple, and each entry
    is the first one of the sequence with its triple, path included. *)
Theorem first_found_firmware_wins :
  (forall found fn0 fw,
      existsb (fun ff => same_firmware (firmware ff) fw) found = true ->
      add_found_firmware found fn0 fw = found)
  /\ (forall adds, NoDup (map triple (add_all [] adds)))
  /\ (forall adds ff, In ff (add_all [] adds) ->
        find (fun a => same_firmware (snd a) (firmware ff)) adds
        = Some (fn ff, firmware ff)).
Proof.
  split; [|split].
  - intros found fn0 fw EX. unfold add_found_firmware. rewrite EX.
    destruct (usb_vid fw =? VENDOR_VID); reflexivity.
  - intros adds. apply add_all_unique. constructor.
  - intros adds ff Hin.
    destruct (add_all_first adds [] ff Hin) as [[] | (_ & _ & H)]. exact H.
Qed.

Lemma enum_firmware_entries_unique fs dirname entries : forall st,
  NoDup (map triple (fst st)) ->
  NoDup (map triple (fst (enum_firmware_entries fs dirname entries st))).
Proof.
  induction entries as [|d rest IH]; intros st ND; simpl; [exact ND|].
  destruct (has_bin d); simpl; [|apply IH; exact ND].
  destruct (scarlett2_read_firmware_header _) as [fw|e]; apply IH; simpl.
  - apply add_found_firmware_unique. exact ND.
  - exact ND.
Qed.

Lemma enum_firmware_dir_unique fs dirname st :
  NoDup (map triple (fst st)) ->
  NoDup (map triple (fst (enum_firmware_dir fs dirname st))).
Proof.
  intros ND. unfold enum_firmware_dir.
  destruct (opendir fs dirname); simpl; auto.
  apply enum_firmware_entries_unique. exact ND.
Qed.

(** ** The catalog: order *)

Lemma ptr_lt_rank (a b : found_firmware) :
  ptr_lt (table_position a) (table_position b) = true
  <-> (device_rank a < device_rank b)%nat.
Proof.
  unfold device_rank.
  destruct (table_position a) as [i|], (table_position b) as [j|]; simpl.
  - rewrite Nat.ltb_lt. lia.
  - split; [discriminate | lia].
  - split; [lia | reflexivity].
  - split; [discriminate | lia].
Qed.

(** The model of pointers agrees with addresses wherever the table is. *)
Lemma ptr_lt_addr (base : Z) (d1 d2 : device_ptr) :
  0 < base ->
  ptr_lt d1 d2 = (ptr_addr base d1 <? ptr_addr base d2).
Proof.
  intros Hb. destruct d1 as [i|], d2 as [j|]; unfold ptr_lt, ptr_addr.
  - destruct (Nat.ltb_spec i j); symmetry;
      [apply Z.ltb_lt | apply Z.ltb_ge]; lia.
  - symmetry. apply Z.ltb_ge. lia.
  - symmetry. apply Z.ltb_lt. lia.
  - reflexivity.
Qed.

Lemma cmp_le_iff (a b : found_firmware) : cmp_le a b <-> catalog_before a b.
Proof.
  unfold cmp_le, catalog_before, found_firmware_cmp.
  fold (table_position a). fold (table_position b).
  pose proof (ptr_lt_rank a b) as Hab. pose proof (ptr_lt_rank b a) as Hba.
  destruct (ptr_lt (table_position a) (table_position b)).
  - split; [intros _; left; apply Hab; reflexivity | lia].
  - destruct (ptr_lt (table_position b) (table_position a)).
    + assert (device_rank b < device_rank a)%nat by (apply Hba; reflexivity).
      split; [lia | intros [H1 | [H1 _]]; lia].
    + assert (N1 : ~ (device_rank a < device_rank b)%nat)
        by (intros C; apply Hab in C; discriminate).
      assert (N2 : ~ (device_rank b < device_rank a)%nat)
        by (intros C; apply Hba in C; discriminate).
      destruct (Z.ltb_spec (firmware_version (firmware a))
                           (firmware_version (firmware b))).
      * split; [lia | intros [H2 | [_ H2]]; lia].
      * destruct (firmware_version (firmware a)
                  >? firmware_version (firmware b));
          (split; [intros _; right; split; lia | lia]).
Qed.

Lemma catalog_before_trans (a b c : found_firmware) :
  catalog_before a b -> catalog_before b c -> catalog_before a c.
Proof. unfold catalog_before. intros [H1 | [H1 V1]] [H2 | [H2 V2]]; lia. Qed.

Lemma catalog_before_total (a b : found_firmware) :
  catalog_before a b \/ catalog_before b a.
Proof. unfold catalog_before. lia. Qed.

Lemma sorted_strongly (l : list found_firmware) :
  Sorted cmp_le l -> StronglySorted catalog_before l.
Proof.
  intros H.
  assert (S : Sorted catalog_before l).
  { induction H as [|a l HS IH HR]; constructor; auto.
    destruct HR; constructor. apply cmp_le_iff. assumption. }
  apply Sorted_StronglySorted; [|exact S].
  intros x y z. apply catalog_before_trans.
Qed.

Lemma strongly_sorted_nth (R : found_firmware -> found_firmware -> Prop)
    (l : list found_firmware) :
  StronglySorted R l ->
  forall i j a b, (i < j)%nat ->
    nth_error l i = Some a -> nth_error l j = Some b -> R a b.
Proof.
  induction 1 as [|x l HS IH HF]; intros i j a b Hij Ha Hb.
  - destruct i; discriminate.
  - destruct j as [|j]; [lia|]. simpl in Hb.
    destruct i as [|i]; simpl in Ha.
    + injection Ha as <-. rewrite Forall_forall in HF. apply HF.
      eapply nth_error_In. exact Hb.
    + apply (IH i j); auto. lia.
Qed.

(** C3, as the code has it: the sorted catalog is a rearrangement of the
    entries in which the entries of products that are not in the table
    come before all the others, the others follow in the order of the
    table, and entries at the same place (one product of the table, or
    all unknown products together) have their versions in descending
    order. Nothing is promised about entries that compare equal. *)
Theorem catalog_order_after_qsort (found sorted : list found_firmware) :
  qsort_result found sorted ->
  Permutation found sorted
  /\ forall i j a b, (i < j)%nat ->
       nth_error sorted i = Some a -> nth_error sorted j = Some b ->
       (table_position b = None -> table_position a = None)
       /\ (forall pa pb, table_position a = Some pa ->
              table_position b = Some pb -> (pa <= pb)%nat)
       /\ (table_position a = table_position b ->
           firmware_version (firmware a) >= firmware_version (firmware b)).
Proof.
  intros [HP HS]. split; [exact HP|].
  intros i j a b Hij Ha Hb.
  pose proof (strongly_sorted_nth (sorted_strongly HS) Hij Ha Hb) as H.
  unfold catalog_before, device_rank in H.
  destruct (table_position a) as [pa|], (table_position b) as [pb|].
  - split; [discriminate|]. split.
    + intros ? ? [= <-] [= <-]. lia.
    + intros [= ->]. lia.
  - split; [lia|]. split; [discriminate|discriminate].
  - split; [discriminate|]. split; [discriminate|discriminate].
  - split; [reflexivity|]. split; [discriminate|]. intros _. lia.
Qed.

(** ** The selector *)

Lemma find_first (A : Type) (f : A -> bool) (l1 : list A) x l2 :
  f x = true -> (forall y, In y l1 -> f y = false) ->
  find f (l1 ++ x :: l2) = Some x.
Proof.
  intros Hx. induction l1 as [|y l1 IH]; intros Hl; simpl.
  - rewrite Hx. reflexivity.
  - rewrite (Hl y) by (left; reflexivity).
    apply IH. intros z Hz. apply Hl. right. exact Hz.
Qed.

Lemma find_none (A : Type) (f : A -> bool) (l : list A) :
  (forall y, In y l -> f y = false) -> find f l = None.
Proof.
  induction l as [|y l IH]; intros Hl; simpl; [reflexivity|].
  rewrite (Hl y) by (left; reflexivity).
  apply IH. intros z Hz. apply Hl. right. exact Hz.
Qed.

Lemma find_exists (A : Type) (f : A -> bool) (l : list A) x :
  In x l -> f x = true -> exists y, find f l = Some y /\ f y = true.
Proof.
  induction l as [|z l IH]; intros Hin Hx; [destruct Hin|].
  simpl. destruct (f z) eqn:E.
  - exists z. auto.
  - destruct Hin as [-> | Hin]; [congruence|]. apply IH; assumption.
Qed.

Lemma same_pid_same_rank (a b : found_firmware) :
  usb_pid (firmware a) = usb_pid (firmware b) ->
  device_rank a = device_rank b.
Proof. unfold device_rank, table_position. intros ->. reflexivity. Qed.

Lemma to_u32_small (x : Z) : 0 <= x < 2 ^ 32 -> to_u32 x = x.
Proof. intros H. unfold to_u32. apply Z.mod_small. exact H. Qed.

(** In a sorted catalog the first entry of a product is its newest. *)
Lemma first_of_product_is_newest (l1 : list found_firmware) ff l2 :
  Sorted cmp_le (l1 ++ ff :: l2) ->
  (forall x, In x l1 -> usb_pid (firmware x) <> usb_pid (firmware ff)) ->
  forall x, In x (l1 ++ ff :: l2) ->
    usb_pid (firmware x) = usb_pid (firmware ff) ->
    firmware_version (firmware x) <= firmware_version (firmware ff).
Proof.
  intros HS Hl1 x Hin Hp.
  apply in_app_or in Hin. destruct Hin as [Hin | [<- | Hin]].
  - exfalso. apply (Hl1 x Hin Hp).
  - lia.
  - apply sorted_strongly in HS.
    assert (HS2 : StronglySorted catalog_before (ff :: l2)).
    { clear - HS. induction l1 as [|y l1 IH]; simpl in HS; [exact HS|].
      apply IH. inversion HS; assumption. }
    inversion HS2 as [|? ? _ HF]; subst.
    rewrite Forall_forall in HF. specialize (HF x Hin).
    pose proof (same_pid_same_rank x ff Hp).
    unfold catalog_before in HF. lia.
Qed.

(** C5: without a requested version, the candidate is the first entry of
    the catalog with the PID of the card, which in a sorted catalog is the
    newest of that product; without such an entry the result is "no
    firmware available", when the running version is at least the
    candidate's the result is "already up to date", and when it is below
    the candidate's the candidate is selected. *)
Theorem latest_firmware_selection (fs : filesystem)
    (found : list found_firmware) (selected_card : sound_card) :
  ((forall x, In x found ->
       usb_pid (firmware x) <> card_pid selected_card) ->
   check_firmware_selection fs found selected_card 0
   = Err F_no_firmware_available)
  /\ (forall l1 ff l2,
        found = l1 ++ ff :: l2 ->
        usb_pid (firmware ff) = card_pid selected_card ->
        (forall x, In x l1 ->
            usb_pid (firmware x) <> card_pid selected_card) ->
        get_latest_firmware found (card_pid selected_card) = Some ff
        /\ (Sorted cmp_le found ->
            forall x, In x found ->
              usb_pid (firmware x) = card_pid selected_card ->
              firmware_version (firmware x) <= firmware_version (firmware ff))
        /\ (0 <= firmware_version (firmware ff) ->
            card_firmware_version selected_card < 2 ^ 31 ->
            card_firmware_version selected_card
            >= firmware_version (firmware ff) ->
            check_firmware_selection fs found selected_card 0
            = Err (F_already_up_to_date
                     (card_firmware_version selected_card)))
        /\ (0 <= card_firmware_version selected_card
                 < firmware_version (firmware ff) ->
            card_firmware_version selected_card < 2 ^ 31 ->
            select_found_firmware found selected_card 0 = Ok ff)).
Proof.
  split.
  - intros Hno. unfold check_firmware_selection, select_found_firmware.
    simpl. unfold get_latest_firmware. rewrite find_none; [reflexivity|].
    intros y Hy. apply Z.eqb_neq. apply Hno. exact Hy.
  - intros l1 ff l2 -> Hp Hl1.
    assert (HF : get_latest_firmware (l1 ++ ff :: l2) (card_pid selected_card)
                 = Some ff).
    { unfold get_latest_firmware. apply find_first.
      - apply Z.eqb_eq. exact Hp.
      - intros y Hy. apply Z.eqb_neq. apply Hl1. exact Hy. }
    split; [exact HF|]. split; [|split].
    + intros HS x Hin Hx. apply (first_of_product_is_newest l1 ff l2 HS).
      * intros y Hy. rewrite Hp. apply Hl1. exact Hy.
      * exact Hin.
      * rewrite Hp. exact Hx.
    + intros H0 H31 Hge.
      unfold check_firmware_selection, select_found_firmware. simpl.
      rewrite HF. rewrite to_u32_small by lia.
      assert (E : (card_firmware_version selected_card
                   >=? firmware_version (firmware ff)) = true).
      { rewrite Z.geb_leb. apply Z.leb_le. lia. }
      rewrite E. reflexivity.
    + intros Hlt H31. unfold select_found_firmware. simpl.
      rewrite HF. rewrite to_u32_small by lia.
      assert (E : (card_firmware_version selected_card
                   >=? firmware_version (firmware ff)) = false).
      { rewrite Z.geb_leb. apply Z.leb_gt. lia. }
      rewrite E. reflexivity.
Qed.

(** ** The erase monitor *)

Lemma monitor_loop_cons (p : Z) (polls : list Z) i last progress :
  monitor_loop (p :: polls) i last progress
  = if i <? 10 then
      if p <? 0 then (Mon_error p, polls)
      else if p =? 255 then (monitor_after_loop p, polls)
      else if p >? last then monitor_loop polls (0 + 1) p p
      else if p <? last then (Mon_went_backwards last p, polls)
      else monitor_loop polls (i + 1) last p
    else (monitor_after_loop progress, p :: polls).
Proof. reflexivity. Qed.

Lemma monitor_loop_starved_inv (q : Z) (pre : list Z) i last progress :
  monitor_loop (q :: pre) i last progress = (Mon_starved, []) ->
  i < 10 /\ 0 <= q /\ q <> 255 /\ last <= q
  /\ monitor_loop pre (if q >? last then 1 else i + 1) (Z.max last q) q
     = (Mon_starved, []).
Proof.
  simpl. destruct (i <? 10) eqn:Ei.
  2:{ unfold monitor_after_loop. destruct (negb _); discriminate. }
  apply Z.ltb_lt in Ei.
  destruct (q <? 0) eqn:E0; [discriminate|]. apply Z.ltb_ge in E0.
  destruct (q =? 255) eqn:E255.
  { unfold monitor_after_loop. destruct (negb _); discriminate. }
  apply Z.eqb_neq in E255.
  destruct (q >? last) eqn:Eg.
  - rewrite Z.gtb_ltb in Eg. apply Z.ltb_lt in Eg.
    intros H. rewrite Z.max_r by lia. repeat split; try lia. exact H.
  - rewrite Z.gtb_ltb in Eg. apply Z.ltb_ge in Eg.
    destruct (q <? last) eqn:El; [discriminate|]. apply Z.ltb_ge in El.
    intros H. rewrite Z.max_l by lia. repeat split; try lia. exact H.
Qed.



Lemma monitor_loop_stalls (n : nat) : forall i p rest,
  0 <= p -> p <> 255 -> 0 <= i -> i + Z.of_nat n = 10 ->
  monitor_loop (repeat p n ++ rest) i p p = (Mon_timed_out, rest).
Proof.
  induction n as [|n IH]; intros i p rest Hp H255 Hi Hn.
  - assert (i = 10) by lia. subst i.
    assert (E255 : (p =? 255) = false) by (apply Z.eqb_neq; lia).
    destruct rest; simpl; unfold monitor_after_loop; rewrite E255;
      reflexivity.
  - assert (Ei : (i <? 10) = true) by (apply Z.ltb_lt; lia).
    assert (E0 : (p <? 0) = false) by (apply Z.ltb_ge; lia).
    assert (E255 : (p =? 255) = false) by (apply Z.eqb_neq; lia).
    assert (Eg : (p >? p) = false)
      by (rewrite Z.gtb_ltb; apply Z.ltb_irrefl).
    assert (El : (p <? p) = false) by (apply Z.ltb_irrefl).
    simpl repeat. simpl app. rewrite monitor_loop_cons.
    rewrite Ei, E0, E255, Eg, El. apply IH; lia.
Qed.

(** After an advance the loop counter is 1, not 0: nine further reads
    without an advance end the loop. *)
Lemma monitor_nine_stalls_after_advance (p : Z) (rest : list Z) :
  0 < p -> p <> 255 ->
  monitor_polls (p :: repeat p 9 ++ rest) = (Mon_timed_out, rest).
Proof.
  intros Hp H255. unfold monitor_polls.
  assert (E0 : (p <? 0) = false) by (apply Z.ltb_ge; lia).
  assert (E255 : (p =? 255) = false) by (apply Z.eqb_neq; lia).
  assert (Eg0 : (p >? 0) = true) by (rewrite Z.gtb_ltb; apply Z.ltb_lt; lia).
  rewrite monitor_loop_cons. change (0 <? 10) with true. cbv iota.
  rewrite E0, E255, Eg0.
  apply monitor_loop_stalls; lia.
Qed.

(** From the start of the loop ten reads without an advance are needed. *)
Lemma monitor_ten_stalls_at_start (rest : list Z) :
  monitor_polls (repeat 0 10 ++ rest) = (Mon_timed_out, rest)
  /\ monitor_polls (repeat 0 9 ++ 255 :: rest) = (Mon_done, rest).
Proof.
  split; [|reflexivity].
  unfold monitor_polls. apply monitor_loop_stalls; lia.
Qed.


(** ** The write loop *)

Lemma write_loop_exit (rets : list Z) offset len calls printed :
  len <= offset ->
  write_loop rets offset len calls printed
  = {| w_result := Write_done; w_offset := offset; w_calls := calls;
       w_progress := printed; w_rest := rets |}.
Proof.
  intros H. apply Z.ltb_ge in H. destruct rets; simpl; rewrite H; reflexivity.
Qed.

Lemma write_loop_cons (ret : Z) (rets : list Z) offset len calls printed :
  offset < len ->
  write_loop (ret :: rets) offset len calls printed
  = let calls' := calls ++ [(offset, len - offset)] in
    let err := to_i32 ret in
    if err <? 0 then
      {| w_result := Write_failed err; w_offset := offset;
         w_calls := calls'; w_progress := printed; w_rest := rets |}
    else if err =? 0 then
      {| w_result := Write_returned_0 offset len; w_offset := offset;
         w_calls := calls'; w_progress := printed; w_rest := rets |}
    else write_loop rets (offset + err) len calls'
           (printed ++ [to_i32 ((offset + err) * 100 / len)]).
Proof.
  intros H. apply Z.ltb_lt in H. simpl. rewrite H. reflexivity.
Qed.

Lemma to_i32_small (x : Z) : 0 <= x < 2 ^ 31 -> to_i32 x = x.
Proof.
  intros H. unfold to_i32. rewrite Z.mod_small; lia.
Qed.

Lemma percent_range (offset len : Z) :
  0 < len -> 0 <= offset <= len -> 0 <= offset * 100 / len <= 100.
Proof.
  intros Hl Ho. split.
  - apply Z.div_pos; lia.
  - apply Z.div_le_upper_bound; lia.
Qed.

Lemma tl_app_cons (A : Type) (l : list A) (x y : A) :
  tl ((l ++ [x]) ++ [y]) = tl (l ++ [x]) ++ [y].
Proof. destruct l; reflexivity. Qed.

Lemma write_loop_within (len : Z) (rets : list Z) :
  forall offset calls printed,
    0 < len -> 0 <= offset <= len ->
    within_request rets offset len ->
    printed = map (fun o => o * 100 / len) (tl (map fst calls ++ [offset])) ->
    let w := write_loop rets offset len calls printed in
    w_result w = Write_done ->
    w_offset w = len
    /\ w_progress w
       = map (fun o => o * 100 / len) (tl (map fst (w_calls w) ++ [w_offset w])).
Proof.
  induction rets as [|ret rets IH]; intros offset calls printed Hl Ho Hw Hp.
  - simpl. destruct (offset <? len) eqn:E; simpl; [discriminate|].
    apply Z.ltb_ge in E. intros _. split; [lia | exact Hp].
  - destruct (Z.lt_ge_cases offset len) as [Hlt | Hge].
    + rewrite write_loop_cons by exact Hlt. cbv zeta.
      destruct (to_i32 ret <? 0) eqn:E0; [simpl; discriminate|].
      destruct (to_i32 ret =? 0) eqn:E1; [simpl; discriminate|].
      apply Z.ltb_ge in E0. apply Z.eqb_neq in E1.
      simpl in Hw. destruct (Hw Hlt ltac:(lia)) as [Hle Hw'].
      apply IH; auto; try lia.
      rewrite map_app.
      change (map fst [(offset, len - offset)]) with [offset].
      rewrite tl_app_cons, map_app.
      rewrite <- Hp. simpl. f_equal. f_equal.
      apply to_i32_small.
      pose proof (percent_range (offset := offset + to_i32 ret) Hl ltac:(lia)).
      lia.
    + rewrite write_loop_exit by exact Hge. simpl. intros _.
      split; [lia | exact Hp].
Qed.

Lemma write_loop_terminates (len : Z) (rets : list Z) :
  forall offset calls printed,
    Forall (fun r => 0 < to_i32 r) rets ->
    len - offset <= fold_right Z.add 0 (map to_i32 rets) ->
    w_result (write_loop rets offset len calls printed) = Write_done.
Proof.
  induction rets as [|ret rets IH]; intros offset calls printed HF Hn.
  - simpl in Hn. rewrite write_loop_exit by lia. reflexivity.
  - destruct (Z.lt_ge_cases offset len) as [Hlt | Hge].
    + rewrite write_loop_cons by exact Hlt. cbv zeta.
      inversion HF as [|? ? Herr HF']; subst.
      assert (E0 : (to_i32 ret <? 0) = false) by (apply Z.ltb_ge; lia).
      assert (E1 : (to_i32 ret =? 0) = false) by (apply Z.eqb_neq; lia).
      rewrite E0, E1. apply IH; [exact HF'|].
      simpl fold_right in Hn. lia.
    + rewrite write_loop_exit by exact Hge. reflexivity.
Qed.

Lemma offsets_from_hd (errs : list Z) (offset : Z) :
  offsets_from offset errs = offset :: tl (offsets_from offset errs).
Proof. destruct errs; reflexivity. Qed.

Lemma offsets_from_last (errs : list Z) : forall offset,
  last (offsets_from offset errs) 0 = offset + fold_right Z.add 0 errs.
Proof.
  induction errs as [|err errs IH]; intro offset; [simpl; lia|].
  cbn [offsets_from fold_right].
  pose proof (offsets_from_hd errs (offset + err)) as E.
  pose proof (IH (offset + err)) as IH'.
  destruct (offsets_from (offset + err) errs) as [|x l]; [discriminate E|].
  change (last (offset :: x :: l) 0) with (last (x :: l) 0).
  rewrite IH'. lia.
Qed.

(** A run of the loop that ends as done: what it consumed, called and
    printed. *)
Lemma write_loop_run (len : Z) (rets : list Z) :
  forall offset calls printed,
    let w := write_loop rets offset len calls printed in
    w_result w = Write_done ->
    exists consumed new_calls,
      rets = consumed ++ w_rest w
      /\ Forall (fun r => 0 < to_i32 r) consumed
      /\ w_calls w = calls ++ new_calls
      /\ map fst new_calls ++ [w_offset w]
         = offsets_from offset (map to_i32 consumed)
      /\ Forall (fun c => snd c = len - fst c /\ offset <= fst c < len)
                new_calls
      /\ len <= w_offset w
      /\ w_progress w
         = printed ++ map (fun o => to_i32 (o * 100 / len))
                          (tl (offsets_from offset (map to_i32 consumed))).
Proof.
  assert (Exit : forall rets offset calls printed,
    len <= offset ->
    let w := write_loop rets offset len calls printed in
    exists consumed new_calls,
      rets = consumed ++ w_rest w
      /\ Forall (fun r => 0 < to_i32 r) consumed
      /\ w_calls w = calls ++ new_calls
      /\ map fst new_calls ++ [w_offset w]
         = offsets_from offset (map to_i32 consumed)
      /\ Forall (fun c => snd c = len - fst c /\ offset <= fst c < len)
                new_calls
      /\ len <= w_offset w
      /\ w_progress w
         = printed ++ map (fun o => to_i32 (o * 100 / len))
                          (tl (offsets_from offset (map to_i32 consumed)))).
  { intros rs offset calls printed Hge. rewrite write_loop_exit by exact Hge.
    exists [], []. cbn [w_rest w_calls w_offset w_progress app map
                        offsets_from tl].
    split; [reflexivity|]. split; [constructor|].
    split; [symmetry; apply app_nil_r|]. split; [reflexivity|].
    split; [constructor|]. split; [exact Hge|]. symmetry. apply app_nil_r. }
  induction rets as [|ret rets IH]; intros offset calls printed.
  - destruct (Z.lt_ge_cases offset len) as [Hlt | Hge];
      [|cbv zeta; intros _; exact (Exit _ offset calls printed Hge)].
    apply Z.ltb_lt in Hlt. simpl. rewrite Hlt. simpl. discriminate.
  - destruct (Z.lt_ge_cases offset len) as [Hlt | Hge];
      [|cbv zeta; intros _; exact (Exit _ offset calls printed Hge)].
    rewrite write_loop_cons by exact Hlt. cbv zeta.
    destruct (Z.ltb_spec (to_i32 ret) 0) as [|H0]; [simpl; discriminate|].
    destruct (Z.eqb_spec (to_i32 ret) 0) as [|H1]; [simpl; discriminate|].
    intros D.
    destruct (IH (offset + to_i32 ret) (calls ++ [(offset, len - offset)])
                 (printed ++ [to_i32 ((offset + to_i32 ret) * 100 / len)]) D)
      as (consumed & new_calls & Hr & Hpos & Hc & Ho & Hf & Hle & Hp).
    exists (ret :: consumed), ((offset, len - offset) :: new_calls).
    split; [simpl; f_equal; exact Hr|].
    split; [constructor; [lia | exact Hpos]|].
    split; [rewrite Hc, <- app_assoc; reflexivity|].
    split; [cbn [map fst app offsets_from]; f_equal; exact Ho|].
    split; [constructor; [simpl; lia|];
            eapply Forall_impl; [|exact Hf]; cbv beta; intros c Hcc; lia|].
    split; [exact Hle|].
    rewrite Hp, <- app_assoc. f_equal. cbn [map offsets_from tl].
    rewrite (offsets_from_hd (map to_i32 consumed) (offset + to_i32 ret))
      at 2.
    reflexivity.
Qed.

(** A run of the loop that ends with an error: the answers before the
    failing one were positive counts, the failing call is the last one
    made, and nothing was printed for it. *)
Lemma write_loop_aborts (len : Z) (rets : list Z) :
  forall offset calls printed,
    let w := write_loop rets offset len calls printed in
    w_result w <> Write_done -> w_result w <> Write_starved ->
    exists consumed ret new_calls,
      rets = consumed ++ ret :: w_rest w
      /\ Forall (fun r => 0 < to_i32 r) consumed
      /\ to_i32 ret <= 0
      /\ w_result w = (if to_i32 ret <? 0 then Write_failed (to_i32 ret)
                       else Write_returned_0 (w_offset w) len)
      /\ w_offset w < len
      /\ w_offset w = offset + fold_right Z.add 0 (map to_i32 consumed)
      /\ w_calls w = calls ++ new_calls
      /\ map fst new_calls = offsets_from offset (map to_i32 consumed)
      /\ Forall (fun c => snd c = len - fst c) new_calls
      /\ w_progress w
         = printed ++ map (fun o => to_i32 (o * 100 / len))
                          (tl (offsets_from offset (map to_i32 consumed))).
Proof.
  induction rets as [|ret rets IH]; intros offset calls printed.
  - simpl. destruct (offset <? len); simpl; intros H1 H2;
      [destruct (H2 eq_refl)|destruct (H1 eq_refl)].
  - destruct (Z.lt_ge_cases offset len) as [Hlt | Hge].
    2:{ rewrite write_loop_exit by exact Hge. simpl. intros H1 _.
        destruct (H1 eq_refl). }
    rewrite write_loop_cons by exact Hlt. cbv zeta.
    assert (Stop : to_i32 ret <= 0 ->
      forall res,
        res = (if to_i32 ret <? 0 then Write_failed (to_i32 ret)
               else Write_returned_0 offset len) ->
        let w := {| w_result := res; w_offset := offset;
                    w_calls := calls ++ [(offset, len - offset)];
                    w_progress := printed; w_rest := rets |} in
        exists consumed ret0 new_calls,
          ret :: rets = consumed ++ ret0 :: w_rest w
          /\ Forall (fun r => 0 < to_i32 r) consumed
          /\ to_i32 ret0 <= 0
          /\ w_result w = (if to_i32 ret0 <? 0 then Write_failed (to_i32 ret0)
                           else Write_returned_0 (w_offset w) len)
          /\ w_offset w < len
          /\ w_offset w = offset + fold_right Z.add 0 (map to_i32 consumed)
          /\ w_calls w = calls ++ new_calls
          /\ map fst new_calls = offsets_from offset (map to_i32 consumed)
          /\ Forall (fun c => snd c = len - fst c) new_calls
          /\ w_progress w
             = printed ++ map (fun o => to_i32 (o * 100 / len))
                              (tl (offsets_from offset (map to_i32 consumed)))).
    { intros Hle res Hres. exists [], ret, [(offset, len - offset)].
      cbn [w_rest w_calls w_offset w_progress w_result app map
           offsets_from tl fst fold_right].
      split; [reflexivity|]. split; [constructor|]. split; [exact Hle|].
      split; [exact Hres|]. split; [exact Hlt|]. split; [lia|].
      split; [reflexivity|]. split; [reflexivity|].
      split; [constructor; [reflexivity|constructor]|].
      symmetry. apply app_nil_r. }
    destruct (Z.ltb_spec (to_i32 ret) 0) as [Hneg|H0].
    { intros _ _. apply Stop; [lia|reflexivity]. }
    destruct (Z.eqb_spec (to_i32 ret) 0) as [Hz|H1].
    { intros _ _. apply Stop; [lia|reflexivity]. }
    intros D1 D2.
    destruct (IH (offset + to_i32 ret) (calls ++ [(offset, len - offset)])
                 (printed ++ [to_i32 ((offset + to_i32 ret) * 100 / len)])
                 D1 D2)
      as (consumed & ret0 & new_calls & Hr & Hpos & Hle & Hres & Hlt' & Hsum
          & Hc & Ho & Hf & Hp).
    exists (ret :: consumed), ret0, ((offset, len - offset) :: new_calls).
    split; [simpl; f_equal; exact Hr|].
    split; [constructor; [lia | exact Hpos]|].
    split; [exact Hle|]. split; [exact Hres|]. split; [exact Hlt'|].
    split; [cbn [map fold_right]; lia|].
    split; [rewrite Hc, <- app_assoc; reflexivity|].
    split; [cbn [map fst offsets_from]; f_equal; exact Ho|].
    split; [constructor; [reflexivity|exact Hf]|].
    rewrite Hp, <- app_assoc. f_equal. cbn [map offsets_from tl].
    rewrite (offsets_from_hd (map to_i32 consumed) (offset + to_i32 ret))
      at 2.
    reflexivity.
Qed.

(** C9, as the code has it. The result of a write is stored in an [int]:
    a negative or zero [int] ends the run with an error, the offset as it
    was and nothing printed; a positive [int] advances the offset by
    exactly that count and prints the percentage of the new offset; the
    loop is left as done as soon as the offset is not below the length.
    A whole run starts at offset 0 and passes all that remains to each
    call. A run that ends as done has consumed positive counts, made one
    call for each at the offsets they add up to, ended at the sum of the
    counts, which is the length or more, and printed the percentage of
    the offset after each call; it ends with the offset equal to the
    length when no count is above the count that was passed. A run that
    ends with an error has made its last call at an offset below the
    length, after positive counts. Positive counts that add up to the
    length or more end the run as done. *)
Theorem write_loop_chunks (len : Z) :
  (forall ret rets offset calls printed,
      offset < len -> to_i32 ret <= 0 ->
      let w := write_loop (ret :: rets) offset len calls printed in
      w_result w = (if to_i32 ret <? 0 then Write_failed (to_i32 ret)
                    else Write_returned_0 offset len)
      /\ w_offset w = offset /\ w_progress w = printed /\ w_rest w = rets
      /\ w_calls w = calls ++ [(offset, len - offset)])
  /\ (forall ret rets offset calls printed,
        offset < len -> 0 < to_i32 ret ->
        write_loop (ret :: rets) offset len calls printed
        = write_loop rets (offset + to_i32 ret) len
            (calls ++ [(offset, len - offset)])
            (printed ++ [to_i32 ((offset + to_i32 ret) * 100 / len)]))
  /\ (forall rets offset calls printed,
        len <= offset ->
        let w := write_loop rets offset len calls printed in
        w_result w = Write_done /\ w_offset w = offset /\ w_rest w = rets
        /\ w_calls w = calls /\ w_progress w = printed)
  /\ (forall rets,
        0 < len ->
        let w := write_firmware rets len in
        w_result w = Write_done ->
        exists consumed,
          rets = consumed ++ w_rest w
          /\ consumed <> []
          /\ Forall (fun r => 0 < to_i32 r) consumed
          /\ map fst (w_calls w) ++ [w_offset w]
             = offsets_from 0 (map to_i32 consumed)
          /\ Forall (fun c => snd c = len - fst c /\ 0 <= fst c < len)
                    (w_calls w)
          /\ w_offset w = fold_right Z.add 0 (map to_i32 consumed)
          /\ len <= w_offset w
          /\ w_progress w
             = map (fun o => to_i32 (o * 100 / len))
                   (tl (offsets_from 0 (map to_i32 consumed)))
          /\ (within_request rets 0 len ->
              w_offset w = len
              /\ w_progress w
                 = map (fun o => o * 100 / len)
                       (tl (offsets_from 0 (map to_i32 consumed)))))
  /\ (forall rets,
        let w := write_firmware rets len in
        w_result w <> Write_done -> w_result w <> Write_starved ->
        exists consumed ret,
          rets = consumed ++ ret :: w_rest w
          /\ Forall (fun r => 0 < to_i32 r) consumed
          /\ to_i32 ret <= 0
          /\ w_result w = (if to_i32 ret <? 0 then Write_failed (to_i32 ret)
                           else Write_returned_0 (w_offset w) len)
          /\ w_offset w = fold_right Z.add 0 (map to_i32 consumed)
          /\ w_offset w < len
          /\ map fst (w_calls w) = offsets_from 0 (map to_i32 consumed)
          /\ Forall (fun c => snd c = len - fst c) (w_calls w)
          /\ w_progress w
             = map (fun o => to_i32 (o * 100 / len))
                   (tl (offsets_from 0 (map to_i32 consumed))))
  /\ (forall rets,
        Forall (fun r => 0 < to_i32 r) rets ->
        len <= fold_right Z.add 0 (map to_i32 rets) ->
        w_result (write_firmware rets len) = Write_done).
Proof.
  split; [|split; [|split; [|split; [|split]]]].
  - intros ret rets offset calls printed Hlt Herr.
    rewrite write_loop_cons by exact Hlt. cbv zeta.
    destruct (to_i32 ret <? 0) eqn:E0; [simpl; auto 6|].
    apply Z.ltb_ge in E0. assert (E : to_i32 ret = 0) by lia.
    rewrite E. simpl. auto 6.
  - intros ret rets offset calls printed Hlt Herr.
    rewrite write_loop_cons by exact Hlt. cbv zeta.
    assert (E0 : (to_i32 ret <? 0) = false) by (apply Z.ltb_ge; lia).
    assert (E1 : (to_i32 ret =? 0) = false) by (apply Z.eqb_neq; lia).
    rewrite E0, E1. reflexivity.
  - intros rets offset calls printed Hge.
    rewrite write_loop_exit by exact Hge. simpl. auto 6.
  - intros rets Hl w D. subst w. unfold write_firmware in *.
    destruct (write_loop_run len rets 0 [] [] D)
      as (consumed & new_calls & Hr & Hpos & Hc & Ho & Hf & Hle & Hp).
    cbn [app] in Hc, Hp. rewrite <- Hc in Ho, Hf.
    assert (Hsum : w_offset (write_loop rets 0 len [] [])
                   = fold_right Z.add 0 (map to_i32 consumed)).
    { rewrite <- (Z.add_0_l (fold_right Z.add 0 (map to_i32 consumed))).
      rewrite <- offsets_from_last, <- Ho. symmetry. apply last_last. }
    exists consumed.
    split; [exact Hr|].
    split; [intros ->; simpl in Hsum; lia|].
    split; [exact Hpos|]. split; [exact Ho|]. split; [exact Hf|].
    split; [exact Hsum|]. split; [exact Hle|]. split; [exact Hp|].
    intro Hw.
    assert (R0 : 0 <= 0 <= len) by lia.
    destruct (@write_loop_within len rets 0 [] [] Hl R0 Hw eq_refl D)
      as [Ho' Hp'].
    split; [exact Ho'|]. rewrite Hp', Ho. reflexivity.
  - intros rets w D1 D2. subst w. unfold write_firmware in *.
    destruct (write_loop_aborts len rets 0 [] [] D1 D2)
      as (consumed & ret & new_calls & Hr & Hpos & Hle & Hres & Hlt & Hsum
          & Hc & Ho & Hf & Hp).
    cbn [app] in Hc, Hp. rewrite <- Hc in Ho, Hf.
    exists consumed, ret.
    split; [exact Hr|]. split; [exact Hpos|]. split; [exact Hle|].
    split; [exact Hres|]. split; [rewrite Hsum; apply Z.add_0_l|].
    split; [exact Hlt|]. split; [exact Ho|]. split; [exact Hf|exact Hp].
  - intros rets HF Hn. unfold write_firmware.
    apply write_loop_terminates; [exact HF | lia].
Qed.

(** ** main: the update command *)

Lemma check_firmware_selection_ok_inv fs found selected_card version ff fw :
  check_firmware_selection fs found selected_card version = Ok (ff, fw) ->
  select_found_firmware found selected_card version = Ok ff
  /\ scarlett2_read_firmware_file (fopen fs (fn ff)) = Ok fw
  /\ usb_pid (header fw) = card_pid selected_card.
Proof.
  unfold check_firmware_selection.
  destruct (select_found_firmware _ _ _) as [ff'|f]; [|discriminate].
  destruct (scarlett2_read_firmware_file _) as [fw'|e] eqn:Hr; [|discriminate].
  destruct (usb_pid (header fw') =? card_pid selected_card) eqn:Ep; simpl;
    [|discriminate].
  intros [= <- <-]. apply Z.eqb_eq in Ep. auto.
Qed.

Lemma main_update (args : arguments) (env : environment) :
  command args = Some "update"%string ->
  main args env
  = (snd (enum_firmwares (scan_fs env) (firmware_exec_dir env)),
     (selected_card <- lift (check_card_selection (found_cards env)
                               (selected_card_num args)) ;;
      sel <- lift (check_firmware_selection (load_fs env)
                     (fst (enum_firmwares (scan_fs env)
                             (firmware_exec_dir env)))
                     selected_card (selected_firmware_version args)) ;;
      reset_config ;;;
      erase_firmware ;;;
      update_firmware (snd sel) ;;;
      reboot_card) (initial_hw (card env))).
Proof.
  intros Hc. unfold main. rewrite Hc.
  change ("update" =? "help")%string with false.
  change ("update" =? "about")%string with false.
  change ("update" =? "list")%string with false.
  change ("update" =? "list-all")%string with false.
  change ("update" =? "reboot")%string with false.
  change ("update" =? "reset-config")%string with false.
  change ("update" =? "erase-firmware")%string with false.
  change ("update" =? "update")%string with true.
  cbv iota.
  destruct (enum_firmwares (scan_fs env) (firmware_exec_dir env)).
  reflexivity.
Qed.

(** C1, as the code has it: in the update command a failure of the card
    selection or of the firmware selection (no entry, up to date, no such
    version, a file that cannot be loaded or fails its checksum, a PID
    that differs from the card's) ends the run with that failure before
    anything is sent to the card; and when something has been sent to the
    card, both selections succeeded, the file was loaded with a digest
    equal to its header's hash and its PID is the card's. Failures to
    read a file while the firmware directories are scanned are warnings
    and do not end the run: when both selections succeed the run goes on
    to the reset of the configuration. *)
Theorem update_aborts_before_any_command (args : arguments)
    (env : environment) :
  (forall data, length (SHA256 data) = SHA256_DIGEST_LENGTH) ->
  command args = Some "update"%string ->
  let found := fst (enum_firmwares (scan_fs env) (firmware_exec_dir env)) in
  let card_sel :=
    check_card_selection (found_cards env) (selected_card_num args) in
  (forall f, card_sel = Err f ->
     exists s, snd (main args env) = Exit f s /\ issued s = [])
  /\ (forall sc f, card_sel = Ok sc ->
        check_firmware_selection (load_fs env) found sc
          (selected_firmware_version args) = Err f ->
        exists s, snd (main args env) = Exit f s /\ issued s = [])
  /\ (forall sc ff fw, card_sel = Ok sc ->
        select_found_firmware found sc (selected_firmware_version args)
        = Ok ff ->
        scarlett2_read_firmware_file (fopen (load_fs env) (fn ff)) = Ok fw ->
        usb_pid (header fw) <> card_pid sc ->
        exists s,
          snd (main args env)
          = Exit (F_different_device (usb_pid (header fw)) (card_pid sc)) s
          /\ issued s = [])
  /\ (issued (final_state (snd (main args env))) <> [] ->
      exists sc ff fw,
        card_sel = Ok sc
        /\ check_firmware_selection (load_fs env) found sc
             (selected_firmware_version args) = Ok (ff, fw)
        /\ SHA256 (firmware_data fw) = sha256 (header fw)
        /\ usb_pid (header fw) = card_pid sc)
  /\ (forall sc ff fw, card_sel = Ok sc ->
        check_firmware_selection (load_fs env) found sc
          (selected_firmware_version args) = Ok (ff, fw) ->
        snd (main args env)
        = (reset_config ;;; erase_firmware ;;; update_firmware fw ;;;
           reboot_card) (initial_hw (card env))).
Proof.
  intros SHA256_length Hc found card_sel.
  rewrite (main_update _ _ Hc). cbn [snd].
  fold found. fold card_sel.
  split; [|split; [|split; [|split]]].
  - intros f Hf. rewrite Hf. eexists. split; reflexivity.
  - intros sc f Hs Hf. rewrite Hs. unfold bind at 1. cbn [lift ret].
    unfold bind at 1. rewrite Hf. eexists. split; reflexivity.
  - intros sc ff fw Hs Hsel Hr Hp. rewrite Hs. unfold bind at 1.
    cbn [lift ret]. unfold bind at 1.
    unfold check_firmware_selection. rewrite Hsel, Hr.
    apply Z.eqb_neq in Hp. rewrite Hp. eexists. split; reflexivity.
  - destruct card_sel as [sc|f] eqn:Hs.
    2:{ intros H. exfalso. apply H. reflexivity. }
    unfold bind at 1. cbn [lift ret]. unfold bind at 1.
    destruct (check_firmware_selection (load_fs env) found sc
                (selected_firmware_version args)) as [[ff fw]|f] eqn:Hf.
    2:{ intros H. exfalso. apply H. reflexivity. }
    intros _. exists sc, ff, fw.
    destruct (check_firmware_selection_ok_inv _ _ _ _ Hf) as (_ & Hr & Hp).
    destruct (read_firmware_file_verified SHA256_length _ Hr) as [Hd _].
    auto.
  - intros sc ff fw Hs Hf. rewrite Hs. unfold bind at 1. cbn [lift ret].
    unfold bind at 1. rewrite Hf. reflexivity.
Qed.

(** C10: with a requested version the running version of the card is not
    looked at. An entry of the card's product with exactly that version
    is selected whatever the card runs, the result of the selection is
    the same for any two cards with the same PID, "already up to date"
    is never the error, and once the file is loaded the update command
    goes on to the reset of the configuration. *)
Theorem requested_version_ignores_running (fs : filesystem)
    (found : list found_firmware) (selected_card : sound_card) (version : Z) :
  version <> 0 ->
  (forall f r, check_firmware_selection fs found selected_card version = Err f ->
               f <> F_already_up_to_date r)
  /\ (forall ff,
        get_firmware_for_version found (card_pid selected_card) version
        = Some ff ->
        select_found_firmware found selected_card version = Ok ff
        /\ forall fw,
             scarlett2_read_firmware_file (fopen fs (fn ff)) = Ok fw ->
             usb_pid (header fw) = card_pid selected_card ->
             check_firmware_selection fs found selected_card version
             = Ok (ff, fw))
  /\ (forall x, In x found ->
        usb_pid (firmware x) = card_pid selected_card ->
        firmware_version (firmware x) = version ->
        0 <= version < 2 ^ 32 ->
        exists ff,
          select_found_firmware found selected_card version = Ok ff
          /\ usb_pid (firmware ff) = card_pid selected_card
          /\ firmware_version (firmware ff) = version)
  /\ (forall other_card, card_pid other_card = card_pid selected_card ->
        check_firmware_selection fs found other_card version
        = check_firmware_selection fs found selected_card version)
  /\ (forall args env sc ff fw,
        command args = Some "update"%string ->
        selected_firmware_version args = version ->
        check_card_selection (found_cards env) (selected_card_num args)
        = Ok sc ->
        get_firmware_for_version
          (fst (enum_firmwares (scan_fs env) (firmware_exec_dir env)))
          (card_pid sc) version = Some ff ->
        scarlett2_read_firmware_file (fopen (load_fs env) (fn ff)) = Ok fw ->
        usb_pid (header fw) = card_pid sc ->
        snd (main args env)
        = (reset_config ;;; erase_firmware ;;; update_firmware fw ;;;
           reboot_card) (initial_hw (card env))).
Proof.
  intros Hv. apply Z.eqb_neq in Hv.
  split; [|split; [|split; [|split]]].
  - intros f r. unfold check_firmware_selection, select_found_firmware.
    rewrite Hv.
    destruct (get_firmware_for_version _ _ _) as [ff|]; [|intros [= <-]; discriminate].
    destruct (scarlett2_read_firmware_file _) as [fw|e]; [|intros [= <-]; discriminate].
    destruct (negb _); [intros [= <-]; discriminate | discriminate].
  - intros ff Hff.
    assert (HS : select_found_firmware found selected_card version = Ok ff).
    { unfold select_found_firmware. rewrite Hv, Hff. reflexivity. }
    split; [exact HS|]. intros fw Hfw Hp.
    unfold check_firmware_selection. rewrite HS, Hfw.
    apply Z.eqb_eq in Hp. rewrite Hp. reflexivity.
  - intros x Hin Hp Hver Hr.
    destruct (find_exists
                (fun ff => (usb_pid (firmware ff) =? card_pid selected_card)
                           && (firmware_version (firmware ff) =? to_u32 version))
                found x Hin) as (ff & Hfind & Hff).
    { rewrite to_u32_small by exact Hr.
      apply andb_true_iff. split; apply Z.eqb_eq; assumption. }
    exists ff. apply andb_true_iff in Hff. destruct Hff as [H1 H2].
    apply Z.eqb_eq in H1, H2. rewrite to_u32_small in H2 by exact Hr.
    split; [|split; assumption].
    unfold select_found_firmware, get_firmware_for_version.
    rewrite Hv, Hfind. reflexivity.
  - intros other Hp. unfold check_firmware_selection, select_found_firmware.
    rewrite Hv, Hp. reflexivity.
  - intros args env sc ff fw Hc Hver Hs Hff Hr Hp.
    rewrite (main_update _ _ Hc). cbn [snd]. rewrite Hs.
    unfold bind at 1. cbn [lift ret]. unfold bind at 1.
    unfold check_firmware_selection, select_found_firmware.
    rewrite Hver, Hv, Hff, Hr.
    apply Z.eqb_eq in Hp. rewrite Hp. reflexivity.
Qed.


(** ** The sort *)

Lemma insert_sorted_perm (x : found_firmware) (l : list found_firmware) :
  Permutation (x :: l) (insert_sorted x l).
Proof.
  induction l as [|y l IH]; simpl; [apply Permutation_refl|].
  destruct (found_firmware_cmp x y <=? 0); [apply Permutation_refl|].
  eapply Permutation_trans; [apply perm_swap|].
  apply perm_skip. exact IH.
Qed.

Lemma insert_sorted_hd (x y : found_firmware) (l : list found_firmware) :
  cmp_le y x -> HdRel cmp_le y l -> HdRel cmp_le y (insert_sorted x l).
Proof.
  intros Hyx Hl. destruct l as [|z l]; simpl; [constructor; exact Hyx|].
  destruct (found_firmware_cmp x z <=? 0); constructor;
    [exact Hyx | inversion Hl; assumption].
Qed.

Lemma insert_sorted_sorted (x : found_firmware) (l : list found_firmware) :
  Sorted cmp_le l -> Sorted cmp_le (insert_sorted x l).
Proof.
  induction 1 as [|y l HS IH HR]; simpl; [repeat constructor|].
  destruct (found_firmware_cmp x y <=? 0) eqn:E.
  - apply Z.leb_le in E. repeat constructor; assumption.
  - apply Z.leb_gt in E. constructor; [exact IH|].
    apply insert_sorted_hd; [|exact HR].
    apply cmp_le_iff.
    destruct (catalog_before_total x y) as [H | H]; [|exact H].
    apply cmp_le_iff in H. unfold cmp_le in H. lia.
Qed.

Lemma insertion_sort_qsort_result (l : list found_firmware) :
  qsort_result l (insertion_sort l).
Proof.
  unfold qsort_result, insertion_sort.
  induction l as [|x l [IHP IHS]]; simpl; [split; constructor|].
  split.
  - eapply Permutation_trans; [apply perm_skip; exact IHP|].
    apply insert_sorted_perm.
  - apply insert_sorted_sorted. exact IHS.
Qed.

(** ** The catalog after [enum_firmwares] *)

Section SortedCatalog.

Hypothesis qsort_sorts : forall l, qsort_result l (qsort l).

Lemma enum_firmwares_catalog (fs : filesystem) (exec_dir : option string) :
  let found := fst (enum_firmwares fs exec_dir) in
  NoDup (map triple found) /\ StronglySorted catalog_before found.
Proof using qsort_sorts.
  unfold enum_firmwares. cbn [fst].
  set (st := enum_firmware_dir fs SYSTEM_FIRMWARE_DIR _).
  destruct (qsort_sorts (fst st)) as [HP HS].
  split; [|apply sorted_strongly; exact HS].
  apply (Permutation_NoDup (Permutation_map triple HP)).
  subst st. apply enum_firmware_dir_unique.
  destruct exec_dir; [apply enum_firmware_dir_unique|]; constructor.
Qed.

End SortedCatalog.

(** * Further properties of the code *)

(** ** The table of supported devices *)

Lemma get_device_from_some (tbl : list scarlett2_device) : forall i p k,
  get_device_from tbl i p = Some k ->
  (i <= k)%nat
  /\ exists d, nth_error tbl (k - i) = Some d /\ pid d = p
     /\ forall j d', (j < k - i)%nat -> nth_error tbl j = Some d' -> pid d' <> p.
Proof.
  induction tbl as [|d tbl IH]; intros i p k H; simpl in H; [discriminate|].
  destruct (pid d =? p) eqn:E.
  - injection H as <-. apply Z.eqb_eq in E. split; [lia|].
    exists d. rewrite Nat.sub_diag. split; [reflexivity|]. split; [exact E|].
    intros j d' Hj. lia.
  - apply Z.eqb_neq in E.
    destruct (IH _ _ _ H) as (Hle & d0 & Hn & Hp & Hfirst).
    split; [lia|]. exists d0.
    replace (k - i)%nat with (S (k - S i)) by lia.
    split; [exact Hn|]. split; [exact Hp|].
    intros [|j] d' Hj Hd'; simpl in Hd'.
    + injection Hd' as <-. exact E.
    + apply (Hfirst j d'); [lia | exact Hd'].
Qed.

Lemma get_device_from_none (tbl : list scarlett2_device) : forall i p,
  get_device_from tbl i p = None <-> ~ In p (map pid tbl).
Proof.
  induction tbl as [|d tbl IH]; intros i p; simpl.
  - split; [intros _ [] | reflexivity].
  - destruct (pid d =? p) eqn:E.
    + apply Z.eqb_eq in E. split; [discriminate|].
      intros H. exfalso. apply H. left. exact E.
    + apply Z.eqb_neq in E. rewrite IH. split.
      * intros H [C | C]; [exact (E C) | exact (H C)].
      * intros H C. apply H. right. exact C.
Qed.

Lemma get_device_for_pid_inj (p q : Z) :
  get_device_for_pid p = get_device_for_pid q ->
  get_device_for_pid p <> None -> p = q.
Proof.
  unfold get_device_for_pid. intros Heq Hne.
  destruct (get_device_from scarlett2_supported 0 p) as [k|] eqn:Hp;
    [|exfalso; apply Hne; reflexivity].
  symmetry in Heq.
  destruct (get_device_from_some _ _ _ Hp) as (_ & d & Hn & Hd & _).
  destruct (get_device_from_some _ _ _ Heq) as (_ & d' & Hn' & Hd' & _).
  rewrite Hn in Hn'. injection Hn' as <-. congruence.
Qed.

(** X1: [get_device_for_pid] returns the first element of the table with the
    given PID, and the null pointer exactly for the PIDs that are not in
    the table; so two PIDs with the same non-null pointer are equal. *)
Theorem get_device_for_pid_lookup (p : Z) :
  (forall k, get_device_for_pid p = Some k ->
     exists d, nth_error scarlett2_supported k = Some d /\ pid d = p
       /\ forall j d', (j < k)%nat ->
            nth_error scarlett2_supported j = Some d' -> pid d' <> p)
  /\ (get_device_for_pid p = None <-> ~ In p (map pid scarlett2_supported))
  /\ (forall q, get_device_for_pid p = get_device_for_pid q ->
        get_device_for_pid p <> None -> p = q).
Proof.
  unfold get_device_for_pid. split; [|split].
  - intros k H. destruct (get_device_from_some _ _ _ H) as (_ & d & Hn & Hp & Hf).
    rewrite Nat.sub_0_r in Hn, Hf. exists d. auto.
  - apply get_device_from_none.
  - intros q. apply get_device_for_pid_inj.
Qed.

(** ** The comparison function and the sort *)

Lemma same_rank_same_position (a b : found_firmware) :
  device_rank a = device_rank b <-> table_position a = table_position b.
Proof.
  unfold device_rank.
  destruct (table_position a), (table_position b); split; intros H;
    try discriminate; try reflexivity.
  - injection H as ->. reflexivity.
  - injection H as ->. reflexivity.
Qed.

(** X2: [found_firmware_cmp] is a comparison function as [qsort] needs one:
    it returns -1, 0 or 1, swapping the arguments negates the result,
    "at most 0" is transitive, and 0 means the same device pointer and
    the same version. *)
Theorem found_firmware_cmp_consistent (a b c : found_firmware) :
  (found_firmware_cmp a b = -1 \/ found_firmware_cmp a b = 0
   \/ found_firmware_cmp a b = 1)
  /\ found_firmware_cmp b a = - found_firmware_cmp a b
  /\ (found_firmware_cmp a b <= 0 -> found_firmware_cmp b c <= 0 ->
      found_firmware_cmp a c <= 0)
  /\ (found_firmware_cmp a b = 0
      <-> table_position a = table_position b
          /\ firmware_version (firmware a) = firmware_version (firmware b)).
Proof.
  assert (V : forall x y : found_firmware,
             (found_firmware_cmp x y = -1
              /\ ((device_rank x < device_rank y)%nat
                  \/ (device_rank x = device_rank y
                      /\ firmware_version (firmware x)
                         > firmware_version (firmware y))))
             \/ (found_firmware_cmp x y = 0
                 /\ device_rank x = device_rank y
                 /\ firmware_version (firmware x)
                    = firmware_version (firmware y))
             \/ (found_firmware_cmp x y = 1
                 /\ ((device_rank y < device_rank x)%nat
                     \/ (device_rank x = device_rank y
                         /\ firmware_version (firmware x)
                            < firmware_version (firmware y))))).
  { intros x y. unfold found_firmware_cmp.
    fold (table_position x). fold (table_position y).
    pose proof (ptr_lt_rank x y) as Hxy. pose proof (ptr_lt_rank y x) as Hyx.
    destruct (ptr_lt (table_position x) (table_position y)).
    - left. split; [reflexivity|]. left. apply Hxy. reflexivity.
    - destruct (ptr_lt (table_position y) (table_position x)).
      + right. right. split; [reflexivity|]. left. apply Hyx. reflexivity.
      + assert (N1 : ~ (device_rank x < device_rank y)%nat)
          by (intros C; apply Hxy in C; discriminate).
        assert (N2 : ~ (device_rank y < device_rank x)%nat)
          by (intros C; apply Hyx in C; discriminate).
        destruct (Z.ltb_spec (firmware_version (firmware x))
                             (firmware_version (firmware y))).
        * right. right. split; [reflexivity|]. right. lia.
        * destruct (Z.gtb_spec (firmware_version (firmware x))
                               (firmware_version (firmware y))).
          -- left. split; [reflexivity|]. right. lia.
          -- right. left. lia. }
  split; [|split; [|split]].
  - destruct (V a b) as [[H _] | [[H _] | [H _]]]; auto.
  - destruct (V a b) as [[H1 R1] | [[H1 R1] | [H1 R1]]];
      destruct (V b a) as [[H2 R2] | [[H2 R2] | [H2 R2]]]; lia.
  - intros H1 H2. apply cmp_le_iff.
    apply (catalog_before_trans (b := b)); apply cmp_le_iff; assumption.
  - rewrite <- same_rank_same_position.
    destruct (V a b) as [[H R] | [[H R] | [H R]]]; rewrite H; split;
      try discriminate; try lia; intros [Hr Hv]; lia.
Qed.

Lemma sorted_permutation_unique (l1 : list found_firmware) : forall l2,
  (forall x y, In x l1 -> In y l1 ->
     catalog_before x y -> catalog_before y x -> x = y) ->
  StronglySorted catalog_before l1 -> StronglySorted catalog_before l2 ->
  Permutation l1 l2 -> l1 = l2.
Proof.
  induction l1 as [|x l1 IH]; intros l2 Hanti S1 S2 HP.
  - apply Permutation_nil in HP. congruence.
  - destruct l2 as [|y l2].
    { apply Permutation_sym, Permutation_nil in HP. discriminate. }
    inversion S1 as [|? ? S1' F1]; subst.
    inversion S2 as [|? ? S2' F2]; subst.
    rewrite Forall_forall in F1, F2.
    assert (Hxy : x = y).
    { assert (Hy : In y (x :: l1))
        by (apply (Permutation_in _ (Permutation_sym HP)); left; reflexivity).
      assert (Hx : In x (y :: l2))
        by (apply (Permutation_in _ HP); left; reflexivity).
      destruct Hy as [Hy | Hy]; [exact Hy|].
      destruct Hx as [Hx | Hx]; [congruence|].
      apply Hanti; [left; reflexivity | right; exact Hy
                    | apply F1; exact Hy | apply F2; exact Hx]. }
    subst y. f_equal. apply IH; auto.
    + intros a b Ha Hb. apply Hanti; right; assumption.
    + apply (Permutation_cons_inv HP).
Qed.

Lemma triple_inj_in (l : list found_firmware) (a b : found_firmware) :
  NoDup (map triple l) -> In a l -> In b l -> triple a = triple b -> a = b.
Proof.
  induction l as [|x l IH]; intros ND Ha Hb Ht; [destruct Ha|].
  simpl in ND. inversion ND as [|? ? Hnin ND']; subst.
  destruct Ha as [-> | Ha], Hb as [-> | Hb].
  - reflexivity.
  - exfalso. apply Hnin. rewrite Ht. apply in_map. exact Hb.
  - exfalso. apply Hnin. rewrite <- Ht. apply in_map. exact Ha.
  - apply IH; assumption.
Qed.

(** X3: For a catalog without duplicate triples that holds only firmware of the
    vendor for products of the table, the sorted catalog does not depend on
    how [qsort] sorts: any two results are equal. *)
Theorem sorted_catalog_unique (found s1 s2 : list found_firmware) :
  NoDup (map triple found) ->
  (forall ff, In ff found ->
     usb_vid (firmware ff) = VENDOR_VID /\ table_position ff <> None) ->
  qsort_result found s1 -> qsort_result found s2 -> s1 = s2.
Proof.
  intros ND Hk [P1 S1] [P2 S2].
  apply sorted_permutation_unique.
  - intros x y Hx Hy Bxy Byx.
    apply (Permutation_in _ (Permutation_sym P1)) in Hx, Hy.
    apply (triple_inj_in found); auto.
    destruct (Hk x Hx) as [Vx Kx]. destruct (Hk y Hy) as [Vy Ky].
    assert (R : device_rank x = device_rank y)
      by (unfold catalog_before in Bxy, Byx; lia).
    assert (Ve : firmware_version (firmware x) = firmware_version (firmware y))
      by (unfold catalog_before in Bxy, Byx; lia).
    apply same_rank_same_position in R. unfold table_position in R, Kx.
    pose proof (get_device_for_pid_inj _ _ R Kx) as Pe.
    unfold triple. rewrite Vx, Vy, Pe, Ve. reflexivity.
  - apply sorted_strongly. exact S1.
  - apply sorted_strongly. exact S2.
  - apply (Permutation_trans (Permutation_sym P1) P2).
Qed.

(** ** The catalog: what a scan puts into it *)

Lemma add_found_firmware_incl (found : list found_firmware) fn0 fw ff :
  In ff found -> In ff (add_found_firmware found fn0 fw).
Proof.
  intros H. destruct (add_found_firmware_cases found fn0 fw)
    as [[-> _] | (-> & _ & _)]; [exact H | apply in_or_app; left; exact H].
Qed.

Lemma add_found_firmware_has (found : list found_firmware) fn0 fw :
  usb_vid fw = VENDOR_VID ->
  existsb (fun ff => same_firmware (firmware ff) fw)
          (add_found_firmware found fn0 fw) = true.
Proof.
  intros V. destruct (add_found_firmware_cases found fn0 fw)
    as [[-> [C | C]] | (-> & _ & _)].
  - contradiction.
  - exact C.
  - rewrite existsb_app. simpl.
    assert (R : same_firmware fw fw = true)
      by (apply same_firmware_iff; reflexivity).
    rewrite R. apply orb_true_iff. right. reflexivity.
Qed.

Lemma has_firmware_incl (l1 l2 : list found_firmware) fw :
  (forall ff, In ff l1 -> In ff l2) ->
  existsb (fun ff => same_firmware (firmware ff) fw) l1 = true ->
  existsb (fun ff => same_firmware (firmware ff) fw) l2 = true.
Proof.
  intros Hincl H. apply existsb_exists in H. destruct H as (x & Hx & Hs).
  apply existsb_exists. exists x. split; [apply Hincl; exact Hx | exact Hs].
Qed.

Lemma enum_firmware_entries_cons fs dirname d rest st :
  enum_firmware_entries fs dirname (d :: rest) st
  = if negb (has_bin d) then enum_firmware_entries fs dirname rest st
    else
      match scarlett2_read_firmware_header
              (fopen fs (dirname ++ "/" ++ d)%string) with
      | Ok fw =>
          enum_firmware_entries fs dirname rest
            (add_found_firmware (fst st) (dirname ++ "/" ++ d)%string fw,
             snd st)
      | Err e =>
          enum_firmware_entries fs dirname rest
            (fst st,
             snd st ++ [W_failed_to_read (dirname ++ "/" ++ d)%string e])
      end.
Proof. reflexivity. Qed.

Lemma enum_firmware_entries_incl fs dirname entries : forall st ff,
  In ff (fst st) -> In ff (fst (enum_firmware_entries fs dirname entries st)).
Proof.
  induction entries as [|d rest IH]; intros st ff H; simpl; [exact H|].
  destruct (has_bin d); simpl; [|apply IH; exact H].
  destruct (scarlett2_read_firmware_header _) as [fw|e]; apply IH; simpl.
  - apply add_found_firmware_incl. exact H.
  - exact H.
Qed.

Lemma enum_firmware_dir_incl fs dirname st ff :
  In ff (fst st) -> In ff (fst (enum_firmware_dir fs dirname st)).
Proof.
  intros H. unfold enum_firmware_dir.
  destruct (opendir fs dirname); simpl; auto.
  apply enum_firmware_entries_incl. exact H.
Qed.

Lemma enum_firmware_entries_sound fs dirname entries : forall st ff,
  In ff (fst (enum_firmware_entries fs dirname entries st)) ->
  In ff (fst st)
  \/ exists d_name,
       In d_name entries /\ has_bin d_name = true
       /\ fn ff = (dirname ++ "/" ++ d_name)%string
       /\ scarlett2_read_firmware_header (fopen fs (fn ff)) = Ok (firmware ff)
       /\ usb_vid (firmware ff) = VENDOR_VID.
Proof.
  induction entries as [|d rest IH]; intros st ff H; [left; exact H|].
  rewrite enum_firmware_entries_cons in H.
  assert (W : forall P : string -> Prop,
             (exists d_name, In d_name rest /\ P d_name) ->
             exists d_name, In d_name (d :: rest) /\ P d_name).
  { intros P (x & Hx & Px). exists x. split; [right; exact Hx | exact Px]. }
  destruct (has_bin d) eqn:Hb; cbn [negb] in H; cbv iota in H.
  2:{ destruct (IH _ _ H) as [L | R]; [left; exact L | right; apply W; exact R]. }
  destruct (scarlett2_read_firmware_header
              (fopen fs (dirname ++ "/" ++ d)%string)) as [fw|e] eqn:Hr.
  - destruct (IH _ _ H) as [L | R]; [|right; apply W; exact R].
    cbn [fst] in L.
    destruct (add_found_firmware_cases (fst st) (dirname ++ "/" ++ d)%string fw)
      as [[E _] | (E & V & _)]; rewrite E in L.
    + left. exact L.
    + apply in_app_or in L. destruct L as [L | [<- | []]]; [left; exact L|].
      right. exists d. cbn [fn firmware]. split; [left; reflexivity|].
      split; [exact Hb|]. split; [reflexivity|]. split; [exact Hr | exact V].
  - destruct (IH _ _ H) as [L | R]; [left; exact L | right; apply W; exact R].
Qed.

Lemma enum_firmware_entries_warnings fs dirname entries : forall st w,
  In w (snd (enum_firmware_entries fs dirname entries st)) ->
  In w (snd st)
  \/ exists d_name e,
       In d_name entries /\ has_bin d_name = true
       /\ w = W_failed_to_read (dirname ++ "/" ++ d_name)%string e
       /\ scarlett2_read_firmware_header
            (fopen fs (dirname ++ "/" ++ d_name)%string) = Err e.
Proof.
  induction entries as [|d rest IH]; intros st w H; [left; exact H|].
  rewrite enum_firmware_entries_cons in H.
  assert (W : forall P : string -> firmware_error -> Prop,
             (exists d_name e, In d_name rest /\ P d_name e) ->
             exists d_name e, In d_name (d :: rest) /\ P d_name e).
  { intros P (x & e & Hx & Px). exists x, e. split; [right; exact Hx | exact Px]. }
  destruct (has_bin d) eqn:Hb; cbn [negb] in H; cbv iota in H.
  2:{ destruct (IH _ _ H) as [L | R]; [left; exact L | right; apply W; exact R]. }
  destruct (scarlett2_read_firmware_header
              (fopen fs (dirname ++ "/" ++ d)%string)) as [fw|e] eqn:Hr.
  - destruct (IH _ _ H) as [L | R]; [left; exact L | right; apply W; exact R].
  - destruct (IH _ _ H) as [L | R]; [|right; apply W; exact R].
    cbn [snd] in L. apply in_app_or in L. destruct L as [L | [<- | []]];
      [left; exact L|].
    right. exists d, e. split; [left; reflexivity|]. auto.
Qed.

Lemma enum_firmware_entries_complete fs dirname entries : forall st d_name h,
  In d_name entries -> has_bin d_name = true ->
  scarlett2_read_firmware_header (fopen fs (dirname ++ "/" ++ d_name)%string)
  = Ok h ->
  usb_vid h = VENDOR_VID ->
  existsb (fun ff => same_firmware (firmware ff) h)
          (fst (enum_firmware_entries fs dirname entries st)) = true.
Proof.
  induction entries as [|d rest IH]; intros st d_name h Hin Hb Hr V;
    [destruct Hin|].
  rewrite enum_firmware_entries_cons. destruct Hin as [-> | Hin].
  - rewrite Hb, Hr. cbn [negb]. cbv iota.
    eapply has_firmware_incl;
      [intros ff; apply enum_firmware_entries_incl|].
    cbn [fst]. apply add_found_firmware_has. exact V.
  - destruct (has_bin d); cbn [negb]; cbv iota; [|eapply IH; eauto].
    destruct (scarlett2_read_firmware_header
                (fopen fs (dirname ++ "/" ++ d)%string));
      eapply IH; eauto.
Qed.

(** X4: A scan of a directory adds to the catalog only files of the directory
    whose name contains ".bin" and whose header was read, with the header
    that was read and the vendor's id, and it keeps what the catalog held;
    each "failed to read" warning it adds is for such a file whose header
    could not be read; a directory that does not exist changes nothing. *)
Theorem enum_firmware_dir_sound (fs : filesystem) (dirname : string)
    (st : list found_firmware * list scan_warning) :
  let r := enum_firmware_dir fs dirname st in
  (opendir fs dirname = Dir_ENOENT -> r = st)
  /\ (forall ff, In ff (fst st) -> In ff (fst r))
  /\ (forall ff, In ff (fst r) ->
        In ff (fst st)
        \/ exists names d_name,
             opendir fs dirname = Dir_entries names
             /\ In d_name names /\ has_bin d_name = true
             /\ fn ff = (dirname ++ "/" ++ d_name)%string
             /\ scarlett2_read_firmware_header (fopen fs (fn ff))
                = Ok (firmware ff)
             /\ usb_vid (firmware ff) = VENDOR_VID)
  /\ (forall path e, In (W_failed_to_read path e) (snd r) ->
        In (W_failed_to_read path e) (snd st)
        \/ exists names d_name,
             opendir fs dirname = Dir_entries names
             /\ In d_name names /\ has_bin d_name = true
             /\ path = (dirname ++ "/" ++ d_name)%string
             /\ scarlett2_read_firmware_header (fopen fs path) = Err e).
Proof.
  intros r. subst r. unfold enum_firmware_dir.
  split; [intros ->; reflexivity|].
  split; [|split].
  - intros ff H. destruct (opendir fs dirname); simpl; auto.
    apply enum_firmware_entries_incl. exact H.
  - intros ff H. destruct (opendir fs dirname) as [names| |]; simpl in H; auto.
    destruct (enum_firmware_entries_sound _ _ _ _ _ H)
      as [L | (d & H1 & H2 & H3 & H4 & H5)]; [left; exact L|].
    right. exists names, d. auto 8.
  - intros path e H.
    destruct (opendir fs dirname) as [names| |]; simpl in H; auto.
    + destruct (enum_firmware_entries_warnings _ _ _ _ _ H)
        as [L | (d & e' & H1 & H2 & H3 & H4)]; [left; exact L|].
      right. injection H3 as -> ->. exists names, d. auto 8.
    + apply in_app_or in H. destruct H as [H | [H | []]];
        [left; exact H | discriminate].
Qed.

(** X5: The directory of the executable is scanned first, so a firmware found
    there is the catalog's entry for its triple: the catalog holds exactly
    one entry with that triple, and its path is in that directory. *)
Theorem exec_dir_firmware_wins (fs : filesystem) (exec_dir : string)
    (names : list string) (d_name : string) (h : scarlett2_firmware_header) :
  (forall l, Permutation l (qsort l)) ->
  opendir fs exec_dir = Dir_entries names ->
  In d_name names -> has_bin d_name = true ->
  scarlett2_read_firmware_header (fopen fs (exec_dir ++ "/" ++ d_name)%string)
  = Ok h ->
  usb_vid h = VENDOR_VID ->
  exists ff,
    In ff (fst (enum_firmwares fs (Some exec_dir)))
    /\ same_firmware (firmware ff) h = true
    /\ (exists d', In d' names /\ fn ff = (exec_dir ++ "/" ++ d')%string)
    /\ forall ff', In ff' (fst (enum_firmwares fs (Some exec_dir))) ->
         same_firmware (firmware ff') h = true -> ff' = ff.
Proof.
  intros Hq Hd Hin Hb Hr V. unfold enum_firmwares. cbn [fst].
  set (st1 := enum_firmware_dir fs exec_dir ([], [])).
  set (st2 := enum_firmware_dir fs SYSTEM_FIRMWARE_DIR st1).
  assert (E1 : st1 = enum_firmware_entries fs exec_dir names ([], [])).
  { unfold st1, enum_firmware_dir. rewrite Hd. reflexivity. }
  assert (C : existsb (fun ff => same_firmware (firmware ff) h) (fst st1) = true).
  { rewrite E1. eapply enum_firmware_entries_complete; eauto. }
  apply existsb_exists in C. destruct C as (ff & Hff & Hs).
  assert (ND : NoDup (map triple (fst st2))).
  { unfold st2, st1. apply enum_firmware_dir_unique.
    apply enum_firmware_dir_unique. constructor. }
  assert (H2 : In ff (fst st2)) by (apply enum_firmware_dir_incl; exact Hff).
  exists ff. split; [apply (Permutation_in _ (Hq _)); exact H2|].
  split; [exact Hs|]. split.
  - rewrite E1 in Hff.
    destruct (enum_firmware_entries_sound _ _ _ _ _ Hff)
      as [[] | (d' & H1 & _ & H3 & _)].
    exists d'. auto.
  - intros ff' Hin' Hs'.
    apply (Permutation_in _ (Permutation_sym (Hq _))) in Hin'.
    apply (triple_inj_in (fst st2)); auto.
    apply same_firmware_iff in Hs, Hs'. unfold triple. congruence.
Qed.

(** X6: Every file of the two directories whose name contains ".bin" and whose
    header was read with the vendor's id has its triple in the catalog. *)
Theorem enum_firmwares_complete (fs : filesystem) (exec_dir : option string)
    (dirname : string) (names : list string) (d_name : string)
    (h : scarlett2_firmware_header) :
  (forall l, Permutation l (qsort l)) ->
  exec_dir = Some dirname \/ dirname = SYSTEM_FIRMWARE_DIR ->
  opendir fs dirname = Dir_entries names ->
  In d_name names -> has_bin d_name = true ->
  scarlett2_read_firmware_header (fopen fs (dirname ++ "/" ++ d_name)%string)
  = Ok h ->
  usb_vid h = VENDOR_VID ->
  exists ff, In ff (fst (enum_firmwares fs exec_dir))
             /\ same_firmware (firmware ff) h = true.
Proof.
  intros Hq Hdir Hd Hin Hb Hr V. unfold enum_firmwares. cbn [fst].
  set (st1 := match exec_dir with
              | Some firmware_dir => enum_firmware_dir fs firmware_dir ([], [])
              | None => ([], [])
              end).
  assert (C : existsb (fun ff => same_firmware (firmware ff) h)
                (fst (enum_firmware_dir fs SYSTEM_FIRMWARE_DIR st1)) = true).
  { destruct Hdir as [-> | ->].
    - eapply has_firmware_incl; [intros ff; apply enum_firmware_dir_incl|].
      unfold st1, enum_firmware_dir at 1. rewrite Hd.
      eapply enum_firmware_entries_complete; eauto.
    - unfold enum_firmware_dir at 1. rewrite Hd.
      eapply enum_firmware_entries_complete; eauto. }
  apply existsb_exists in C. destruct C as (ff & Hff & Hs).
  exists ff. split; [apply (Permutation_in _ (Hq _)); exact Hff | exact Hs].
Qed.

(** ** The selection of the card *)

(** X7: [check_card_selection] succeeds in exactly two ways: without [-c] when
    there is exactly one card, which is selected, and with [-c n] when a
    card has number [n], in which case the first such card is selected. It
    fails with "no supported devices" exactly when no card was found. *)
Theorem check_card_selection_spec (cards : list sound_card) (n : Z)
    (sc : sound_card) :
  (check_card_selection cards n = Ok sc
   <-> (n = -1 /\ cards = [sc])
       \/ (n <> -1 /\ find (fun c => card_num c =? n) cards = Some sc))
  /\ (check_card_selection cards n = Err F_no_supported_devices
      <-> cards = [])
  /\ (check_card_selection cards n = Err F_more_than_one_device
      <-> n = -1 /\ (2 <= length cards)%nat).
Proof.
  unfold check_card_selection.
  destruct cards as [|c [|c' cards]].
  - split; [|split].
    + split; [discriminate|]. intros [[_ C] | [_ C]]; discriminate.
    + split; reflexivity.
    + split; [discriminate | simpl; lia].
  - destruct (Z.eqb_spec n (-1)) as [-> | Hn].
    + cbn [andb length Z.of_nat]. change (1 <? Z.of_nat 1) with false.
      cbn [andb find]. rewrite Z.eqb_refl.
      split; [|split].
      * split.
        -- intros [= ->]. left. auto.
        -- intros [[_ [= ->]] | [C _]]; [reflexivity | contradiction].
      * split; discriminate.
      * split; [discriminate | simpl; lia].
    + cbn [andb].
      split; [|split].
      * split.
        -- intros H. right. split; [exact Hn|].
           destruct (find _ _); [injection H as ->; reflexivity | discriminate].
        -- intros [[C _] | [_ ->]]; [contradiction | reflexivity].
      * destruct (find _ _); split; discriminate.
      * destruct (find _ _); split; try discriminate; intros [C _]; contradiction.
  - destruct (Z.eqb_spec n (-1)) as [-> | Hn].
    + assert (L : (1 <? Z.of_nat (length (c :: c' :: cards))) = true)
        by (apply Z.ltb_lt; simpl length; lia).
      rewrite L. cbn [andb].
      split; [|split].
      * split; [discriminate|].
        intros [[_ C] | [C _]]; [discriminate | contradiction].
      * split; discriminate.
      * split; [intros _; split; [reflexivity | simpl; lia] | reflexivity].
    + cbn [andb].
      split; [|split].
      * split.
        -- intros H. right. split; [exact Hn|].
           destruct (find _ _); [injection H as ->; reflexivity | discriminate].
        -- intros [[C _] | [_ ->]]; [contradiction | reflexivity].
      * destruct (find _ _); split; discriminate.
      * destruct (find _ _); split; try discriminate; intros [C _]; contradiction.
Qed.

(** ** The selection of the firmware *)

(** X8: [get_firmware_for_version] returns an entry of the catalog with the
    given PID and version, returns nothing exactly when the catalog has no
    such entry, and in a catalog of the vendor's firmware without duplicate
    triples the entry it returns is the only such entry. *)
Theorem get_firmware_for_version_spec (found : list found_firmware)
    (p version : Z) :
  (forall ff, get_firmware_for_version found p version = Some ff ->
     In ff found /\ usb_pid (firmware ff) = p
     /\ firmware_version (firmware ff) = to_u32 version)
  /\ (get_firmware_for_version found p version = None
      <-> forall x, In x found ->
            ~ (usb_pid (firmware x) = p
               /\ firmware_version (firmware x) = to_u32 version))
  /\ (NoDup (map triple found) ->
      (forall x, In x found -> usb_vid (firmware x) = VENDOR_VID) ->
      forall ff x, get_firmware_for_version found p version = Some ff ->
        In x found -> usb_pid (firmware x) = p ->
        firmware_version (firmware x) = to_u32 version -> x = ff).
Proof.
  unfold get_firmware_for_version.
  assert (S : forall ff,
             find (fun ff => (usb_pid (firmware ff) =? p)
                             && (firmware_version (firmware ff)
                                 =? to_u32 version)) found = Some ff ->
             In ff found /\ usb_pid (firmware ff) = p
             /\ firmware_version (firmware ff) = to_u32 version).
  { intros ff H. apply find_some in H. destruct H as [Hin Hb].
    apply andb_true_iff in Hb. destruct Hb as [H1 H2].
    apply Z.eqb_eq in H1, H2. auto. }
  split; [exact S|]. split.
  - split.
    + intros H x Hx [H1 H2].
      pose proof (List.find_none _ _ H x Hx) as C. cbv beta in C.
      apply Z.eqb_eq in H1, H2. rewrite H1, H2 in C. discriminate.
    + intros H. destruct (find _ found) as [ff|] eqn:E; [|reflexivity].
      destruct (S ff eq_refl) as (Hin & H1 & H2).
      exfalso. apply (H ff Hin). auto.
  - intros ND HV ff x Hff Hx Hp Hv.
    destruct (S ff Hff) as (Hin & H1 & H2).
    apply (triple_inj_in found); auto.
    unfold triple. rewrite (HV x Hx), (HV ff Hin). congruence.
Qed.

(** X9: When [check_firmware_selection] succeeds, the entry is an entry of the
    catalog for the card's product, the file that was loaded has the
    card's PID, as many payload bytes as its header says and a digest
    equal to its header's hash; without a requested version the entry's
    version is above the running version read as unsigned, and with a
    requested version it is that version. *)
Theorem check_firmware_selection_ok (fs : filesystem)
    (found : list found_firmware) (selected_card : sound_card) (version : Z)
    (ff : found_firmware) (fw : scarlett2_firmware_file) :
  (forall data, length (SHA256 data) = SHA256_DIGEST_LENGTH) ->
  check_firmware_selection fs found selected_card version = Ok (ff, fw) ->
  In ff found
  /\ usb_pid (firmware ff) = card_pid selected_card
  /\ scarlett2_read_firmware_file (fopen fs (fn ff)) = Ok fw
  /\ usb_pid (header fw) = card_pid selected_card
  /\ Z.of_nat (length (firmware_data fw)) = firmware_length (header fw)
  /\ SHA256 (firmware_data fw) = sha256 (header fw)
  /\ (version = 0 ->
      to_u32 (card_firmware_version selected_card)
      < firmware_version (firmware ff))
  /\ (version <> 0 -> firmware_version (firmware ff) = to_u32 version).
Proof.
  intros HS H.
  destruct (check_firmware_selection_ok_inv _ _ _ _ H) as (Hsel & Hr & Hp).
  destruct (read_firmware_file_verified HS _ Hr) as [Hd Hl].
  unfold select_found_firmware in Hsel.
  destruct (Z.eqb_spec version 0) as [-> | Hv].
  - unfold get_latest_firmware in Hsel.
    destruct (find _ found) as [c|] eqn:Hf; [|discriminate].
    destruct (_ >=? _) eqn:Hg; [discriminate|].
    injection Hsel as ->.
    apply find_some in Hf. destruct Hf as [Hin Hb]. apply Z.eqb_eq in Hb.
    rewrite Z.geb_leb in Hg. apply Z.leb_gt in Hg.
    repeat split; auto. intros C. exfalso. apply C. reflexivity.
  - unfold get_firmware_for_version in Hsel.
    destruct (find _ found) as [c|] eqn:Hf; [|discriminate].
    injection Hsel as ->.
    apply find_some in Hf. destruct Hf as [Hin Hb].
    apply andb_true_iff in Hb. destruct Hb as [H1 H2].
    apply Z.eqb_eq in H1, H2.
    repeat split; auto. intros C. contradiction.
Qed.

(** ** The erase monitor: how a run ends *)

Lemma monitor_after_loop_cases (progress : Z) :
  (progress = 255 /\ monitor_after_loop progress = Mon_done)
  \/ (progress <> 255 /\ monitor_after_loop progress = Mon_timed_out).
Proof.
  unfold monitor_after_loop.
  destruct (Z.eqb_spec progress 255); [left | right]; auto.
Qed.

Lemma monitor_loop_nil i last progress :
  monitor_loop [] i last progress
  = if i <? 10 then (Mon_starved, []) else (monitor_after_loop progress, []).
Proof. reflexivity. Qed.

Lemma monitor_loop_exit (polls : list Z) i last progress :
  10 <= i ->
  monitor_loop polls i last progress = (monitor_after_loop progress, polls).
Proof.
  intros H. apply Z.ltb_ge in H. destruct polls; simpl; rewrite H; reflexivity.
Qed.

(** The cases of one iteration, as facts about the next answer. *)
Lemma monitor_loop_step (p : Z) (polls : list Z) i last progress :
  i < 10 ->
  (p < 0 /\ monitor_loop (p :: polls) i last progress = (Mon_error p, polls))
  \/ (p = 255
      /\ monitor_loop (p :: polls) i last progress = (Mon_done, polls))
  \/ (0 <= p /\ p <> 255 /\ last < p
      /\ monitor_loop (p :: polls) i last progress = monitor_loop polls 1 p p)
  \/ (0 <= p /\ p <> 255 /\ p < last
      /\ monitor_loop (p :: polls) i last progress
         = (Mon_went_backwards last p, polls))
  \/ (0 <= p /\ p <> 255 /\ p = last
      /\ monitor_loop (p :: polls) i last progress
         = monitor_loop polls (i + 1) last p).
Proof.
  intros Hi. rewrite monitor_loop_cons.
  assert (Ei : (i <? 10) = true) by (apply Z.ltb_lt; exact Hi). rewrite Ei.
  destruct (Z.ltb_spec p 0); [left; auto|]. right.
  destruct (Z.eqb_spec p 255) as [-> | N]; [left; auto|]. right.
  rewrite Z.gtb_ltb.
  destruct (Z.ltb_spec last p); [left; auto|]. right.
  destruct (Z.ltb_spec p last); [left; auto|]. right.
  repeat split; auto. lia.
Qed.

Lemma monitor_loop_consumes (polls : list Z) : forall i last progress,
  0 <= i <= 10 -> 0 <= last <= 100 ->
  Forall (fun p => p <= 100 \/ p = 255) polls ->
  exists pre,
    polls = pre ++ snd (monitor_loop polls i last progress)
    /\ Z.of_nat (length pre) <= (100 - last) * 10 + (10 - i)
    /\ (fst (monitor_loop polls i last progress) = Mon_starved ->
        Z.of_nat (length pre) < (100 - last) * 10 + (10 - i)).
Proof.
  induction polls as [|p polls IH]; intros i last progress Hi Hl HF.
  - exists []. rewrite monitor_loop_nil.
    destruct (Z.ltb_spec i 10); cbn [fst snd app length].
    + split; [reflexivity|]. split; [lia|]. intros _. lia.
    + split; [reflexivity|]. split; [lia|].
      destruct (monitor_after_loop_cases progress) as [[_ R] | [_ R]];
        rewrite R; discriminate.
  - destruct (Z.eq_dec i 10) as [-> | Hne].
    { exists []. rewrite monitor_loop_exit by lia. cbn [fst snd app length].
      split; [reflexivity|]. split; [lia|].
      destruct (monitor_after_loop_cases progress) as [[_ R] | [_ R]];
        rewrite R; discriminate. }
    inversion HF as [|? ? Hp HF']; subst.
    destruct (monitor_loop_step p polls last progress (i := i))
      as [[_ E] | [[_ E] | [(H0 & N & Hlt & E) | [(_ & _ & _ & E)
                                                  | (H0 & N & -> & E)]]]];
      [lia | | | | |]; rewrite E.
    + exists [p]. cbn [fst snd app length].
      split; [reflexivity|]. split; [lia | discriminate].
    + exists [p]. cbn [fst snd app length].
      split; [reflexivity|]. split; [lia | discriminate].
    + destruct (IH 1 p p) as (pre & Hpre & Hlen & Hst);
        [lia | lia | exact HF'|].
      exists (p :: pre). cbn [app length].
      split; [f_equal; exact Hpre|]. split; [lia|].
      intros S. specialize (Hst S). lia.
    + exists [p]. cbn [fst snd app length].
      split; [reflexivity|]. split; [lia | discriminate].
    + destruct (IH (i + 1) last last) as (pre & Hpre & Hlen & Hst);
        [lia | lia | exact HF'|].
      exists (last :: pre). cbn [app length].
      split; [f_equal; exact Hpre|]. split; [lia|].
      intros S. specialize (Hst S). lia.
Qed.

Lemma monitor_loop_starved_rest (polls : list Z) :
  forall i last progress rest,
    monitor_loop polls i last progress = (Mon_starved, rest) -> rest = [].
Proof.
  induction polls as [|p polls IH]; intros i last progress rest E.
  - rewrite monitor_loop_nil in E. destruct (i <? 10); congruence.
  - destruct (Z.lt_ge_cases i 10) as [Hi | Hi].
    + destruct (monitor_loop_step p polls last progress Hi)
        as [[_ E'] | [[_ E'] | [(_ & _ & _ & E') | [(_ & _ & _ & E')
                                                    | (_ & _ & _ & E')]]]];
        rewrite E' in E; try congruence; eapply IH; exact E.
    + rewrite monitor_loop_exit in E by exact Hi.
      destruct (monitor_after_loop_cases progress) as [[_ R] | [_ R]];
        rewrite R in E; congruence.
Qed.

(** X10: When every answer of the card is at most 100 or the sentinel 255, the
    monitor makes at most 1010 reads: given that many answers it ends with
    done, an error, "went backwards" or a timeout. *)
Theorem monitor_reads_bounded (polls : list Z) :
  Forall (fun p => p <= 100 \/ p = 255) polls ->
  (exists pre,
      polls = pre ++ snd (monitor_polls polls) /\ (length pre <= 1010)%nat)
  /\ ((1010 <= length polls)%nat -> fst (monitor_polls polls) <> Mon_starved).
Proof.
  intros HF. unfold monitor_polls.
  destruct (monitor_loop_consumes 0 ltac:(lia) ltac:(lia) HF (i := 0) (last := 0))
    as (pre & Hpre & Hlen & Hst).
  split; [exists pre; split; [exact Hpre | lia]|].
  intros Hlong C. specialize (Hst C).
  destruct (monitor_loop polls 0 0 0) as [r rest] eqn:E.
  cbn [fst snd] in *. subst r.
  assert (Hrest : rest = [])
    by (eapply monitor_loop_starved_rest; exact E).
  subst rest. rewrite app_nil_r in Hpre. subst pre. lia.
Qed.

Lemma monitor_loop_done (polls : list Z) : forall i last progress rest,
  progress <> 255 ->
  monitor_loop polls i last progress = (Mon_done, rest) ->
  exists pre,
    polls = pre ++ 255 :: rest
    /\ Forall (fun p => last <= p /\ 0 <= p /\ p <> 255) pre
    /\ StronglySorted Z.le pre.
Proof.
  induction polls as [|p polls IH]; intros i last progress rest N E.
  - rewrite monitor_loop_nil in E. destruct (i <? 10); [discriminate|].
    destruct (monitor_after_loop_cases progress) as [[C _] | [_ R]];
      [contradiction | rewrite R in E; discriminate].
  - destruct (Z.lt_ge_cases i 10) as [Hi | Hi].
    + destruct (monitor_loop_step p polls last progress Hi)
        as [[_ E'] | [[-> E'] | [(H0 & N' & Hlt & E') | [(_ & _ & _ & E')
                                                        | (H0 & N' & -> & E')]]]];
        rewrite E' in E; try discriminate.
      * injection E as <-. exists []. split; [reflexivity|].
        split; constructor.
      * destruct (IH _ _ _ _ N' E) as (pre & -> & HF & HS).
        exists (p :: pre). split; [reflexivity|]. split.
        -- constructor; [lia|].
           eapply Forall_impl; [|exact HF]. cbv beta. intros a Ha. lia.
        -- constructor; [exact HS|].
           eapply Forall_impl; [|exact HF]. cbv beta. intros a Ha. lia.
      * destruct (IH _ _ _ _ N' E) as (pre & -> & HF & HS).
        exists (last :: pre). split; [reflexivity|]. split.
        -- constructor; [lia | exact HF].
        -- constructor; [exact HS|].
           eapply Forall_impl; [|exact HF]. cbv beta. intros a Ha. lia.
    + rewrite monitor_loop_exit in E by exact Hi.
      destruct (monitor_after_loop_cases progress) as [[C _] | [_ R]];
        [contradiction | rewrite R in E; discriminate].
Qed.

Lemma monitor_loop_sentinel (pre : list Z) : forall i last progress rest,
  monitor_loop pre i last progress = (Mon_starved, []) ->
  monitor_loop (pre ++ 255 :: rest) i last progress = (Mon_done, rest).
Proof.
  induction pre as [|q pre IH]; intros i last progress rest Hs.
  - rewrite monitor_loop_nil in Hs. destruct (Z.ltb_spec i 10).
    + simpl app.
      destruct (monitor_loop_step 255 rest last progress (i := i))
        as [[C _] | [[_ E] | [(_ & C & _) | [(_ & C & _) | (_ & C & _)]]]];
        try lia; try exact E; contradiction.
    + destruct (monitor_after_loop_cases progress) as [[_ R] | [_ R]];
        rewrite R in Hs; discriminate.
  - destruct (monitor_loop_starved_inv _ _ _ _ _ Hs)
      as (Hi & Hq0 & Hq255 & Hle & Hrec).
    simpl app.
    destruct (monitor_loop_step q (pre ++ 255 :: rest) last progress Hi)
      as [[C _] | [[C _] | [(_ & _ & Hlt & E) | [(_ & _ & C & _)
                                                 | (_ & _ & -> & E)]]]];
      try lia; rewrite E; apply IH.
    + assert (G : (q >? last) = true)
        by (rewrite Z.gtb_ltb; apply Z.ltb_lt; lia).
      rewrite G, Z.max_r in Hrec by lia. exact Hrec.
    + assert (G : (last >? last) = false)
        by (rewrite Z.gtb_ltb; apply Z.ltb_irrefl).
      rewrite G, Z.max_id in Hrec. exact Hrec.
Qed.

(** X11: The monitor reports done only when it reads the sentinel 255, after
    reads that were progress values in non-decreasing order; a card that
    never answers 255 never gets "done", whatever percentage it reports;
    and the sentinel read while the monitor is still polling ends it with
    done at once. *)
Theorem monitor_done_iff_sentinel (polls : list Z) :
  (forall rest, monitor_polls polls = (Mon_done, rest) ->
     exists pre,
       polls = pre ++ 255 :: rest
       /\ Forall (fun p => 0 <= p /\ p <> 255) pre
       /\ StronglySorted Z.le pre)
  /\ (~ In 255 polls -> fst (monitor_polls polls) <> Mon_done)
  /\ (forall pre rest,
        polls = pre ++ 255 :: rest ->
        monitor_polls pre = (Mon_starved, []) ->
        monitor_polls polls = (Mon_done, rest)).
Proof.
  assert (D : forall rest, monitor_polls polls = (Mon_done, rest) ->
            exists pre,
              polls = pre ++ 255 :: rest
              /\ Forall (fun p => 0 <= p /\ p <> 255) pre
              /\ StronglySorted Z.le pre).
  { intros rest E. unfold monitor_polls in E.
    assert (N0 : 0 <> 255) by lia.
    destruct (monitor_loop_done _ _ _ N0 E) as (pre & Hp & HF & HS).
    exists pre. split; [exact Hp|]. split; [|exact HS].
    eapply Forall_impl; [|exact HF]. cbv beta. intros a Ha. lia. }
  split; [exact D|]. split.
  - intros Hn C. destruct (monitor_polls polls) as [r rest] eqn:E.
    cbn [fst] in C. subst r. destruct (D rest eq_refl) as (pre & -> & _).
    apply Hn. apply in_or_app. right. left. reflexivity.
  - intros pre rest -> Hs. unfold monitor_polls in *.
    apply monitor_loop_sentinel. exact Hs.
Qed.

Lemma monitor_loop_timed_out (polls : list Z) : forall i last progress rest,
  0 <= i <= 10 ->
  monitor_loop polls i last progress = (Mon_timed_out, rest) ->
  polls = repeat last (Z.to_nat (10 - i)) ++ rest
  \/ exists pre v, polls = pre ++ repeat v 10 ++ rest.
Proof.
  induction polls as [|p polls IH]; intros i last progress rest Hi E.
  - rewrite monitor_loop_nil in E. destruct (Z.ltb_spec i 10); [discriminate|].
    injection E as _ <-. left. replace (10 - i) with 0 by lia. reflexivity.
  - destruct (Z.lt_ge_cases i 10) as [Hlt | Hge].
    + destruct (monitor_loop_step p polls last progress Hlt)
        as [[_ E'] | [[_ E'] | [(_ & _ & _ & E') | [(_ & _ & _ & E')
                                                    | (_ & _ & -> & E')]]]];
        rewrite E' in E; try discriminate.
      * right. assert (R1 : 0 <= 1 <= 10) by lia.
        destruct (IH _ _ _ _ R1 E) as [H | (pre & v & H)].
        -- exists [], p. rewrite H. reflexivity.
        -- exists (p :: pre), v. rewrite H. reflexivity.
      * assert (R1 : 0 <= i + 1 <= 10) by lia.
        destruct (IH _ _ _ _ R1 E) as [H | (pre & v & H)].
        -- left. rewrite H.
           replace (Z.to_nat (10 - i)) with (S (Z.to_nat (10 - (i + 1))))
             by lia.
           reflexivity.
        -- right. exists (last :: pre), v. rewrite H. reflexivity.
    + rewrite monitor_loop_exit in E by exact Hge.
      injection E as _ <-. left. replace (10 - i) with 0 by lia. reflexivity.
Qed.

(** X12: A timeout is reported only at the end of ten consecutive reads of the
    same value: the reads consumed end with ten equal values. *)
Theorem monitor_timeout_after_ten_equal_reads (polls rest : list Z) :
  monitor_polls polls = (Mon_timed_out, rest) ->
  exists pre v, polls = pre ++ repeat v 10 ++ rest.
Proof.
  intros E. unfold monitor_polls in E.
  assert (R0 : 0 <= 0 <= 10) by lia.
  destruct (monitor_loop_timed_out _ _ _ R0 E) as [H | H];
    [|exact H].
  exists [], 0. exact H.
Qed.

(** ** The write loop: the shape of a complete run *)

Lemma write_loop_shape (len : Z) (rets : list Z) :
  forall offset calls printed,
    0 <= offset <= len ->
    within_request rets offset len ->
    let w := write_loop rets offset len calls printed in
    w_result w = Write_done ->
    exists consumed new_calls,
      rets = consumed ++ w_rest w
      /\ Forall (fun r => 0 < to_i32 r) consumed
      /\ offset + fold_right Z.add 0 (map to_i32 consumed) = len
      /\ length new_calls = length consumed
      /\ w_calls w = calls ++ new_calls
      /\ Forall (fun c => snd c = len - fst c /\ offset <= fst c < len) new_calls
      /\ StronglySorted Z.lt (map fst new_calls)
      /\ (offset < len -> exists more, new_calls = (offset, len - offset) :: more).
Proof.
  induction rets as [|ret rets IH]; intros offset calls printed Ho Hw.
  - simpl. destruct (Z.ltb_spec offset len); simpl; [discriminate|]. intros _.
    exists [], []. cbn [w_rest w_calls app].
    split; [reflexivity|]. split; [constructor|]. split; [simpl; lia|].
    split; [reflexivity|]. split; [symmetry; apply app_nil_r|]. split; [constructor|].
    split; [constructor|]. intros C. lia.
  - destruct (Z.lt_ge_cases offset len) as [Hlt | Hge].
    + rewrite write_loop_cons by exact Hlt. cbv zeta.
      destruct (Z.ltb_spec (to_i32 ret) 0); [simpl; discriminate|].
      destruct (Z.eqb_spec (to_i32 ret) 0); [simpl; discriminate|].
      simpl in Hw. destruct (Hw Hlt ltac:(lia)) as [Hle Hw'].
      intros D.
      assert (R1 : 0 <= offset + to_i32 ret <= len) by lia.
      destruct (IH (offset + to_i32 ret) (calls ++ [(offset, len - offset)])
                   (printed ++ [to_i32 ((offset + to_i32 ret) * 100 / len)])
                   R1 Hw' D)
        as (consumed & new_calls & Hr & Hpos & Hsum & Hlen & Hc & Hf & Hs & _).
      exists (ret :: consumed), ((offset, len - offset) :: new_calls).
      split; [simpl; f_equal; exact Hr|].
      split; [constructor; [lia | exact Hpos]|].
      split; [simpl; lia|].
      split; [simpl; f_equal; exact Hlen|].
      split; [rewrite Hc, <- app_assoc; reflexivity|].
      split; [constructor; [simpl; lia|];
              eapply Forall_impl; [|exact Hf]; cbv beta; intros c Hcc; lia|].
      split; [|intros _; eexists; reflexivity].
      simpl. constructor; [exact Hs|].
      apply Forall_map. eapply Forall_impl; [|exact Hf].
      cbv beta. intros c Hcc. lia.
    + rewrite write_loop_exit by exact Hge. simpl. intros _.
      exists [], []. cbn [w_rest w_calls app].
      split; [reflexivity|]. split; [constructor|]. split; [simpl; lia|].
      split; [reflexivity|]. split; [symmetry; apply app_nil_r|]. split; [constructor|].
      split; [constructor|]. intros C. lia.
Qed.

Lemma to_i32_id_on_ints (l : list Z) :
  Forall (fun r => - 2 ^ 31 <= r < 2 ^ 31) l -> map to_i32 l = l.
Proof.
  induction 1 as [|r l Hr _ IH]; [reflexivity|].
  cbn [map]. rewrite IH. f_equal.
  unfold to_i32. change (2 ^ 32) with 4294967296 in *.
  change (2 ^ 31) with 2147483648 in *. rewrite Z.mod_small; lia.
Qed.

Lemma last_map_snoc (A B : Type) (f : A -> B) (l : list A) (x : A) (d : B) :
  last (map f (l ++ [x])) d = f x.
Proof.
  rewrite map_app. simpl. apply last_last.
Qed.

(** X13: A complete run of the write loop on a payload of positive length, when
    every count the loop takes from an answer is at most the count
    passed: the counts are positive and add up to the length; there is
    one call for each, the first at offset 0, at strictly increasing
    offsets below the length, each passing all that remains; and the last
    percentage printed is 100. The counts are the answers as stored in
    [int err]: for answers that are [int] values they are the answers
    themselves. *)
Theorem write_done_shape (len : Z) (rets : list Z) :
  0 < len -> within_request rets 0 len ->
  let w := write_firmware rets len in
  w_result w = Write_done ->
  exists consumed more,
    rets = consumed ++ w_rest w
    /\ Forall (fun r => 0 < to_i32 r) consumed
    /\ fold_right Z.add 0 (map to_i32 consumed) = len
    /\ w_calls w = (0, len) :: more
    /\ length (w_calls w) = length consumed
    /\ Forall (fun c => snd c = len - fst c /\ 0 <= fst c < len) (w_calls w)
    /\ StronglySorted Z.lt (map fst (w_calls w))
    /\ last (w_progress w) 0 = 100
    /\ (Forall (fun r => - 2 ^ 31 <= r < 2 ^ 31) consumed ->
        Forall (fun r => 0 < r) consumed
        /\ fold_right Z.add 0 consumed = len).
Proof.
  intros Hl Hw w D. subst w. unfold write_firmware in *.
  assert (R0 : 0 <= 0 <= len) by lia.
  destruct (write_loop_shape rets [] [] R0 Hw D)
    as (consumed & new_calls & Hr & Hpos & Hsum & Hlen & Hc & Hf & Hs & Hfirst).
  destruct (@write_loop_within len rets 0 [] [] Hl R0 Hw eq_refl D) as [Ho Hp].
  destruct (Hfirst Hl) as (more & ->).
  simpl in Hc. exists consumed, more.
  split; [exact Hr|]. split; [exact Hpos|]. split; [lia|].
  split; [rewrite Hc, Z.sub_0_r; reflexivity|].
  split; [rewrite Hc; exact Hlen|].
  split; [rewrite Hc; exact Hf|].
  split; [rewrite Hc; exact Hs|].
  split.
  - rewrite Hp, Hc, Ho. cbn [map fst app tl].
    rewrite last_map_snoc. cbv beta.
    rewrite Z.mul_comm, Z.div_mul by lia. reflexivity.
  - intro Hint. rewrite (to_i32_id_on_ints Hint) in Hsum.
    split; [|lia].
    rewrite <- (to_i32_id_on_ints Hint). apply Forall_map. exact Hpos.
Qed.

(** ** The commands sent to the card *)

Lemma issue_all_issued (cs : list hw_cmd) : forall s,
  issued (issue_all cs s) = issued s ++ cs.
Proof.
  unfold issue_all. induction cs as [|c cs IH]; intro s; simpl.
  - symmetry. apply app_nil_r.
  - rewrite IH. simpl. rewrite <- app_assoc. reflexivity.
Qed.

Lemma issue_all_hwdep (cs : list hw_cmd) : forall s,
  hwdep (issue_all cs s) = hwdep s.
Proof.
  unfold issue_all. induction cs as [|c cs IH]; intro s; simpl.
  - reflexivity.
  - rewrite IH. reflexivity.
Qed.

Lemma open_card_opened (s : hw_state) :
  hwdep s = true -> open_card s = Cont tt s.
Proof.
  intro H. unfold open_card, bind, get_hwdep. rewrite H. reflexivity.
Qed.

Lemma open_card_closed (s : hw_state) :
  hwdep s = false ->
  (open_card_ret (script s) < 0
   /\ exists s', open_card s = Exit F_unable_to_open_card s'
                 /\ issued s' = issued s ++ [Cmd_open_card])
  \/ (0 <= open_card_ret (script s) /\ ~ handshake_ok (script s)
      /\ exists f s', open_card s = Exit f s'
           /\ issued s' = issued s ++ [Cmd_open_card; Cmd_get_protocol_version])
  \/ (handshake_ok (script s)
      /\ exists s', open_card s = Cont tt s'
           /\ hwdep s' = true
           /\ script s' = script s
           /\ protocol_version s' = get_protocol_version_ret (script s)
           /\ printed_write_progress s' = printed_write_progress s
           /\ issued s' = issued s ++ [Cmd_open_card; Cmd_get_protocol_version]).
Proof.
  intro H. unfold open_card, bind, get_hwdep. rewrite H.
  unfold scarlett2_open_card. cbv zeta.
  destruct (open_card_ret (script s) <? 0) eqn:Eo.
  - left. apply Z.ltb_lt in Eo. split; [exact Eo|].
    eexists. split; [reflexivity|]. reflexivity.
  - right. apply Z.ltb_ge in Eo.
    unfold scarlett2_get_protocol_version. cbn [script issue].
    destruct (get_protocol_version_ret (script s) <? 0) eqn:Ev.
    + left. apply Z.ltb_lt in Ev. split; [exact Eo|]. split.
      * intros (_ & Hv & _). lia.
      * eexists. eexists. split; [reflexivity|].
        cbn [issued issue]. rewrite <- app_assoc. reflexivity.
    + apply Z.ltb_ge in Ev. unfold set_protocol_version.
      destruct (SCARLETT2_HWDEP_VERSION_MAJOR (get_protocol_version_ret (script s))
                =? REQUIRED_HWDEP_VERSION_MAJOR) eqn:Em; cbn [negb].
      * right. apply Z.eqb_eq in Em. split; [repeat split; assumption|].
        eexists. split; [reflexivity|]. cbn.
        rewrite <- app_assoc. repeat split; reflexivity.
      * left. apply Z.eqb_neq in Em. split; [exact Eo|]. split.
        -- intros (_ & _ & Hm). exact (Em Hm).
        -- eexists. eexists. split; [reflexivity|].
           cbn [issued issue]. rewrite <- app_assoc. reflexivity.
Qed.

(** The card is opened once: a second [open_card] in a row does nothing. *)
Lemma open_card_cont (s s' : hw_state) (u : unit) :
  open_card s = Cont u s' -> hwdep s' = true.
Proof.
  intro H. destruct (hwdep s) eqn:E.
  - rewrite (open_card_opened s E) in H. injection H as _ <-. exact E.
  - destruct (open_card_closed s E)
      as [(_ & s1 & H1 & _)|[(_ & _ & f & s1 & H1 & _)|(_ & s1 & H1 & Hh & _)]];
      rewrite H1 in H; try discriminate.
    injection H as _ <-. exact Hh.
Qed.

Lemma open_card_absorbed {A} (k : hw A) (s : hw_state) :
  (open_card ;;; open_card ;;; k) s = (open_card ;;; k) s.
Proof.
  unfold bind at 1 3. destruct (open_card s) as [u s'| |] eqn:E; try reflexivity.
  unfold bind. rewrite (open_card_opened s' (open_card_cont s E)). reflexivity.
Qed.

Lemma bind_assoc {A B C} (c : hw A) (k : A -> hw B) (h : B -> hw C)
    (s : hw_state) :
  bind (bind c k) h s = bind c (fun a => bind (k a) h) s.
Proof.
  unfold bind. destruct (c s); reflexivity.
Qed.

(** *** The phases *)

Lemma phase_run_app (l1 l2 : list hw_cmd) : forall ph,
  phase_run ph (l1 ++ l2)
  = match phase_run ph l1 with
    | Some ph' => phase_run ph' l2
    | None => None
    end.
Proof.
  induction l1 as [|c l1 IH]; intro ph; simpl; [reflexivity|].
  destruct (phase_step ph c); [apply IH|reflexivity].
Qed.

Lemma phase_run_polls (ph : phase) (n : nat) :
  ph = Ph_config_erased \/ ph = Ph_firmware_erased ->
  phase_run ph (repeat Cmd_get_erase_progress n) = Some ph.
Proof.
  intro H. induction n as [|n IH]; [reflexivity|].
  simpl. destruct H as [-> | ->]; exact IH.
Qed.

Lemma phase_run_writes (calls : list (Z * Z)) : forall ph,
  ph = Ph_firmware_erased \/ ph = Ph_writing ->
  exists ph', (ph' = Ph_firmware_erased \/ ph' = Ph_writing)
    /\ phase_run ph (map (fun c => Cmd_hwdep_write (fst c) (snd c)) calls)
       = Some ph'.
Proof.
  induction calls as [|c calls IH]; intros ph H.
  - exists ph. split; [exact H|reflexivity].
  - simpl. destruct H as [-> | ->]; simpl; apply IH; right; reflexivity.
Qed.

Lemma in_phase_extend (ph ph' : phase) (s s' : hw_state) (l : list hw_cmd) :
  in_phase ph s -> hwdep s' = true -> issued s' = issued s ++ l ->
  phase_run ph l = Some ph' -> in_phase ph' s'.
Proof.
  intros (_ & l0 & Hi & Hr) Hh Hi' Hr'. split; [exact Hh|].
  exists (l0 ++ l). split.
  - rewrite Hi', Hi. reflexivity.
  - rewrite phase_run_app, Hr. exact Hr'.
Qed.

Lemma ends_in_bind {A B} (P Q : phase -> Prop) (c : hw A) (k : A -> hw B)
    (s : hw_state) :
  ends_in P (c s) ->
  (forall a ph s', P ph -> in_phase ph s' -> ends_in Q (k a s')) ->
  ends_in Q (bind c k s).
Proof.
  intros Hc Hk. unfold bind. destruct (c s) as [a s'|f s'|s']; simpl in Hc.
  - destruct Hc as (ph & HP & Hin). exact (Hk a ph s' HP Hin).
  - exact Hc.
  - exact Hc.
Qed.

Lemma reboot_card_phase (ph : phase) (s : hw_state) :
  in_phase ph s -> ph <> Ph_rebooted ->
  ends_in (fun ph' => ph' = Ph_rebooted) (reboot_card s).
Proof.
  intros Hin Hne. unfold reboot_card, bind.
  rewrite (open_card_opened s (proj1 Hin)). unfold scarlett2_reboot.
  assert (Hin' : in_phase Ph_rebooted (issue Cmd_reboot s)).
  { apply (@in_phase_extend ph Ph_rebooted s _ [Cmd_reboot] Hin).
    - exact (proj1 Hin).
    - reflexivity.
    - destruct ph; try reflexivity. congruence. }
  destruct (reboot_ret (script s) <? 0); simpl.
  - exists Ph_rebooted. exact Hin'.
  - exists Ph_rebooted. split; [reflexivity|exact Hin'].
Qed.

Lemma monitor_erase_progress_issued (s : hw_state) :
  exists n,
    issued (final_state (monitor_erase_progress s))
    = issued s ++ repeat Cmd_get_erase_progress n
    /\ hwdep (final_state (monitor_erase_progress s)) = hwdep s.
Proof.
  unfold monitor_erase_progress.
  destruct (monitor_polls (get_erase_progress_rets (script s))) as [r rest].
  exists (length (get_erase_progress_rets (script s)) - length rest)%nat.
  destruct r; simpl; rewrite issue_all_issued, issue_all_hwdep;
    split; reflexivity.
Qed.

Lemma monitor_erase_progress_phase (ph : phase) (s : hw_state) :
  in_phase ph s -> ph = Ph_config_erased \/ ph = Ph_firmware_erased ->
  ends_in (fun ph' => ph' = ph) (monitor_erase_progress s).
Proof.
  intros Hin Hph.
  destruct (monitor_erase_progress_issued s) as (n & Hi & Hh).
  assert (Hin' : in_phase ph (final_state (monitor_erase_progress s))).
  { apply (@in_phase_extend ph ph s _ (repeat Cmd_get_erase_progress n) Hin).
    - rewrite Hh. exact (proj1 Hin).
    - exact Hi.
    - apply phase_run_polls. exact Hph. }
  destruct (monitor_erase_progress s); simpl in *.
  - exists ph. split; [reflexivity|exact Hin'].
  - exists ph. exact Hin'.
  - exists ph. exact Hin'.
Qed.

Lemma reset_config_phase (s : hw_state) :
  in_phase Ph_opened s ->
  ends_in (fun ph' => ph' = Ph_config_erased) (reset_config s).
Proof.
  intro Hin. unfold reset_config, bind at 1.
  rewrite (open_card_opened s (proj1 Hin)). unfold bind, scarlett2_erase_config.
  assert (Hin' : in_phase Ph_config_erased (issue Cmd_erase_config s)).
  { apply (@in_phase_extend _ Ph_config_erased s _ [Cmd_erase_config] Hin).
    - exact (proj1 Hin).
    - reflexivity.
    - reflexivity. }
  destruct (erase_config_ret (script s) <? 0).
  - simpl. exists Ph_config_erased. exact Hin'.
  - apply monitor_erase_progress_phase; [exact Hin'|left; reflexivity].
Qed.

Lemma erase_firmware_phase (s : hw_state) :
  in_phase Ph_config_erased s ->
  ends_in (fun ph' => ph' = Ph_firmware_erased) (erase_firmware s).
Proof.
  intro Hin. unfold erase_firmware, bind at 1.
  rewrite (open_card_opened s (proj1 Hin)).
  unfold bind, scarlett2_erase_firmware.
  assert (Hin' : in_phase Ph_firmware_erased (issue Cmd_erase_firmware s)).
  { apply (@in_phase_extend _ Ph_firmware_erased s _ [Cmd_erase_firmware] Hin).
    - exact (proj1 Hin).
    - reflexivity.
    - reflexivity. }
  destruct (erase_firmware_ret (script s) <? 0).
  - simpl. exists Ph_firmware_erased. exact Hin'.
  - apply monitor_erase_progress_phase; [exact Hin'|right; reflexivity].
Qed.

Lemma write_selected_firmware_issued
    (fw : scarlett2_firmware_file) (s : hw_state) :
  let w := write_firmware (hwdep_write_rets (script s))
             (firmware_length (header fw)) in
  issued (final_state (write_selected_firmware fw s))
  = issued s ++ map (fun c => Cmd_hwdep_write (fst c) (snd c)) (w_calls w)
  /\ hwdep (final_state (write_selected_firmware fw s)) = hwdep s.
Proof.
  cbv zeta. unfold write_selected_firmware. cbv zeta.
  destruct (w_result (write_firmware (hwdep_write_rets (script s))
                        (firmware_length (header fw))));
    simpl; rewrite issue_all_issued, issue_all_hwdep; split; reflexivity.
Qed.

Lemma update_firmware_phase (fw : scarlett2_firmware_file) (s : hw_state) :
  in_phase Ph_firmware_erased s ->
  ends_in (fun ph' => ph' = Ph_firmware_erased \/ ph' = Ph_writing)
          (update_firmware fw s).
Proof.
  intro Hin. unfold update_firmware, bind.
  rewrite (open_card_opened s (proj1 Hin)).
  destruct (write_selected_firmware_issued fw s) as (Hi & Hh).
  destruct (phase_run_writes
              (w_calls (write_firmware (hwdep_write_rets (script s))
                          (firmware_length (header fw))))
              (or_introl eq_refl : Ph_firmware_erased = Ph_firmware_erased
                                   \/ Ph_firmware_erased = Ph_writing))
    as (ph' & Hph' & Hr).
  assert (Hin' : in_phase ph' (final_state (write_selected_firmware fw s))).
  { refine (@in_phase_extend _ ph' s _ _ Hin _ Hi Hr).
    rewrite Hh. exact (proj1 Hin). }
  destruct (write_selected_firmware fw s); simpl in *.
  - exists ph'. split; [exact Hph'|exact Hin'].
  - exists ph'. exact Hin'.
  - exists ph'. exact Hin'.
Qed.

Lemma first_open {B C} (body : hw B) (h : B -> hw C) (s : hw_state) :
  bind (open_card ;;; body) h s
  = (open_card ;;; bind (open_card ;;; body) h) s.
Proof.
  unfold bind. destruct (open_card s) as [u s'| |] eqn:E; try reflexivity.
  rewrite (open_card_opened s' (open_card_cont s E)). reflexivity.
Qed.

Lemma bind_lift_ok {A B} (a : A) (k : A -> hw B) (s : hw_state) :
  bind (lift (Ok a)) k s = k a s.
Proof. reflexivity. Qed.

Lemma bind_lift_err {A B} (f : fatal) (k : A -> hw B) (s : hw_state) :
  bind (lift (Err f)) k s = Exit f s.
Proof. reflexivity. Qed.

Lemma device_run (c0 : card_script) (p : hw unit) :
  (forall s, p s = (open_card ;;; p) s) ->
  (forall s, in_phase Ph_opened s ->
             ends_in (fun ph => ph = Ph_rebooted) (p s)) ->
  let r := p (initial_hw c0) in
  let tr := issued (final_state r) in
  (open_card_ret c0 < 0 /\ tr = [Cmd_open_card])
  \/ (0 <= open_card_ret c0 /\ ~ handshake_ok c0
      /\ tr = [Cmd_open_card; Cmd_get_protocol_version])
  \/ (handshake_ok c0
      /\ exists l ph,
           tr = Cmd_open_card :: Cmd_get_protocol_version :: l
           /\ phase_run Ph_opened l = Some ph
           /\ forall s, r = Cont tt s -> ph = Ph_rebooted).
Proof.
  intros Hopen Hp. cbv zeta. rewrite Hopen. unfold bind.
  destruct (open_card_closed (initial_hw c0) eq_refl)
    as [(Ho & s1 & H1 & Hi)|[(Ho & Hn & f & s1 & H1 & Hi)
                            |(Hok & s1 & H1 & Hh & _ & _ & _ & Hi)]];
    rewrite H1.
  - left. split; [exact Ho|exact Hi].
  - right. left. split; [exact Ho|]. split; [exact Hn|exact Hi].
  - right. right. split; [exact Hok|].
    assert (Hin : in_phase Ph_opened s1).
    { split; [exact Hh|]. exists []. split; [exact Hi|reflexivity]. }
    specialize (Hp s1 Hin).
    destruct (p s1) as [u s2|f s2|s2]; simpl in Hp |- *.
    + destruct Hp as (ph & -> & _ & l & Hl & Hr).
      exists l, Ph_rebooted. split; [exact Hl|]. split; [exact Hr|].
      intros; reflexivity.
    + destruct Hp as (ph & _ & l & Hl & Hr).
      exists l, ph. split; [exact Hl|]. split; [exact Hr|].
      intros; discriminate.
    + destruct Hp as (ph & _ & l & Hl & Hr).
      exists l, ph. split; [exact Hl|]. split; [exact Hr|].
      intros; discriminate.
Qed.

Lemma reset_then_reboot_phase (s : hw_state) :
  in_phase Ph_opened s ->
  ends_in (fun ph => ph = Ph_rebooted) ((reset_config ;;; reboot_card) s).
Proof.
  intro Hin. eapply ends_in_bind; [exact (reset_config_phase Hin)|]. cbv beta.
  intros _ ph s' -> Hin'. apply (reboot_card_phase Hin'). discriminate.
Qed.

Lemma erase_then_reboot_phase (s : hw_state) :
  in_phase Ph_opened s ->
  ends_in (fun ph => ph = Ph_rebooted)
          ((reset_config ;;; erase_firmware ;;; reboot_card) s).
Proof.
  intro Hin. eapply ends_in_bind; [exact (reset_config_phase Hin)|]. cbv beta.
  intros _ ph s' -> Hin'.
  eapply ends_in_bind; [exact (erase_firmware_phase Hin')|]. cbv beta.
  intros _ ph s'' -> Hin''. apply (reboot_card_phase Hin''). discriminate.
Qed.

Lemma update_then_reboot_phase (fw : scarlett2_firmware_file) (s : hw_state) :
  in_phase Ph_opened s ->
  ends_in (fun ph => ph = Ph_rebooted)
          ((reset_config ;;; erase_firmware ;;; update_firmware fw ;;;
            reboot_card) s).
Proof.
  intro Hin. eapply ends_in_bind; [exact (reset_config_phase Hin)|]. cbv beta.
  intros _ ph s' -> Hin'.
  eapply ends_in_bind; [exact (erase_firmware_phase Hin')|]. cbv beta.
  intros _ ph s'' -> Hin''.
  eapply ends_in_bind; [exact (update_firmware_phase fw Hin'')|]. cbv beta.
  intros _ ph s3 Hph Hin3. apply (reboot_card_phase Hin3).
  destruct Hph as [-> | ->]; discriminate.
Qed.

(** X14: The commands of a run come in one order. Nothing is sent, or the
    card cannot be opened and only that was tried, or the protocol
    version is refused and nothing follows the handshake, or the
    handshake succeeded and what follows keeps to the order erase the
    configuration, erase the firmware, write, reboot; a run that returns
    after sending something has ended with the reboot. *)
Theorem commands_in_order (args : arguments) (env : environment) :
  let r := snd (main args env) in
  let tr := issued (final_state r) in
  tr = []
  \/ (open_card_ret (card env) < 0 /\ tr = [Cmd_open_card])
  \/ (0 <= open_card_ret (card env) /\ ~ handshake_ok (card env)
      /\ tr = [Cmd_open_card; Cmd_get_protocol_version])
  \/ (handshake_ok (card env)
      /\ exists l ph,
           tr = Cmd_open_card :: Cmd_get_protocol_version :: l
           /\ phase_run Ph_opened l = Some ph
           /\ forall s, r = Cont tt s -> ph = Ph_rebooted).
Proof.
  cbv zeta. unfold main. cbv zeta.
  set (c := match command args with Some c => c | None => "list"%string end).
  destruct (c =? "help")%string; [left; reflexivity|].
  destruct (c =? "about")%string; [left; reflexivity|].
  destruct (c =? "list")%string; [left; reflexivity|].
  destruct (c =? "list-all")%string; [left; reflexivity|].
  destruct (c =? "reboot")%string.
  { cbn [snd].
    destruct (check_card_selection (found_cards env) (selected_card_num args));
      [rewrite bind_lift_ok|rewrite bind_lift_err; left; reflexivity].
    right. apply device_run.
    - intro s. symmetry. apply open_card_absorbed.
    - intros s Hin. apply (reboot_card_phase Hin). discriminate. }
  destruct (c =? "reset-config")%string.
  { cbn [snd].
    destruct (check_card_selection (found_cards env) (selected_card_num args));
      [rewrite bind_lift_ok|rewrite bind_lift_err; left; reflexivity].
    right. apply device_run.
    - intro s. apply first_open.
    - apply reset_then_reboot_phase. }
  destruct (c =? "erase-firmware")%string.
  { cbn [snd].
    destruct (check_card_selection (found_cards env) (selected_card_num args));
      [rewrite bind_lift_ok|rewrite bind_lift_err; left; reflexivity].
    right. apply device_run.
    - intro s. apply first_open.
    - apply erase_then_reboot_phase. }
  destruct (c =? "update")%string; [|left; reflexivity].
  destruct (enum_firmwares (scan_fs env) (firmware_exec_dir env))
    as [found warnings].
  cbn [snd].
  destruct (check_card_selection (found_cards env) (selected_card_num args))
    as [sc|f]; [rewrite bind_lift_ok|rewrite bind_lift_err; left; reflexivity].
  destruct (check_firmware_selection (load_fs env) found sc
              (selected_firmware_version args)) as [sel|f];
    [rewrite bind_lift_ok|rewrite bind_lift_err; left; reflexivity].
  right. apply device_run.
  - intro s. apply first_open.
  - apply update_then_reboot_phase.
Qed.

(** *** What each command may send *)

Ltac feed H :=
  match type of H with
  | ?P -> _ => let HP := fresh in assert (HP : P); [|specialize (H HP); clear HP]
  end.

Lemma emits_bind {A B} (P : hw_cmd -> Prop) (c : hw A) (k : A -> hw B) :
  emits P c -> (forall a, emits P (k a)) -> emits P (bind c k).
Proof.
  intros Hc Hk s. unfold bind. destruct (Hc s) as (l & Hi & Hf).
  destruct (c s) as [a s'|f s'|s']; simpl in Hi.
  - destruct (Hk a s') as (l' & Hi' & Hf'). exists (l ++ l'). split.
    + rewrite Hi', Hi. symmetry. apply app_assoc.
    + apply Forall_app. split; assumption.
  - exists l. split; assumption.
  - exists l. split; assumption.
Qed.

Lemma emits_weaken {A} (P Q : hw_cmd -> Prop) (c : hw A) :
  (forall x, P x -> Q x) -> emits P c -> emits Q c.
Proof.
  intros HPQ Hc s. destruct (Hc s) as (l & Hi & Hf). exists l.
  split; [exact Hi|]. exact (Forall_impl Q HPQ Hf).
Qed.

Lemma emits_nothing {A} (P : hw_cmd -> Prop) (c : hw A) :
  (forall s, final_state (c s) = s) -> emits P c.
Proof.
  intros H s. exists []. rewrite H. split; [symmetry; apply app_nil_r|].
  constructor.
Qed.

Lemma emits_lift {A} (P : hw_cmd -> Prop) (r : result fatal A) :
  emits P (lift r).
Proof.
  apply emits_nothing. intro s. destruct r; reflexivity.
Qed.

Lemma emits_open_card :
  emits (fun c => command_level c = 0%nat) open_card.
Proof.
  intro s. destruct (hwdep s) eqn:E.
  - rewrite (open_card_opened s E). exists []. split.
    + symmetry. apply app_nil_r.
    + constructor.
  - destruct (open_card_closed s E)
      as [(_ & s1 & H1 & Hi)|[(_ & _ & f & s1 & H1 & Hi)
                             |(_ & s1 & H1 & _ & _ & _ & _ & Hi)]];
      rewrite H1; simpl; eexists; (split; [exact Hi|]);
      repeat constructor.
Qed.

Lemma emits_reboot_card :
  emits (fun c => command_level c = 0%nat) reboot_card.
Proof.
  unfold reboot_card. apply emits_bind; [exact emits_open_card|]. intros _.
  apply emits_bind.
  - intro s. exists [Cmd_reboot]. split; [reflexivity|]. repeat constructor.
  - intro err. apply emits_nothing. intro s.
    destruct (err <? 0); reflexivity.
Qed.

Lemma emits_monitor_erase_progress :
  emits (fun c => (command_level c <= 1)%nat) monitor_erase_progress.
Proof.
  intro s. destruct (monitor_erase_progress_issued s) as (n & Hi & _).
  exists (repeat Cmd_get_erase_progress n). split; [exact Hi|].
  apply Forall_forall. intros x Hx. apply repeat_spec in Hx. subst x.
  simpl. apply le_n.
Qed.

Lemma emits_reset_config :
  emits (fun c => (command_level c <= 1)%nat) reset_config.
Proof.
  unfold reset_config. apply emits_bind.
  - apply (emits_weaken (P := fun c => command_level c = 0%nat));
      [|exact emits_open_card].
    intros x ->. apply Nat.le_0_l.
  - intros _. apply emits_bind.
    + intro s. exists [Cmd_erase_config]. split; [reflexivity|].
      repeat constructor.
    + intro err. destruct (err <? 0).
      * apply emits_nothing. reflexivity.
      * exact emits_monitor_erase_progress.
Qed.

Lemma emits_erase_firmware :
  emits (fun c => (command_level c <= 2)%nat) erase_firmware.
Proof.
  unfold erase_firmware. apply emits_bind.
  - apply (emits_weaken (P := fun c => command_level c = 0%nat));
      [|exact emits_open_card].
    intros x ->. apply Nat.le_0_l.
  - intros _. apply emits_bind.
    + intro s. exists [Cmd_erase_firmware]. split; [reflexivity|].
      repeat constructor.
    + intro err. destruct (err <? 0).
      * apply emits_nothing. reflexivity.
      * apply (emits_weaken (P := fun c => (command_level c <= 1)%nat));
          [|exact emits_monitor_erase_progress].
        intros x Hx. apply (Nat.le_trans _ 1); [exact Hx|repeat constructor].
Qed.

Lemma emits_update_firmware (fw : scarlett2_firmware_file) :
  emits (fun c => (command_level c <= 3)%nat) (update_firmware fw).
Proof.
  unfold update_firmware. apply emits_bind.
  - apply (emits_weaken (P := fun c => command_level c = 0%nat));
      [|exact emits_open_card].
    intros x ->. apply Nat.le_0_l.
  - intros _ s. destruct (write_selected_firmware_issued fw s) as (Hi & _).
    eexists. split; [exact Hi|].
    apply Forall_forall. intros x Hx. apply in_map_iff in Hx.
    destruct Hx as (y & <- & _). simpl. apply le_n.
Qed.

Lemma emits_from_initial {A} (P : hw_cmd -> Prop) (c : hw A)
    (c0 : card_script) :
  emits P c -> Forall P (issued (final_state (c (initial_hw c0)))).
Proof.
  intro H. destruct (H (initial_hw c0)) as (l & Hi & Hf). rewrite Hi.
  exact Hf.
Qed.

(** X15: Which command sends what: the commands that only print send nothing;
    [reboot] erases nothing; only [erase-firmware] and [update] erase the
    firmware; only [update] writes. *)
Theorem commands_by_command (args : arguments) (env : environment) :
  let tr := issued (final_state (snd (main args env))) in
  (tr <> [] ->
   command args = Some "reboot"%string
   \/ command args = Some "reset-config"%string
   \/ command args = Some "erase-firmware"%string
   \/ command args = Some "update"%string)
  /\ (In Cmd_erase_config tr \/ In Cmd_get_erase_progress tr ->
      command args = Some "reset-config"%string
      \/ command args = Some "erase-firmware"%string
      \/ command args = Some "update"%string)
  /\ (In Cmd_erase_firmware tr ->
      command args = Some "erase-firmware"%string
      \/ command args = Some "update"%string)
  /\ (forall offset count, In (Cmd_hwdep_write offset count) tr ->
      command args = Some "update"%string).
Proof.
  cbv zeta.
  assert (Hlevel : forall n,
    Forall (fun c => (command_level c <= n)%nat)
           (issued (final_state (snd (main args env)))) ->
    (forall x, In x (issued (final_state (snd (main args env)))) ->
               (command_level x <= n)%nat)).
  { intros n H. apply Forall_forall. exact H. }
  assert (Hnone : issued (final_state (snd (main args env))) = [] ->
    (issued (final_state (snd (main args env))) <> [] -> False)
    /\ (forall x, In x (issued (final_state (snd (main args env)))) -> False)).
  { intro H. rewrite H. split; [intro H'; exact (H' eq_refl)|].
    intros x []. }
  revert Hlevel Hnone. unfold main. cbv zeta.
  destruct (command args) as [c|].
  2:{ intros _ Hnone. destruct (Hnone eq_refl) as (H1 & H2).
      split; [intro H; destruct (H1 H)|].
      split; [intros [H|H]; destruct (H2 _ H)|].
      split; [intro H; destruct (H2 _ H)|].
      intros o n H; destruct (H2 _ H). }
  assert (Hquiet : forall r : list scan_warning * step unit,
    issued (final_state (snd r)) = [] ->
    (issued (final_state (snd r)) <> [] ->
     Some c = Some "reboot"%string \/ Some c = Some "reset-config"%string
     \/ Some c = Some "erase-firmware"%string \/ Some c = Some "update"%string)
    /\ (In Cmd_erase_config (issued (final_state (snd r)))
        \/ In Cmd_get_erase_progress (issued (final_state (snd r))) ->
        Some c = Some "reset-config"%string
        \/ Some c = Some "erase-firmware"%string
        \/ Some c = Some "update"%string)
    /\ (In Cmd_erase_firmware (issued (final_state (snd r))) ->
        Some c = Some "erase-firmware"%string \/ Some c = Some "update"%string)
    /\ (forall offset count,
          In (Cmd_hwdep_write offset count) (issued (final_state (snd r))) ->
          Some c = Some "update"%string)).
  { intros r H. rewrite H. split; [intro H'; destruct (H' eq_refl)|].
    split; [intros [[]|[]]|]. split; [intros []|intros o n []]. }
  destruct (c =? "help")%string; [intros; apply Hquiet; reflexivity|].
  destruct (c =? "about")%string; [intros; apply Hquiet; reflexivity|].
  destruct (c =? "list")%string; [intros; apply Hquiet; reflexivity|].
  destruct (c =? "list-all")%string; [intros; apply Hquiet; reflexivity|].
  destruct (c =? "reboot")%string eqn:E5.
  { apply String.eqb_eq in E5. subst c. intros Hlevel _.
    split; [intros _; left; reflexivity|].
    specialize (Hlevel 0%nat). feed Hlevel.
    { cbn [snd].
      apply (emits_from_initial
               (P := fun c => (command_level c <= 0)%nat)).
      apply emits_bind; [apply emits_lift|]. intros _.
      apply (emits_weaken (P := fun c => command_level c = 0%nat));
        [|exact emits_reboot_card].
      intros x ->. apply le_n. }
    split; [intros [H|H]; apply Hlevel in H; simpl in H; inversion H|].
    split; [intro H; apply Hlevel in H; simpl in H; inversion H|].
    intros o n H; apply Hlevel in H; simpl in H; inversion H. }
  destruct (c =? "reset-config")%string eqn:E6.
  { apply String.eqb_eq in E6. subst c. intros Hlevel _.
    split; [intros _; right; left; reflexivity|].
    split; [intros _; left; reflexivity|].
    specialize (Hlevel 1%nat). feed Hlevel.
    { cbn [snd].
      apply (emits_from_initial
               (P := fun c => (command_level c <= 1)%nat)).
      apply emits_bind; [apply emits_lift|]. intros _.
      apply emits_bind; [exact emits_reset_config|]. intros _.
      apply (emits_weaken (P := fun c => command_level c = 0%nat));
        [|exact emits_reboot_card].
      intros x ->. apply Nat.le_0_l. }
    split; [intro H; apply Hlevel in H; simpl in H; inversion H as [|? H']; inversion H'|].
    intros o n H; apply Hlevel in H; simpl in H; inversion H as [|? H']; inversion H'. }
  destruct (c =? "erase-firmware")%string eqn:E7.
  { apply String.eqb_eq in E7. subst c. intros Hlevel _.
    split; [intros _; right; right; left; reflexivity|].
    split; [intros _; right; left; reflexivity|].
    split; [intros _; left; reflexivity|].
    specialize (Hlevel 2%nat). feed Hlevel.
    { cbn [snd].
      apply (emits_from_initial
               (P := fun c => (command_level c <= 2)%nat)).
      apply emits_bind; [apply emits_lift|]. intros _.
      apply emits_bind.
      { apply (emits_weaken (P := fun c => (command_level c <= 1)%nat));
          [|exact emits_reset_config].
        intros x Hx. apply (Nat.le_trans _ 1); [exact Hx|repeat constructor]. }
      intros _.
      apply emits_bind; [exact emits_erase_firmware|]. intros _.
      apply (emits_weaken (P := fun c => command_level c = 0%nat));
        [|exact emits_reboot_card].
      intros x ->. apply Nat.le_0_l. }
    intros o n H; apply Hlevel in H; simpl in H.
    inversion H as [|? H']; inversion H' as [|? H'']; inversion H''. }
  destruct (c =? "update")%string eqn:E8.
  { apply String.eqb_eq in E8. subst c. intros _ _.
    split; [intros _; right; right; right; reflexivity|].
    split; [intros _; right; right; reflexivity|].
    split; [intros _; right; reflexivity|].
    intros; reflexivity. }
  intros; apply Hquiet; reflexivity.
Qed.

(** *** A run that returns *)

Lemma issue_all_eq (cs : list hw_cmd) : forall s,
  issue_all cs s
  = {| script := script s; hwdep := hwdep s;
       protocol_version := protocol_version s;
       issued := issued s ++ cs;
       printed_write_progress := printed_write_progress s |}.
Proof.
  unfold issue_all. induction cs as [|c cs IH]; intro s; simpl.
  - rewrite app_nil_r. destruct s; reflexivity.
  - rewrite IH. simpl. rewrite <- app_assoc. reflexivity.
Qed.

Lemma bind_cont {A B} (c : hw A) (k : A -> hw B) (s s2 : hw_state) (b : B) :
  bind c k s = Cont b s2 ->
  exists a s1, c s = Cont a s1 /\ k a s1 = Cont b s2.
Proof.
  unfold bind. destruct (c s) as [a s1| |]; try discriminate.
  intro H. exists a, s1. split; [reflexivity|exact H].
Qed.

Lemma open_card_cont_initial (c0 : card_script) (s' : hw_state) (u : unit) :
  open_card (initial_hw c0) = Cont u s' ->
  handshake_ok c0
  /\ s' = {| script := c0; hwdep := true;
             protocol_version := get_protocol_version_ret c0;
             issued := [Cmd_open_card; Cmd_get_protocol_version];
             printed_write_progress := [] |}.
Proof.
  intro H.
  destruct (open_card_closed (initial_hw c0) eq_refl)
    as [(_ & s1 & H1 & _)|[(_ & _ & f & s1 & H1 & _)
                          |(Hok & s1 & H1 & Hh & Hs & Hv & Hp & Hi)]];
    rewrite H1 in H; try discriminate.
  injection H as _ <-. split; [exact Hok|].
  destruct s1; simpl in *. subst. reflexivity.
Qed.

Lemma monitor_erase_progress_cont (s s' : hw_state) (u : unit) :
  monitor_erase_progress s = Cont u s' ->
  exists pre rest,
    get_erase_progress_rets (script s) = pre ++ 255 :: rest
    /\ ~ In 255 pre
    /\ s' = {| script := with_erase_progress_rets rest (script s);
               hwdep := hwdep s;
               protocol_version := protocol_version s;
               issued := issued s
                         ++ repeat Cmd_get_erase_progress (S (length pre));
               printed_write_progress := printed_write_progress s |}.
Proof.
  unfold monitor_erase_progress.
  destruct (monitor_polls (get_erase_progress_rets (script s)))
    as [r rest] eqn:E.
  destruct r; try discriminate. intro H. injection H as _ <-.
  unfold monitor_polls in E.
  assert (N0 : 0 <> 255) by (intro C; discriminate C).
  destruct (monitor_loop_done _ _ _ N0 E) as (pre & Hp & HF & _).
  exists pre, rest. split; [exact Hp|]. split.
  - intro C. rewrite Forall_forall in HF. destruct (HF _ C) as (_ & _ & N).
    exact (N eq_refl).
  - rewrite issue_all_eq. cbn [script hwdep protocol_version issued
                               printed_write_progress set_script].
    replace (length (get_erase_progress_rets (script s)) - length rest)%nat
      with (S (length pre)); [reflexivity|].
    rewrite Hp, length_app. cbn [length]. lia.
Qed.

Lemma reset_config_cont (s s' : hw_state) (u : unit) :
  hwdep s = true -> reset_config s = Cont u s' ->
  0 <= erase_config_ret (script s)
  /\ exists pre rest,
       get_erase_progress_rets (script s) = pre ++ 255 :: rest
       /\ ~ In 255 pre
       /\ s' = {| script := with_erase_progress_rets rest (script s);
                  hwdep := true;
                  protocol_version := protocol_version s;
                  issued := issued s ++ Cmd_erase_config
                              :: repeat Cmd_get_erase_progress (S (length pre));
                  printed_write_progress := printed_write_progress s |}.
Proof.
  intros Hh H. unfold reset_config, bind at 1 in H.
  rewrite (open_card_opened s Hh) in H.
  unfold bind, scarlett2_erase_config in H.
  destruct (erase_config_ret (script s) <? 0) eqn:Ee; [discriminate|].
  apply Z.ltb_ge in Ee. split; [exact Ee|].
  destruct (monitor_erase_progress_cont _ H) as (pre & rest & Hp & Hn & ->).
  exists pre, rest. split; [exact Hp|]. split; [exact Hn|].
  cbn [script hwdep protocol_version issued printed_write_progress issue].
  rewrite Hh, <- app_assoc. reflexivity.
Qed.

Lemma erase_firmware_cont (s s' : hw_state) (u : unit) :
  hwdep s = true -> erase_firmware s = Cont u s' ->
  0 <= erase_firmware_ret (script s)
  /\ exists pre rest,
       get_erase_progress_rets (script s) = pre ++ 255 :: rest
       /\ ~ In 255 pre
       /\ s' = {| script := with_erase_progress_rets rest (script s);
                  hwdep := true;
                  protocol_version := protocol_version s;
                  issued := issued s ++ Cmd_erase_firmware
                              :: repeat Cmd_get_erase_progress (S (length pre));
                  printed_write_progress := printed_write_progress s |}.
Proof.
  intros Hh H. unfold erase_firmware, bind at 1 in H.
  rewrite (open_card_opened s Hh) in H.
  unfold bind, scarlett2_erase_firmware in H.
  destruct (erase_firmware_ret (script s) <? 0) eqn:Ee; [discriminate|].
  apply Z.ltb_ge in Ee. split; [exact Ee|].
  destruct (monitor_erase_progress_cont _ H) as (pre & rest & Hp & Hn & ->).
  exists pre, rest. split; [exact Hp|]. split; [exact Hn|].
  cbn [script hwdep protocol_version issued printed_write_progress issue].
  rewrite Hh, <- app_assoc. reflexivity.
Qed.

Lemma update_firmware_cont (fw : scarlett2_firmware_file)
    (s s' : hw_state) (u : unit) :
  hwdep s = true -> update_firmware fw s = Cont u s' ->
  let w := write_firmware (hwdep_write_rets (script s))
             (firmware_length (header fw)) in
  w_result w = Write_done
  /\ s' = {| script := with_hwdep_write_rets (w_rest w) (script s);
             hwdep := true;
             protocol_version := protocol_version s;
             issued := issued s
                       ++ map (fun c => Cmd_hwdep_write (fst c) (snd c))
                              (w_calls w);
             printed_write_progress :=
               printed_write_progress s ++ w_progress w |}.
Proof.
  intros Hh H. cbv zeta. unfold update_firmware, bind in H.
  rewrite (open_card_opened s Hh) in H.
  unfold write_selected_firmware in H. cbv zeta in H.
  destruct (w_result (write_firmware (hwdep_write_rets (script s))
                        (firmware_length (header fw)))); try discriminate.
  split; [reflexivity|]. injection H as _ <-.
  rewrite issue_all_eq.
  cbn [script hwdep protocol_version issued printed_write_progress set_script].
  rewrite Hh. reflexivity.
Qed.

Lemma reboot_card_cont (s s' : hw_state) (u : unit) :
  hwdep s = true -> reboot_card s = Cont u s' ->
  0 <= reboot_ret (script s) /\ s' = issue Cmd_reboot s.
Proof.
  intros Hh H. unfold reboot_card, bind at 1 in H.
  rewrite (open_card_opened s Hh) in H.
  unfold bind, scarlett2_reboot in H.
  destruct (reboot_ret (script s) <? 0) eqn:Ee; [discriminate|].
  apply Z.ltb_ge in Ee. split; [exact Ee|]. injection H as _ <-. reflexivity.
Qed.

(** X16: An update that returns has done every step: one card and one
    firmware file were selected, the handshake and every command were
    accepted, each erase was polled up to its first 255, the write loop
    ran to the end of the payload, and the commands were sent in exactly
    this order, the reboot last. *)
Theorem update_returns_after_every_step
    (args : arguments) (env : environment) (s : hw_state) :
  command args = Some "update"%string ->
  snd (main args env) = Cont tt s ->
  exists sc ff file pre1 pre2 rest,
    check_card_selection (found_cards env) (selected_card_num args) = Ok sc
    /\ check_firmware_selection (load_fs env)
         (fst (enum_firmwares (scan_fs env) (firmware_exec_dir env)))
         sc (selected_firmware_version args) = Ok (ff, file)
    /\ handshake_ok (card env)
    /\ 0 <= erase_config_ret (card env)
    /\ 0 <= erase_firmware_ret (card env)
    /\ 0 <= reboot_ret (card env)
    /\ get_erase_progress_rets (card env)
       = pre1 ++ 255 :: pre2 ++ 255 :: rest
    /\ ~ In 255 pre1 /\ ~ In 255 pre2
    /\ let w := write_firmware (hwdep_write_rets (card env))
                  (firmware_length (header file)) in
       w_result w = Write_done
       /\ issued s
          = [Cmd_open_card; Cmd_get_protocol_version; Cmd_erase_config]
            ++ repeat Cmd_get_erase_progress (S (length pre1))
            ++ [Cmd_erase_firmware]
            ++ repeat Cmd_get_erase_progress (S (length pre2))
            ++ map (fun c => Cmd_hwdep_write (fst c) (snd c)) (w_calls w)
            ++ [Cmd_reboot]
       /\ printed_write_progress s = w_progress w
       /\ protocol_version s = get_protocol_version_ret (card env).
Proof.
  intros Hc H. rewrite (main_update _ _ Hc) in H. cbn [snd] in H.
  destruct (check_card_selection (found_cards env) (selected_card_num args))
    as [sc|f] eqn:Esc;
    [rewrite bind_lift_ok in H|rewrite bind_lift_err in H; discriminate].
  destruct (check_firmware_selection (load_fs env)
              (fst (enum_firmwares (scan_fs env) (firmware_exec_dir env)))
              sc (selected_firmware_version args)) as [[ff file]|f] eqn:Eff;
    [rewrite bind_lift_ok in H|rewrite bind_lift_err in H; discriminate].
  cbn [snd] in H. unfold reset_config at 1 in H. rewrite first_open in H.
  fold reset_config in H.
  apply bind_cont in H. destruct H as (u0 & s0 & H0 & H).
  destruct (open_card_cont_initial _ H0) as (Hok & ->).
  apply bind_cont in H. destruct H as (u1 & s1 & H1 & H).
  apply reset_config_cont in H1; [|reflexivity]. destruct H1
    as (Hec & pre1 & rest1 & Hp1 & Hn1 & ->).
  apply bind_cont in H. destruct H as (u2 & s2 & H2 & H).
  apply erase_firmware_cont in H2; [|reflexivity]. destruct H2
    as (Hef & pre2 & rest2 & Hp2 & Hn2 & ->).
  apply bind_cont in H. destruct H as (u3 & s3 & H3 & H).
  apply update_firmware_cont in H3; [|reflexivity]. destruct H3 as (Hw & ->).
  apply reboot_card_cont in H; [|reflexivity]. destruct H as (Hr & ->).
  cbn [script hwdep protocol_version issued printed_write_progress
       with_erase_progress_rets with_hwdep_write_rets
       open_card_ret get_protocol_version_ret erase_config_ret
       erase_firmware_ret reboot_ret get_erase_progress_rets
       hwdep_write_rets issue] in *.
  exists sc, ff, file, pre1, pre2, rest2.
  split; [reflexivity|]. split; [exact Eff|]. split; [exact Hok|].
  split; [exact Hec|]. split; [exact Hef|]. split; [exact Hr|].
  split; [rewrite Hp1, Hp2; reflexivity|].
  split; [exact Hn1|]. split; [exact Hn2|].
  split; [exact Hw|]. split; [|split; reflexivity].
  rewrite <- !app_assoc. reflexivity.
Qed.

(** ** The catalog after the scan *)

Lemma enum_firmware_dir_from fs dirname st ff :
  In ff (fst (enum_firmware_dir fs dirname st)) ->
  In ff (fst st)
  \/ exists names d_name,
       opendir fs dirname = Dir_entries names
       /\ In d_name names /\ has_bin d_name = true
       /\ fn ff = (dirname ++ "/" ++ d_name)%string
       /\ scarlett2_read_firmware_header (fopen fs (fn ff)) = Ok (firmware ff)
       /\ usb_vid (firmware ff) = VENDOR_VID.
Proof.
  unfold enum_firmware_dir. intro H.
  destruct (opendir fs dirname) as [names| |]; cbn [fst] in H;
    [|left; exact H|left; exact H].
  destruct (enum_firmware_entries_sound _ _ _ _ _ H)
    as [L | (d & H1 & H2 & H3 & H4 & H5)]; [left; exact L|].
  right. exists names, d. split; [reflexivity|].
  repeat (split; [assumption|]). assumption.
Qed.

Lemma read_firmware_header_ranges (opened : option (list byte))
    (h : scarlett2_firmware_header) :
  scarlett2_read_firmware_header opened = Ok h ->
  0 <= usb_vid h < 2 ^ 16 /\ 0 <= usb_pid h < 2 ^ 16
  /\ 0 <= firmware_version h < 2 ^ 32 /\ 0 <= firmware_length h < 2 ^ 32.
Proof.
  unfold scarlett2_read_firmware_header. destruct opened as [file|];
    [|discriminate].
  destruct (read_header file) as [[h' rest]|e] eqn:E; [|discriminate].
  intro H. injection H as <-. exact (read_header_ranges _ E).
Qed.

(** X17: Every entry of the catalog comes from a file of the directory of the
    executable or of the system directory whose name contains ".bin";
    its header is the one read from that file, with the vendor's id, and
    its product id, version and length are 16-bit and 32-bit values. *)
Theorem enum_firmwares_sound (fs : filesystem) (exec_dir : option string)
    (ff : found_firmware) :
  (forall l, Permutation l (qsort l)) ->
  In ff (fst (enum_firmwares fs exec_dir)) ->
  (exists dirname names d_name,
     (exec_dir = Some dirname \/ dirname = SYSTEM_FIRMWARE_DIR)
     /\ opendir fs dirname = Dir_entries names
     /\ In d_name names /\ has_bin d_name = true
     /\ fn ff = (dirname ++ "/" ++ d_name)%string)
  /\ scarlett2_read_firmware_header (fopen fs (fn ff)) = Ok (firmware ff)
  /\ usb_vid (firmware ff) = VENDOR_VID
  /\ 0 <= usb_pid (firmware ff) < 2 ^ 16
  /\ 0 <= firmware_version (firmware ff) < 2 ^ 32
  /\ 0 <= firmware_length (firmware ff) < 2 ^ 32.
Proof.
  intros Hq H. unfold enum_firmwares in H. cbn [fst] in H.
  apply (Permutation_in _ (Permutation_sym (Hq _))) in H.
  assert (W : exists dirname names d_name,
             (exec_dir = Some dirname \/ dirname = SYSTEM_FIRMWARE_DIR)
             /\ opendir fs dirname = Dir_entries names
             /\ In d_name names /\ has_bin d_name = true
             /\ fn ff = (dirname ++ "/" ++ d_name)%string
             /\ scarlett2_read_firmware_header (fopen fs (fn ff))
                = Ok (firmware ff)
             /\ usb_vid (firmware ff) = VENDOR_VID).
  { destruct (enum_firmware_dir_from _ _ _ _ H)
      as [L | (names & d & H1 & H2 & H3 & H4 & H5 & H6)].
    - destruct exec_dir as [dir|]; [|destruct L].
      destruct (enum_firmware_dir_from _ _ _ _ L)
        as [[] | (names & d & H1 & H2 & H3 & H4 & H5 & H6)].
      exists dir, names, d. split; [left; reflexivity|].
      repeat (split; [assumption|]). assumption.
    - exists SYSTEM_FIRMWARE_DIR, names, d. split; [right; reflexivity|].
      repeat (split; [assumption|]). assumption. }
  destruct W as (dirname & names & d & H1 & H2 & H3 & H4 & H5 & H6 & H7).
  destruct (read_firmware_header_ranges _ H6) as (_ & R1 & R2 & R3).
  split; [exists dirname, names, d; repeat (split; [assumption|]); assumption|].
  repeat (split; [assumption|]). assumption.
Qed.

(** ** The listings *)

Lemma to_i32_nonzero (v : Z) : 0 < v < 2 ^ 32 -> to_i32 v <> 0.
Proof.
  unfold to_i32. change (2 ^ 32) with 4294967296.
  change (2 ^ 31) with 2147483648. intros H.
  destruct (Z.lt_ge_cases v 2147483648) as [L | G].
  - rewrite Z.mod_small by lia. lia.
  - replace (v + 2147483648) with ((v - 2147483648) + 1 * 4294967296) by lia.
    rewrite Z_mod_plus_full, Z.mod_small by lia. lia.
Qed.

(** X18: [list] offers an update for a card exactly when [update] without a
    version would select a firmware for it, and names the version of that
    firmware; the header line counts the cards. *)
Theorem list_cards_offers_what_update_selects
    (found_firmwares : list found_firmware) (found_cards : list sound_card) :
  (forall ff, In ff found_firmwares ->
              0 <= firmware_version (firmware ff) < 2 ^ 32) ->
  (forall sc,
     match select_found_firmware found_firmwares sc 0 with
     | Ok ff =>
         upgrade_version found_firmwares sc
         = to_i32 (firmware_version (firmware ff))
         /\ upgrade_version found_firmwares sc <> 0
     | Err _ => upgrade_version found_firmwares sc = 0
     end)
  /\ (found_cards = [] ->
      list_cards found_firmwares found_cards = No_supported_devices_found)
  /\ (found_cards <> [] ->
      exists lines,
        list_cards found_firmwares found_cards
        = Found_supported_devices (length found_cards)
            (1 <? Z.of_nat (length found_cards)) lines
        /\ length lines = length found_cards
        /\ forall i sc, nth_error found_cards i = Some sc ->
             nth_error lines i
             = Some (match select_found_firmware found_firmwares sc 0 with
                     | Ok ff =>
                         Line_update_available sc
                           (to_i32 (firmware_version (firmware ff)))
                     | Err _ => Line_firmware_version sc
                     end)).
Proof.
  intros Hr.
  assert (U : forall sc,
    match select_found_firmware found_firmwares sc 0 with
    | Ok ff =>
        upgrade_version found_firmwares sc
        = to_i32 (firmware_version (firmware ff))
        /\ upgrade_version found_firmwares sc <> 0
    | Err _ => upgrade_version found_firmwares sc = 0
    end).
  { intro sc. unfold select_found_firmware, upgrade_version.
    change (0 =? 0) with true. cbv iota.
    destruct (get_latest_firmware found_firmwares (card_pid sc)) as [ff|] eqn:E;
      [|reflexivity].
    unfold get_latest_firmware in E. apply find_some in E.
    destruct E as (Hin & _). specialize (Hr _ Hin).
    rewrite Z.geb_leb, Z.gtb_ltb.
    assert (Hu : 0 <= to_u32 (card_firmware_version sc)).
    { unfold to_u32. apply Z.mod_pos_bound. reflexivity. }
    destruct (Z.leb_spec (firmware_version (firmware ff))
                (to_u32 (card_firmware_version sc))) as [L | G].
    - destruct (Z.ltb_spec (to_u32 (card_firmware_version sc))
                  (firmware_version (firmware ff))); [lia|reflexivity].
    - destruct (Z.ltb_spec (to_u32 (card_firmware_version sc))
                  (firmware_version (firmware ff))); [|lia].
      split; [reflexivity|]. apply to_i32_nonzero. lia. }
  split; [exact U|]. split.
  - intros ->. reflexivity.
  - intros Hne. unfold list_cards.
    destruct found_cards as [|c cs] eqn:Ec; [destruct (Hne eq_refl)|].
    rewrite <- Ec. eexists. split; [reflexivity|]. split; [apply length_map|].
    intros i sc Hi. rewrite nth_error_map, Hi. cbn [option_map]. cbv zeta.
    f_equal. specialize (U sc).
    destruct (select_found_firmware found_firmwares sc 0) as [ff|f].
    + destruct U as (-> & Hnz). apply Z.eqb_neq in Hnz. rewrite Hnz.
      reflexivity.
    + rewrite U. reflexivity.
Qed.

Lemma filter_strongly_sorted {A} (R : A -> A -> Prop) (f : A -> bool)
    (l : list A) :
  StronglySorted R l -> StronglySorted R (filter f l).
Proof.
  induction 1 as [|x l HS IH HF]; simpl; [constructor|].
  destruct (f x); [|exact IH]. constructor; [exact IH|].
  rewrite Forall_forall in HF |- *. intros y Hy. apply filter_In in Hy.
  apply HF. exact (proj1 Hy).
Qed.

Lemma find_hd_filter {A} (f : A -> bool) (l : list A) :
  find f l = hd_error (filter f l).
Proof.
  induction l as [|x l IH]; simpl; [reflexivity|].
  destruct (f x); [reflexivity|exact IH].
Qed.

Lemma product_versions_descending (found : list found_firmware) (p : Z) :
  NoDup (map triple found) ->
  (forall ff, In ff found -> usb_vid (firmware ff) = VENDOR_VID) ->
  StronglySorted catalog_before found ->
  StronglySorted Z.gt
    (map (fun ff => firmware_version (firmware ff))
         (filter (fun ff => usb_pid (firmware ff) =? p) found)).
Proof.
  induction found as [|x l IH]; intros Hnd Hv HS; simpl; [constructor|].
  inversion Hnd as [|? ? Hnot Hnd']; subst.
  inversion HS as [|? ? HS' HF]; subst.
  assert (IH' := IH Hnd' (fun ff H => Hv ff (or_intror H)) HS').
  destruct (usb_pid (firmware x) =? p) eqn:E; [|exact IH'].
  apply Z.eqb_eq in E. cbn [map]. constructor; [exact IH'|].
  apply Forall_forall. intros v Hin. apply in_map_iff in Hin.
  destruct Hin as (y & <- & Hy). apply filter_In in Hy.
  destruct Hy as (Hy & Ey). apply Z.eqb_eq in Ey.
  rewrite Forall_forall in HF. specialize (HF y Hy).
  assert (Hp : usb_pid (firmware x) = usb_pid (firmware y)) by congruence.
  destruct HF as [Hlt | (_ & Hge)].
  - rewrite (same_pid_same_rank _ _ Hp) in Hlt. lia.
  - assert (Hne : firmware_version (firmware x)
                  <> firmware_version (firmware y)).
    { intro Heq. apply Hnot. apply in_map_iff. exists y. split; [|exact Hy].
      unfold triple. rewrite Heq, Hp.
      rewrite (Hv x (or_introl eq_refl)), (Hv y (or_intror Hy)). reflexivity. }
    lia.
Qed.

(** X19: [list-all] on a scanned catalog: there is one line for each product
    of the table, in the order of the table; a line lists the versions
    the catalog holds for its product, each once and the newest first; the
    first of them is the firmware [update] looks at; a product is marked
    as connected exactly when a card of it was found, and only then are
    running versions shown; firmware of a product that is not in the
    table is on no line. *)
Theorem list_all_lines (found_firmwares : list found_firmware)
    (found_cards : list sound_card) :
  NoDup (map triple found_firmwares) ->
  (forall ff, In ff found_firmwares -> usb_vid (firmware ff) = VENDOR_VID) ->
  StronglySorted catalog_before found_firmwares ->
  let lines := snd (list_all found_firmwares found_cards) in
  map line_pid lines = map pid scarlett2_supported
  /\ (forall line, In line lines ->
        (exists versions,
           available line = map to_i32 versions
           /\ StronglySorted Z.gt versions
           /\ (forall v, In v versions <->
                 exists ff, In ff found_firmwares
                   /\ usb_pid (firmware ff) = line_pid line
                   /\ firmware_version (firmware ff) = v)
           /\ option_map (fun ff => firmware_version (firmware ff))
                (get_latest_firmware found_firmwares (line_pid line))
              = hd_error versions)
        /\ (connected line = true <->
            exists sc, In sc found_cards /\ card_pid sc = line_pid line)
        /\ (running line = None <-> connected line = false))
  /\ (forall ff line, In ff found_firmwares -> In line lines ->
        table_position ff = None -> usb_pid (firmware ff) <> line_pid line).
Proof.
  intros Hnd Hv HS. cbv zeta. unfold list_all. cbn [snd].
  split; [|split].
  - rewrite map_map. reflexivity.
  - intros line Hl. apply in_map_iff in Hl. destruct Hl as (dev & <- & Hdev).
    cbn [available connected running line_pid].
    split; [|split].
    + exists (map (fun ff => firmware_version (firmware ff))
                  (filter (fun ff => usb_pid (firmware ff) =? pid dev)
                          found_firmwares)).
      split; [rewrite map_map; reflexivity|].
      split; [apply product_versions_descending; assumption|].
      split.
      * intro v. rewrite in_map_iff. split.
        -- intros (ff & Hver & Hin). apply filter_In in Hin.
           destruct Hin as (Hin & E). apply Z.eqb_eq in E.
           exists ff. split; [exact Hin|]. split; assumption.
        -- intros (ff & Hin & E & Hver). exists ff. split; [exact Hver|].
           apply filter_In. split; [exact Hin|]. apply Z.eqb_eq. exact E.
      * unfold get_latest_firmware. rewrite find_hd_filter.
        destruct (filter (fun ff => usb_pid (firmware ff) =? pid dev)
                         found_firmwares); reflexivity.
    + unfold is_connected. rewrite existsb_exists. split.
      * intros (sc & Hin & E). apply Z.eqb_eq in E. exists sc. split; assumption.
      * intros (sc & Hin & E). exists sc. split; [exact Hin|].
        apply Z.eqb_eq. exact E.
    + destruct (is_connected found_cards (pid dev)); split; intro H;
        try discriminate; reflexivity.
  - intros ff line Hin Hl Hpos Heq. apply in_map_iff in Hl.
    destruct Hl as (dev & <- & Hdev). cbn [line_pid] in Heq.
    unfold table_position, get_device_for_pid in Hpos.
    apply get_device_from_none in Hpos. apply Hpos. rewrite Heq.
    apply in_map. exact Hdev.
Qed.

(** ** The firmware file *)

(** X20: The layout of an accepted header: the fields are the big-endian
    values at offsets 8, 10, 12 and 16, the hash is the 32 bytes from
    offset 20, and the stream continues right after the 52 bytes. *)
Theorem read_header_layout (file : list byte)
    (h : scarlett2_firmware_header) (rest : list byte) :
  read_header file = Ok (h, rest) ->
  let b i := byte_val (nth i file NUL) in
  file = firstn HEADER_SIZE file ++ rest
  /\ length (firstn HEADER_SIZE file) = HEADER_SIZE
  /\ magic h = firstn 8 file
  /\ usb_vid h = b 8%nat * 256 + b 9%nat
  /\ usb_pid h = b 10%nat * 256 + b 11%nat
  /\ firmware_version h
     = b 12%nat * 2 ^ 24 + b 13%nat * 2 ^ 16 + b 14%nat * 2 ^ 8 + b 15%nat
  /\ firmware_length h
     = b 16%nat * 2 ^ 24 + b 17%nat * 2 ^ 16 + b 18%nat * 2 ^ 8 + b 19%nat
  /\ sha256 h = firstn SHA256_DIGEST_LENGTH (skipn 20 file)
  /\ length (sha256 h) = SHA256_DIGEST_LENGTH
  /\ 0 <= usb_vid h < 2 ^ 16 /\ 0 <= usb_pid h < 2 ^ 16
  /\ 0 <= firmware_version h < 2 ^ 32 /\ 0 <= firmware_length h < 2 ^ 32.
Proof.
  intros H b.
  destruct (read_header_ok_inv _ H) as (Hl & _ & Hrest & Hs).
  destruct (read_header_fields _ H) as (F1 & F2 & F3 & F4 & F5 & F6).
  destruct (read_header_ranges _ H) as (R1 & R2 & R3 & R4).
  split; [rewrite Hrest; symmetry; apply firstn_skipn|].
  split; [apply firstn_length_le; exact Hl|].
  split; [exact F1|]. split; [exact F2|]. split; [exact F3|].
  split; [exact F4|]. split; [exact F5|]. split; [exact F6|].
  split; [exact Hs|]. split; [exact R1|]. split; [exact R2|].
  split; [exact R3|exact R4].
Qed.

Lemma read_header_app (file extra : list byte)
    (h : scarlett2_firmware_header) (rest : list byte) :
  read_header file = Ok (h, rest) ->
  read_header (file ++ extra) = Ok (h, rest ++ extra).
Proof.
  intro H. destruct (read_header_ok_inv _ H) as (Hl & _ & _ & _).
  unfold read_header in H |- *.
  assert (E1 : (length file <? HEADER_SIZE)%nat = false)
    by (apply Nat.ltb_ge; exact Hl).
  assert (E2 : (length (file ++ extra) <? HEADER_SIZE)%nat = false).
  { apply Nat.ltb_ge. rewrite length_app.
    apply (Nat.le_trans _ _ _ Hl). apply Nat.le_add_r. }
  rewrite E1 in H. rewrite E2.
  assert (F : firstn HEADER_SIZE (file ++ extra) = firstn HEADER_SIZE file).
  { rewrite firstn_app. replace (HEADER_SIZE - length file)%nat with 0%nat.
    - rewrite firstn_O. apply app_nil_r.
    - symmetry. apply Nat.sub_0_le. exact Hl. }
  assert (S : skipn HEADER_SIZE (file ++ extra)
              = skipn HEADER_SIZE file ++ extra).
  { rewrite skipn_app. replace (HEADER_SIZE - length file)%nat with 0%nat.
    - reflexivity.
    - symmetry. apply Nat.sub_0_le. exact Hl. }
  rewrite F, S.
  destruct (negb (strncmp (magic (overlay_header (firstn HEADER_SIZE file)))
                    MAGIC_STRING 8 =? 0)); [discriminate|].
  apply (f_equal (fun r => match r with
                           | Ok (h', rest') => Ok (h', rest' ++ extra)
                           | Err e => Err e
                           end)) in H.
  exact H.
Qed.

(** X21: Neither parse looks past what it needs: bytes appended to a file
    whose header is accepted do not change the header that is read, and
    bytes appended to a file that is accepted in full do not change the
    firmware file that is read. *)
Theorem trailing_bytes_ignored (file extra : list byte) :
  (forall h, scarlett2_read_firmware_header (Some file) = Ok h ->
             scarlett2_read_firmware_header (Some (file ++ extra)) = Ok h)
  /\ (forall fw, scarlett2_read_firmware_file (Some file) = Ok fw ->
                 scarlett2_read_firmware_file (Some (file ++ extra)) = Ok fw).
Proof.
  split.
  - intros h. unfold scarlett2_read_firmware_header.
    destruct (read_header file) as [[h' rest]|e] eqn:E; [|discriminate].
    rewrite (@read_header_app _ extra _ _ E). exact (fun H => H).
  - intros fw. unfold scarlett2_read_firmware_file.
    destruct (read_header file) as [[h rest]|e] eqn:E; [|discriminate].
    rewrite (@read_header_app _ extra _ _ E).
    destruct (negb (malloc_ok (firmware_length h))); [discriminate|].
    cbv zeta.
    destruct (Z.of_nat (length (firstn (Z.to_nat (firmware_length h)) rest))
              =? firmware_length h) eqn:El; cbn [negb]; [|discriminate].
    apply Z.eqb_eq in El.
    assert (F : firstn (Z.to_nat (firmware_length h)) (rest ++ extra)
                = firstn (Z.to_nat (firmware_length h)) rest).
    { rewrite firstn_app.
      replace (Z.to_nat (firmware_length h) - length rest)%nat with 0%nat.
      - rewrite firstn_O. apply app_nil_r.
      - rewrite length_firstn in El. lia. }
    rewrite F. apply Z.eqb_eq in El. rewrite El. cbn [negb].
    exact (fun H => H).
Qed.

(** X22: What the parse of a whole file returns, in the order of its checks:
    the error of the header if the header is not accepted; then the
    failed allocation; then a payload shorter than the header's length;
    then a digest of the payload that is not the header's hash; the
    firmware file otherwise. *)
Theorem read_firmware_file_outcome (file : list byte) :
  (forall data, length (SHA256 data) = SHA256_DIGEST_LENGTH) ->
  (forall e, scarlett2_read_firmware_header (Some file) = Err e ->
             scarlett2_read_firmware_file (Some file) = Err e)
  /\ (forall h, scarlett2_read_firmware_header (Some file) = Ok h ->
        let rest := skipn HEADER_SIZE file in
        let payload := firstn (Z.to_nat (firmware_length h)) rest in
        (malloc_ok (firmware_length h) = false ->
         scarlett2_read_firmware_file (Some file) = Err E_alloc)
        /\ (malloc_ok (firmware_length h) = true ->
            Z.of_nat (length rest) < firmware_length h ->
            scarlett2_read_firmware_file (Some file) = Err E_short_data)
        /\ (malloc_ok (firmware_length h) = true ->
            firmware_length h <= Z.of_nat (length rest) ->
            SHA256 payload <> sha256 h ->
            scarlett2_read_firmware_file (Some file) = Err E_corrupt)
        /\ (malloc_ok (firmware_length h) = true ->
            firmware_length h <= Z.of_nat (length rest) ->
            SHA256 payload = sha256 h ->
            scarlett2_read_firmware_file (Some file)
            = Ok {| header := h; firmware_data := payload |})).
Proof.
  intro HL. unfold scarlett2_read_firmware_header, scarlett2_read_firmware_file.
  destruct (read_header file) as [[h rest]|e] eqn:E.
  2:{ split; [intros e' H; injection H as <-; reflexivity|].
      intros h H. discriminate H. }
  split; [intros e H; discriminate H|].
  intros h' H. injection H as <-.
  destruct (read_header_ok_inv _ E) as (_ & _ & -> & Ls).
  destruct (read_header_ranges _ E) as (_ & _ & _ & Rl).
  cbv zeta.
  set (rest := skipn HEADER_SIZE file).
  set (payload := firstn (Z.to_nat (firmware_length h)) rest).
  assert (Lp : Z.of_nat (length payload)
               = Z.min (firmware_length h) (Z.of_nat (length rest))).
  { unfold payload. rewrite length_firstn. lia. }
  assert (Hv : verify_sha256 payload (sha256 h) = true
               <-> SHA256 payload = sha256 h).
  { unfold verify_sha256. rewrite Z.eqb_eq.
    apply memcmp_zero_iff; [apply HL|exact Ls]. }
  split; [intros ->; reflexivity|].
  split; [|split].
  - intros -> Hlt. cbn [negb].
    destruct (Z.eqb_spec (Z.of_nat (length payload)) (firmware_length h));
      [lia|reflexivity].
  - intros -> Hle Hne. cbn [negb].
    destruct (Z.eqb_spec (Z.of_nat (length payload)) (firmware_length h));
      [|lia].
    cbn [negb]. destruct (verify_sha256 payload (sha256 h)) eqn:Ev.
    + exfalso. apply Hne. apply Hv. reflexivity.
    + reflexivity.
  - intros -> Hle Heq. cbn [negb].
    destruct (Z.eqb_spec (Z.of_nat (length payload)) (firmware_length h));
      [|lia].
    cbn [negb]. apply Hv in Heq. rewrite Heq. reflexivity.
Qed.

(** ** The directory of the executable *)

Lemma before_last_slash_none (path : string) :
  before_last_slash path = None <-> ~ In "/"%char (list_ascii_of_string path).
Proof.
  induction path as [|c path IH]; simpl.
  - split; [intros _ []|reflexivity].
  - destruct (before_last_slash path) as [d|].
    + split; [discriminate|]. intro H. exfalso.
      assert (N : ~ In "/"%char (list_ascii_of_string path)).
      { intro C. apply H. right. exact C. }
      apply IH in N. discriminate N.
    + destruct (Ascii.eqb_spec c "/"%char) as [-> | Hne].
      * split; [discriminate|]. intro H. exfalso. apply H. left. reflexivity.
      * split; [|reflexivity]. intros _ [C | C]; [exact (Hne C)|].
        revert C. apply IH. reflexivity.
Qed.

Lemma before_last_slash_some (path : string) : forall d,
  before_last_slash path = Some d
  <-> exists base, path = (d ++ "/" ++ base)%string
                   /\ ~ In "/"%char (list_ascii_of_string base).
Proof.
  induction path as [|c path IH]; intro d; simpl.
  - split; [discriminate|]. intros (base & H & _).
    destruct d; discriminate H.
  - destruct (before_last_slash path) as [d0|] eqn:E.
    + split.
      * intro H. injection H as <-.
        destruct (proj1 (IH d0) eq_refl) as (base & -> & Hb).
        exists base. split; [reflexivity|exact Hb].
      * intros (base & H & Hb). destruct d as [|c' d'].
        -- simpl in H. injection H as -> ->.
           apply before_last_slash_none in Hb. rewrite Hb in E. discriminate E.
        -- simpl in H. injection H as <- H'.
           assert (S : Some d0 = Some d').
           { apply IH. exists base. split; [exact H'|exact Hb]. }
           injection S as ->. reflexivity.
    + destruct (Ascii.eqb_spec c "/"%char) as [-> | Hne].
      * split.
        -- intro H. injection H as <-. exists path. split; [reflexivity|].
           apply before_last_slash_none. exact E.
        -- intros (base & H & Hb). destruct d as [|c' d']; [reflexivity|].
           simpl in H. injection H as <- H'. exfalso.
           assert (S : None = Some d').
           { apply IH. exists base. split; [exact H'|exact Hb]. }
           discriminate S.
      * split; [discriminate|]. intros (base & H & Hb).
        destruct d as [|c' d'].
        -- simpl in H. injection H as C _. destruct (Hne C).
        -- simpl in H. injection H as <- H'. exfalso.
           assert (S : None = Some d').
           { apply IH. exists base. split; [exact H'|exact Hb]. }
           discriminate S.
Qed.

(** X23: The firmware directory beside the executable: [get_firmware_exec_dir]
    returns a directory exactly when both allocations succeed and the
    link to the executable is shorter than [PATH_MAX] and holds a slash;
    the directory is then what is before the last slash of the link,
    followed by "/firmware". *)
Theorem get_firmware_exec_dir_beside_executable
    (link : option string) (firmware_dir : string) :
  get_firmware_exec_dir link = Ok firmware_dir
  <-> exists target exec_dir base,
        link = Some target
        /\ malloc_ok PATH_MAX = true
        /\ Z.of_nat (String.length target) < PATH_MAX
        /\ c_string target = (exec_dir ++ "/" ++ base)%string
        /\ ~ In "/"%char (list_ascii_of_string base)
        /\ malloc_ok (Z.of_nat (String.length exec_dir)
                      + Z.of_nat (String.length FIRMWARE_DIR) + 2) = true
        /\ firmware_dir = (exec_dir ++ "/firmware")%string.
Proof.
  unfold get_firmware_exec_dir, get_exec_dir. split.
  - destruct (malloc_ok PATH_MAX) eqn:M1; cbn [negb]; [|discriminate].
    destruct link as [target|]; [|discriminate].
    destruct (Z.leb_spec PATH_MAX (Z.of_nat (String.length target)));
      [discriminate|].
    destruct (before_last_slash (c_string target)) as [exec_dir|] eqn:E;
      [|discriminate].
    destruct (malloc_ok (Z.of_nat (String.length exec_dir)
                         + Z.of_nat (String.length FIRMWARE_DIR) + 2)) eqn:M2;
      cbn [negb]; [|discriminate].
    intro Hd. injection Hd as <-.
    apply before_last_slash_some in E. destruct E as (base & Hp & Hb).
    exists target, exec_dir, base.
    repeat (split; [assumption || reflexivity|]). reflexivity.
  - intros (target & exec_dir & base & -> & M1 & Hl & Hp & Hb & M2 & ->).
    rewrite M1. cbn [negb].
    destruct (Z.leb_spec PATH_MAX (Z.of_nat (String.length target))); [lia|].
    assert (E : before_last_slash (c_string target) = Some exec_dir).
    { apply before_last_slash_some. exists base. split; assumption. }
    rewrite E, M2. reflexivity.
Qed.

(** ** The command line *)

Lemma to_i32_range (v : Z) : - 2 ^ 31 <= to_i32 v < 2 ^ 31.
Proof.
  unfold to_i32. change (2 ^ 32) with 4294967296.
  change (2 ^ 31) with 2147483648.
  pose proof (Z.mod_pos_bound (v + 2147483648) 4294967296 eq_refl). lia.
Qed.

Lemma parse_card_num_ok (card_num_str : string) (st st' : arguments) :
  parse_card_num card_num_str st = Ok st' ->
  selected_card_num st = -1
  /\ 0 <= selected_card_num st' < 2 ^ 31
  /\ selected_card_num st' = to_i32 (fst (fst (strtol card_num_str 10)))
  /\ snd (fst (strtol card_num_str 10)) = EmptyString
  /\ snd (strtol card_num_str 10) = false
  /\ command st' = command st
  /\ selected_firmware_version st' = selected_firmware_version st.
Proof.
  unfold parse_card_num.
  destruct (Z.eqb_spec (selected_card_num st) (-1)) as [E|]; cbn [negb];
    [|discriminate].
  destruct (strtol card_num_str 10) as [[value endptr] errno].
  cbv zeta. cbn [fst snd].
  destruct errno; cbn [orb]; [discriminate|].
  destruct (String.eqb_spec endptr "") as [-> |]; cbn [negb orb];
    [|discriminate].
  destruct (Z.ltb_spec (to_i32 value) 0) as [|Hge]; [discriminate|].
  intro Hr. injection Hr as <-. cbn [selected_card_num command
                                   selected_firmware_version].
  pose proof (to_i32_range value).
  repeat (split; [assumption || reflexivity || lia|]). reflexivity.
Qed.

Lemma parse_fw_ver_ok (fw_ver_str : string) (st st' : arguments) :
  parse_fw_ver fw_ver_str st = Ok st' ->
  selected_firmware_version st = 0
  /\ 0 < selected_firmware_version st' < 2 ^ 31
  /\ selected_firmware_version st' = to_i32 (fst (fst (strtol fw_ver_str 10)))
  /\ snd (fst (strtol fw_ver_str 10)) = EmptyString
  /\ snd (strtol fw_ver_str 10) = false
  /\ command st' = command st
  /\ selected_card_num st' = selected_card_num st.
Proof.
  unfold parse_fw_ver.
  destruct (Z.eqb_spec (selected_firmware_version st) 0) as [E|]; cbn [negb];
    [|discriminate].
  destruct (strtol fw_ver_str 10) as [[value endptr] errno].
  cbv zeta. cbn [fst snd].
  destruct errno; cbn [orb]; [discriminate|].
  destruct (String.eqb_spec endptr "") as [-> |]; cbn [negb orb];
    [|discriminate].
  destruct (Z.leb_spec (to_i32 value) 0) as [|Hgt]; [discriminate|].
  intro Hr. injection Hr as <-. cbn [selected_card_num command
                                   selected_firmware_version].
  pose proof (to_i32_range value).
  repeat (split; [assumption || reflexivity || lia|]). reflexivity.
Qed.

Lemma short_command_cases (arg c : string) :
  starts_with_dash arg = true -> short_command arg = Some c ->
  (arg = "-h" /\ c = "help")%string
  \/ (arg = "-l" /\ c = "list")%string
  \/ (arg = "-u" /\ c = "update")%string.
Proof.
  destruct arg as [|c0 [|c1 [|c2 arg]]]; simpl; try discriminate.
  destruct (Ascii.eqb_spec c0 "-"%char) as [-> |]; [|discriminate]. intros _.
  destruct (Ascii.eqb_spec c1 "h"%char) as [-> |].
  { intro H. injection H as <-. left. split; reflexivity. }
  destruct (Ascii.eqb_spec c1 "l"%char) as [-> |].
  { intro H. injection H as <-. right. left. split; reflexivity. }
  destruct (Ascii.eqb_spec c1 "u"%char) as [-> |]; [|discriminate].
  intro H. injection H as <-. right. right. split; reflexivity.
Qed.

Lemma parse_args_loop_ok (n : nat) : forall argv st a,
  (length argv <= n)%nat ->
  parse_args_loop argv st = Ok a ->
  (selected_card_num a = selected_card_num st
   \/ (selected_card_num st = -1 /\ 0 <= selected_card_num a < 2 ^ 31))
  /\ (selected_firmware_version a = selected_firmware_version st
      \/ (selected_firmware_version st = 0
          /\ 0 < selected_firmware_version a < 2 ^ 31))
  /\ (command a = command st
      \/ (command st = None
          /\ exists c, command a = Some c
               /\ ((In c argv /\ starts_with_dash c = false)
                   \/ (c = "help" /\ In "-h" argv)%string
                   \/ (c = "list" /\ In "-l" argv)%string
                   \/ (c = "update" /\ In "-u" argv)%string))).
Proof.
  induction n as [|n IH]; intros argv st a Hn H.
  { destruct argv; [|simpl in Hn; lia]. simpl in H. injection H as <-.
    split; [left; reflexivity|]. split; left; reflexivity. }
  destruct argv as [|arg rest].
  { simpl in H. injection H as <-.
    split; [left; reflexivity|]. split; left; reflexivity. }
  simpl in Hn.
  (* how a state reached through the tail relates to the whole list *)
  assert (Wc : forall (tail : list string) (st' : arguments),
    (forall x, In x tail -> In x (arg :: rest)) ->
    (length tail <= n)%nat ->
    parse_args_loop tail st' = Ok a ->
    command st' = command st ->
    (selected_card_num st' = selected_card_num st
     \/ (selected_card_num st = -1 /\ 0 <= selected_card_num st' < 2 ^ 31)) ->
    (selected_firmware_version st' = selected_firmware_version st
     \/ (selected_firmware_version st = 0
         /\ 0 < selected_firmware_version st' < 2 ^ 31)) ->
    (selected_card_num a = selected_card_num st
     \/ (selected_card_num st = -1 /\ 0 <= selected_card_num a < 2 ^ 31))
    /\ (selected_firmware_version a = selected_firmware_version st
        \/ (selected_firmware_version st = 0
            /\ 0 < selected_firmware_version a < 2 ^ 31))
    /\ (command a = command st
        \/ (command st = None
            /\ exists c, command a = Some c
                 /\ ((In c (arg :: rest) /\ starts_with_dash c = false)
                     \/ (c = "help" /\ In "-h" (arg :: rest))%string
                     \/ (c = "list" /\ In "-l" (arg :: rest))%string
                     \/ (c = "update" /\ In "-u" (arg :: rest))%string)))).
  { intros tail st' Hsub Hlen Ht Hcmd Hcard Hfw.
    destruct (IH _ _ _ Hlen Ht) as (C1 & C2 & C3).
    split; [|split].
    - destruct C1 as [C1 | (C1 & R1)]; [rewrite C1; exact Hcard|].
      destruct Hcard as [Hcard | (Hcard & R)]; [|lia].
      right. split; [congruence|exact R1].
    - destruct C2 as [C2 | (C2 & R2)]; [rewrite C2; exact Hfw|].
      destruct Hfw as [Hfw | (Hfw & R)]; [|lia].
      right. split; [congruence|exact R2].
    - destruct C3 as [C3 | (C3 & c & Hc & Ho)]; [left; congruence|].
      right. split; [congruence|]. exists c. split; [exact Hc|].
      destruct Ho as [(Ho & D) | [(E & Ho) | [(E & Ho) | (E & Ho)]]].
      + left. split; [apply Hsub; exact Ho|exact D].
      + right. left. split; [exact E|apply Hsub; exact Ho].
      + right. right. left. split; [exact E|apply Hsub; exact Ho].
      + right. right. right. split; [exact E|apply Hsub; exact Ho]. }
  assert (Srest : forall x, In x rest -> In x (arg :: rest))
    by (intros x Hx; right; exact Hx).
  assert (Lrest : (length rest <= n)%nat) by lia.
  cbn [parse_args_loop] in H.
  destruct (prefix "-c" arg || (arg =? "--card")%string || prefix "--card=" arg).
  { match goal with |- ?G =>
      assert (Kc : forall s tail,
              (forall x, In x tail -> In x (arg :: rest)) ->
              (length tail <= n)%nat ->
              match parse_card_num s st with
              | Ok st' => parse_args_loop tail st'
              | Err e => Err e
              end = Ok a -> G)
    end.
    { intros s tail Hsub Hlen Hm.
      destruct (parse_card_num s st) as [st'|e] eqn:Ep; [|discriminate].
      destruct (parse_card_num_ok _ _ Ep) as (P1 & P2 & _ & _ & _ & P3 & P4).
      apply (Wc tail st' Hsub Hlen Hm P3).
      - right. split; assumption.
      - left. exact P4. }
    destruct (prefix "-c" arg && (2 <? String.length arg)%nat).
    { exact (Kc _ rest Srest Lrest H). }
    destruct (prefix "--card=" arg).
    { exact (Kc _ rest Srest Lrest H). }
    destruct rest as [|card_num_str rest']; [discriminate|].
    apply (Kc card_num_str rest'); [|simpl in Lrest; lia|exact H].
    intros x Hx. right. right. exact Hx. }
  destruct ((arg =? "--fw-ver")%string || prefix "--fw-ver=" arg).
  { match goal with |- ?G =>
      assert (Kf : forall s tail,
              (forall x, In x tail -> In x (arg :: rest)) ->
              (length tail <= n)%nat ->
              match parse_fw_ver s st with
              | Ok st' => parse_args_loop tail st'
              | Err e => Err e
              end = Ok a -> G)
    end.
    { intros s tail Hsub Hlen Hm.
      destruct (parse_fw_ver s st) as [st'|e] eqn:Ep; [|discriminate].
      destruct (parse_fw_ver_ok _ _ Ep) as (P1 & P2 & _ & _ & _ & P3 & P4).
      apply (Wc tail st' Hsub Hlen Hm P3).
      - left. exact P4.
      - right. split; assumption. }
    destruct (prefix "--fw-ver=" arg).
    { exact (Kf _ rest Srest Lrest H). }
    destruct rest as [|fw_ver_str rest']; [discriminate|].
    apply (Kf fw_ver_str rest'); [|simpl in Lrest; lia|exact H].
    intros x Hx. right. right. exact Hx. }
  destruct (starts_with_dash arg) eqn:Ed.
  - destruct (short_command arg) as [sc|] eqn:Es; [|discriminate].
    destruct (command st) as [c0|] eqn:Ec; [discriminate|].
    destruct (IH _ _ _ Lrest H) as (C1 & C2 & C3).
    cbn [set_command selected_card_num selected_firmware_version command] in *.
    split; [exact C1|]. split; [exact C2|].
    right. split; [reflexivity|].
    destruct C3 as [C3 | (C3 & _)]; [|discriminate].
    exists sc. split; [exact C3|]. right.
    destruct (short_command_cases _ Ed Es)
      as [(-> & ->) | [(-> & ->) | (-> & ->)]].
    + left. split; [reflexivity|left; reflexivity].
    + right. left. split; [reflexivity|left; reflexivity].
    + right. right. split; [reflexivity|left; reflexivity].
  - destruct (command st) as [c0|] eqn:Ec; [discriminate|].
    destruct (IH _ _ _ Lrest H) as (C1 & C2 & C3).
    cbn [set_command selected_card_num selected_firmware_version command] in *.
    split; [exact C1|]. split; [exact C2|].
    right. split; [reflexivity|].
    destruct C3 as [C3 | (C3 & _)]; [|discriminate].
    exists arg. split; [exact C3|]. left. split; [left; reflexivity|exact Ed].
Qed.

(** X24: What an accepted command line leaves in the globals, whatever
    [strtol] does: the card number is -1 (no card option) or a
    non-negative [int]; the firmware version is 0 (no version option) or
    a positive [int]; a card number is not accepted without a command;
    and the command is an argument that does not start with a dash, or
    the long form of a [-h], [-l] or [-u] that was given. *)
Theorem parse_args_result (argv : list string) (args : arguments) :
  parse_args argv = Ok args ->
  (selected_card_num args = -1 \/ 0 <= selected_card_num args < 2 ^ 31)
  /\ (selected_firmware_version args = 0
      \/ 0 < selected_firmware_version args < 2 ^ 31)
  /\ (command args = None -> selected_card_num args = -1)
  /\ (forall c, command args = Some c ->
        (In c argv /\ starts_with_dash c = false)
        \/ (c = "help" /\ In "-h" argv)%string
        \/ (c = "list" /\ In "-l" argv)%string
        \/ (c = "update" /\ In "-u" argv)%string).
Proof.
  unfold parse_args.
  destruct (parse_args_loop argv _) as [st|e] eqn:E; [|discriminate].
  destruct (@parse_args_loop_ok (length argv) argv _ _ (le_n _) E)
    as (C1 & C2 & C3).
  cbn [selected_card_num selected_firmware_version command] in C1, C2, C3.
  match goal with |- _ -> ?G =>
    assert (R : @Ok usage_error arguments st = Ok args ->
                (command args = None -> selected_card_num args = -1) -> G)
  end.
  { intros H Hn. injection H as <-.
    split; [destruct C1 as [C1 | (_ & C1)]; [left; exact C1|right; exact C1]|].
    split; [destruct C2 as [C2 | (_ & C2)]; [left; exact C2|right; exact C2]|].
    split; [exact Hn|].
    intros c Hc. destruct C3 as [C3 | (_ & c' & Hc' & Ho)]; [congruence|].
    assert (c' = c) by congruence. subst c'. exact Ho. }
  destruct (command st) as [c|] eqn:Ec.
  - intro H. apply (R H). injection H as <-. congruence.
  - destruct (Z.eqb_spec (selected_card_num st) (-1)) as [E1|]; cbn [negb];
      [|discriminate].
    intro H. apply (R H). injection H as <-. intros _. exact E1.
Qed.

(** X25: The spellings of an option are equivalent at any point of the
    command line: [-cN] (with N not empty), [--card=N], [-c N] and
    [--card N]; [--fw-ver=N] and [--fw-ver N]; and, as long as there is
    no command yet, [-h], [-l], [-u] and [help], [list], [update]. *)
Theorem option_spellings (rest : list string) (st : arguments) (N : string) :
  (N <> EmptyString ->
   parse_args_loop (("-c" ++ N)%string :: rest) st
   = parse_args_loop ("-c"%string :: N :: rest) st)
  /\ parse_args_loop (("--card=" ++ N)%string :: rest) st
     = parse_args_loop ("-c"%string :: N :: rest) st
  /\ parse_args_loop ("--card"%string :: N :: rest) st
     = parse_args_loop ("-c"%string :: N :: rest) st
  /\ parse_args_loop (("--fw-ver=" ++ N)%string :: rest) st
     = parse_args_loop ("--fw-ver"%string :: N :: rest) st
  /\ (command st = None ->
      parse_args_loop ("-h"%string :: rest) st
      = parse_args_loop ("help"%string :: rest) st
      /\ parse_args_loop ("-l"%string :: rest) st
         = parse_args_loop ("list"%string :: rest) st
      /\ parse_args_loop ("-u"%string :: rest) st
         = parse_args_loop ("update"%string :: rest) st).
Proof.
  assert (P0 : prefix "" N = true) by (destruct N; reflexivity).
  split; [|split; [|split; [|split]]].
  - intro HN. destruct N as [|c N]; [destruct (HN eq_refl)|]. reflexivity.
  - cbn. rewrite P0. reflexivity.
  - cbn. reflexivity.
  - cbn. rewrite P0. reflexivity.
  - intro Hc. cbn. rewrite Hc.
    split; [reflexivity|]. split; reflexivity.
Qed.

(** ** The sound cards *)

Lemma strncmp_firstn (n : nat) : forall s1 s2,
  strncmp (firstn n s1) s2 n = strncmp s1 s2 n.
Proof.
  induction n as [|n IH]; intros s1 s2; [reflexivity|].
  destruct s1 as [|a s1]; [reflexivity|].
  cbn [firstn strncmp hd tl]. rewrite IH. reflexivity.
Qed.

Lemma VENDOR_PREFIX_no_NUL : forall b, In b VENDOR_PREFIX -> b <> NUL.
Proof.
  intros b H. cbv in H.
  repeat (destruct H as [<- | H]; [discriminate|]). destruct H.
Qed.

Lemma check_usb_id_buffer (file : list byte) :
  (USBID_SIZE <= length file)%nat ->
  check_usb_id (Some file)
  = let usbid := firstn (USBID_SIZE - 1) file ++ [NUL] in
    if negb (strncmp usbid VENDOR_PREFIX VENDOR_PREFIX_LEN =? 0) then 0
    else
      let '(value, endptr, errno) :=
        strtol (c_string (string_of_list_byte
                            (skipn VENDOR_PREFIX_LEN usbid))) 16 in
      let pid := to_i32 value in
      if errno || negb (endptr =? "")%string then 0 else pid.
Proof.
  intro Hl. unfold check_usb_id.
  assert (L : length (firstn USBID_SIZE file) = USBID_SIZE)
    by (apply firstn_length_le; exact Hl).
  rewrite L, Nat.eqb_refl. cbn [negb]. cbv zeta.
  rewrite firstn_firstn.
  change (Nat.min (USBID_SIZE - 1) USBID_SIZE) with (USBID_SIZE - 1)%nat.
  reflexivity.
Qed.

(** X26: [check_usb_id] looks at the first nine bytes of a usbid file of at
    least ten bytes and at nothing else: it returns a product id only
    for a file that holds ten bytes and starts with "1235:", and two
    files that agree on their first nine bytes give the same answer. *)
Theorem check_usb_id_reads_nine_bytes :
  (forall opened, check_usb_id opened <> 0 ->
     exists file,
       opened = Some file /\ (USBID_SIZE <= length file)%nat
       /\ firstn VENDOR_PREFIX_LEN file = VENDOR_PREFIX
       /\ - 2 ^ 31 <= check_usb_id opened < 2 ^ 31)
  /\ (forall file1 file2,
        (USBID_SIZE <= length file1)%nat -> (USBID_SIZE <= length file2)%nat ->
        firstn (USBID_SIZE - 1) file1 = firstn (USBID_SIZE - 1) file2 ->
        check_usb_id (Some file1) = check_usb_id (Some file2)).
Proof.
  split.
  - intros [file|] Hnz; [|destruct (Hnz eq_refl)].
    exists file. split; [reflexivity|].
    assert (Hl : (USBID_SIZE <= length file)%nat).
    { unfold check_usb_id in Hnz.
      destruct (Nat.eqb_spec (length (firstn USBID_SIZE file)) USBID_SIZE)
        as [E|]; cbn [negb] in Hnz; [|destruct (Hnz eq_refl)].
      rewrite length_firstn in E. lia. }
    split; [exact Hl|].
    rewrite (check_usb_id_buffer file Hl) in Hnz |- *. cbv zeta in Hnz |- *.
    destruct (Z.eqb_spec
                (strncmp (firstn (USBID_SIZE - 1) file ++ [NUL]) VENDOR_PREFIX
                         VENDOR_PREFIX_LEN) 0) as [E|];
      cbn [negb] in Hnz |- *; [|destruct (Hnz eq_refl)].
    split.
    + rewrite <- strncmp_firstn in E.
      assert (F : firstn VENDOR_PREFIX_LEN (firstn (USBID_SIZE - 1) file ++ [NUL])
                  = firstn VENDOR_PREFIX_LEN file).
      { rewrite firstn_app, firstn_firstn.
        assert (L9 : length (firstn (USBID_SIZE - 1) file) = (USBID_SIZE - 1)%nat).
        { apply firstn_length_le. unfold USBID_SIZE in *. lia. }
        rewrite L9.
        change (VENDOR_PREFIX_LEN - (USBID_SIZE - 1))%nat with 0%nat.
        change (Nat.min VENDOR_PREFIX_LEN (USBID_SIZE - 1))
          with VENDOR_PREFIX_LEN.
        rewrite firstn_O. apply app_nil_r. }
      rewrite F in E. apply strncmp_zero_iff in E; [exact E| |reflexivity|].
      * apply firstn_length_le. unfold USBID_SIZE, VENDOR_PREFIX_LEN in *. lia.
      * exact VENDOR_PREFIX_no_NUL.
    + destruct (strtol _ 16) as [[value endptr] errno].
      destruct (errno || negb (endptr =? "")%string).
      * split; [discriminate|reflexivity].
      * apply to_i32_range.
  - intros file1 file2 H1 H2 E.
    rewrite (check_usb_id_buffer file1 H1), (check_usb_id_buffer file2 H2).
    rewrite E. reflexivity.
Qed.

Lemma enum_card_cases (sys : alsa) (n : Z) (found found' : list sound_card) :
  enum_card sys n found = Some found' ->
  found' = found
  \/ exists sc d,
       found' = found ++ [sc]
       /\ card_num sc = n
       /\ card_name sc = ("card" ++ decimal n)%string
       /\ alsa_name sc = ("hw:" ++ decimal n)%string
       /\ card_pid sc
          = check_usb_id (usbid_file sys ("/proc/asound/" ++ card_name sc
                                          ++ "/usbid")%string)
       /\ card_pid sc <> 0
       /\ In d scarlett2_supported /\ pid d = card_pid sc
       /\ name d = product_name sc
       /\ card_firmware_version sc = get_firmware_version sys (alsa_name sc).
Proof.
  unfold enum_card. cbv zeta.
  set (p := check_usb_id _).
  destruct (Z.eqb_spec p 0) as [|Hnz].
  { intro H. injection H as <-. left. reflexivity. }
  destruct (get_device_for_pid p) as [k|] eqn:Ek.
  2:{ intro H. injection H as <-. left. reflexivity. }
  destruct (realloc_ok (length found + 1)); cbn [negb]; [|discriminate].
  intro H. injection H as <-. right.
  unfold get_device_for_pid in Ek.
  destruct (get_device_from_some _ _ _ Ek) as (_ & d & Hn & Hp & _).
  rewrite Nat.sub_0_r in Hn. rewrite Hn.
  eexists. exists d. split; [reflexivity|].
  cbn [card_num card_name alsa_name card_pid product_name
       card_firmware_version].
  repeat (split; [reflexivity || assumption|]).
  split; [exact (nth_error_In _ _ Hn)|].
  split; [exact Hp|]. split; reflexivity.
Qed.

Lemma enum_cards_loop_found (sys : alsa) (P : sound_card -> Prop)
    (allowed : list Z) (rets : list (Z * Z)) :
  (forall n found found' sc,
     enum_card sys n found = Some found' -> found' = found ++ [sc] ->
     In n allowed -> 0 <= n -> P sc) ->
  forall card_num found l,
    enum_cards_loop sys rets card_num found = Cards_found l ->
    In card_num allowed ->
    (forall ret n, In (ret, n) rets -> In n allowed) ->
    Forall P found ->
    Forall P l /\ (length l <= length found + S (length rets))%nat.
Proof.
  intro HP. induction rets as [|[ret next] rets IH];
    intros card_num found l H Hin Hrets HF.
  - simpl in H. destruct (Z.ltb_spec card_num 0) as [Hnlt|Hge].
    + injection H as <-. split; [exact HF|lia].
    + destruct (enum_card sys card_num found); discriminate.
  - simpl in H. destruct (Z.ltb_spec card_num 0) as [Hnlt|Hge].
    + injection H as <-. split; [exact HF|lia].
    + destruct (enum_card sys card_num found) as [found'|] eqn:Ec;
        [|discriminate].
      assert (HF' : Forall P found'
                    /\ (length found' <= S (length found))%nat).
      { destruct (enum_card_cases _ _ _ Ec) as [-> | (sc & d & E & _)].
        - split; [exact HF|lia].
        - split.
          + rewrite E. apply Forall_app. split; [exact HF|].
            constructor; [|constructor]. exact (HP _ _ _ _ Ec E Hin Hge).
          + rewrite E, length_app. simpl. lia. }
      destruct HF' as (HF' & Hlen).
      destruct (Z.ltb_spec ret 0) as [Hrlt|Hret].
      * injection H as <-. split; [exact HF'|]. simpl. lia.
      * destruct (IH next found' l H) as (R1 & R2).
        -- apply (Hrets ret). left. reflexivity.
        -- intros r n Hn. apply (Hrets r). right. exact Hn.
        -- exact HF'.
        -- split; [exact R1|]. simpl. lia.
Qed.

(** X27: Every card that [enum_cards] keeps is a supported device: its
    number is one that [snd_card_next] gave and is not negative, its
    names are "card" and "hw:" followed by the number, its product id is
    what [check_usb_id] reads from its usbid file, is not 0 and is in the
    table, its product name is the table's, and its running version is
    what [get_firmware_version] returns for it; there are at most as
    many cards as calls of [snd_card_next] were answered. *)
Theorem enum_cards_supported (sys : alsa) (found_cards : list sound_card) :
  enum_cards sys = Cards_found found_cards ->
  Forall (fun sc =>
            0 <= card_num sc
            /\ In (card_num sc) (map snd (snd_card_next_rets sys))
            /\ card_name sc = ("card" ++ decimal (card_num sc))%string
            /\ alsa_name sc = ("hw:" ++ decimal (card_num sc))%string
            /\ card_pid sc
               = check_usb_id
                   (usbid_file sys ("/proc/asound/" ++ card_name sc
                                    ++ "/usbid")%string)
            /\ card_pid sc <> 0
            /\ (exists d, In d scarlett2_supported /\ pid d = card_pid sc
                          /\ name d = product_name sc)
            /\ card_firmware_version sc
               = get_firmware_version sys (alsa_name sc))
         found_cards
  /\ (length found_cards <= length (snd_card_next_rets sys))%nat.
Proof.
  unfold enum_cards.
  destruct (snd_card_next_rets sys) as [|[ret card_num] rets] eqn:Er.
  { discriminate. }
  destruct (Z.ltb_spec ret 0) as [Hrlt|Hret]; cbn [orb].
  { intro H. injection H as <-. split; [constructor|apply Nat.le_0_l]. }
  destruct (Z.ltb_spec card_num 0) as [Hnlt|Hnum].
  { intro H. injection H as <-. split; [constructor|apply Nat.le_0_l]. }
  intro H.
  refine (@enum_cards_loop_found sys _ (map snd ((ret, card_num) :: rets))
            rets _ card_num [] found_cards H _ _ (Forall_nil _)).
  - intros n found found' sc Ec E Hin Hge.
    destruct (enum_card_cases _ _ _ Ec)
      as [E' | (sc' & d & E' & H1 & H2 & H3 & H4 & H5 & H6 & H7 & H8 & H9)].
    + exfalso. rewrite E' in E.
      apply (f_equal (@length sound_card)) in E. rewrite length_app in E.
      simpl in E. lia.
    + assert (sc' = sc).
      { rewrite E' in E. apply app_inj_tail in E. exact (proj2 E). }
      subst sc'. rewrite H1.
      split; [exact Hge|]. split; [exact Hin|].
      split; [exact H2|]. split; [exact H3|]. split; [exact H4|].
      split; [exact H5|]. split; [exists d; auto|exact H9].
  - left. reflexivity.
  - intros r n Hn. right. apply in_map_iff. exists (r, n).
    split; [reflexivity|exact Hn].
Qed.

End Scarlett2.

Arguments Cont {A} a s.
Arguments Exit {A} f s.
Arguments Starved {A} s.


(** * The properties on sample inputs *)

Lemma sample_magic_no_NUL : forall b, In b sample_magic -> b <> NUL.
Proof.
  intros b Hb. simpl in Hb.
  repeat (destruct Hb as [<- | Hb]; [discriminate|]). destruct Hb.
Qed.

Lemma sample_digest_length (data : list byte) :
  length (sample_digest data) = SHA256_DIGEST_LENGTH.
Proof. apply repeat_length. Qed.

(** C2 on the sample file of the Scarlett 3rd Gen Solo. *)
Lemma read_header_accepts_iff_witness :
  length sample_magic = 8%nat
  /\ (is_ok (scarlett2_read_firmware_header sample_magic
               (Some (sample_file 0x8211 1605))) = true
      <-> (HEADER_SIZE <= length (sample_file 0x8211 1605))%nat
          /\ firstn 8 (sample_file 0x8211 1605) = sample_magic).
Proof.
  split; [reflexivity|].
  apply (@read_header_accepts_iff sample_magic).
  - reflexivity.
  - exact sample_magic_no_NUL.
Defined.

(** C2 as stated fails: a header with version 0 and length 0 is accepted. *)
Lemma header_with_version_0_accepted :
  scarlett2_read_firmware_header sample_magic (Some zero_file)
  = Ok {| magic := sample_magic; usb_vid := VENDOR_VID; usb_pid := 0x8211;
          firmware_version := 0; firmware_length := 0;
          sha256 := sample_digest [] |}.
Proof. vm_compute. reflexivity. Qed.

(** C7 on an empty payload under a hash that is not its digest. *)
Lemma corrupt_payload_rejected_witness :
  read_header sample_magic corrupt_empty_file
  = Ok ({| magic := sample_magic; usb_vid := VENDOR_VID; usb_pid := 0x8211;
           firmware_version := 1605; firmware_length := 0;
           sha256 := sample_digest [x01] |}, [])
  /\ sample_digest [] <> sample_digest [x01]
  /\ scarlett2_read_firmware_file sample_magic sample_digest (fun _ => true)
       (Some corrupt_empty_file) = Err E_corrupt.
Proof.
  assert (Hh : read_header sample_magic corrupt_empty_file
               = Ok ({| magic := sample_magic; usb_vid := VENDOR_VID;
                        usb_pid := 0x8211; firmware_version := 1605;
                        firmware_length := 0;
                        sha256 := sample_digest [x01] |}, []))
    by (vm_compute; reflexivity).
  assert (Hd : sample_digest [] <> sample_digest [x01])
    by (vm_compute; discriminate).
  split; [exact Hh|]. split; [exact Hd|].
  destruct (@corrupt_payload_rejected sample_magic sample_digest
              (fun _ => true) sample_digest_length _ _ _ Hh) as [H _].
  destruct (H Hd) as [_ H2]. apply H2; reflexivity.
Defined.

(** C8 on the same firmware found under two names. *)
Lemma first_found_firmware_wins_witness :
  let h := sample_header 0x8211 1605 in
  let adds := [("firmware/a.bin"%string, h); (good_path, h)] in
  add_all [] adds = [ {| fn := "firmware/a.bin"; firmware := h |} ]
  /\ find (fun a => same_firmware (snd a) h) adds
     = Some ("firmware/a.bin"%string, h).
Proof.
  intros h adds. split; [vm_compute; reflexivity|].
  destruct first_found_firmware_wins as (_ & _ & H).
  apply (H adds {| fn := "firmware/a.bin"; firmware := h |}).
  left. reflexivity.
Defined.

(** C3 on two versions of one product. *)
Lemma catalog_order_after_qsort_witness :
  let old := sample_found "firmware/old.bin" 0x8211 1552 in
  let new := sample_found good_path 0x8211 1605 in
  qsort_result [old; new] [new; old]
  /\ firmware_version (firmware new) >= firmware_version (firmware old).
Proof.
  intros old new.
  assert (Q : qsort_result [old; new] [new; old]).
  { split; [apply perm_swap|].
    repeat constructor. unfold cmp_le. vm_compute. discriminate. }
  split; [exact Q|].
  destruct (catalog_order_after_qsort Q) as [_ H].
  destruct (H 0%nat 1%nat new old) as (_ & _ & H3);
    [lia | reflexivity | reflexivity |].
  apply H3. reflexivity.
Defined.

(** C3 as stated fails: the firmware of a product that is not in the table
    is sorted before the firmware of a product that is, and two firmwares
    of products that are not in the table are sorted by version, not left
    in the order in which they were found, whatever [qsort] does with the
    array. *)
Lemma unknown_product_sorted_first :
  (let known := sample_found "firmware/a.bin" 0x8203 1583 in
   let unknown := sample_found "firmware/b.bin" 0x8216 1769 in
   qsort_result [known; unknown] [unknown; known]
   /\ forall sorted, qsort_result [known; unknown] sorted ->
        sorted = [unknown; known]
        /\ ~ spec_catalog_order [known; unknown] sorted)
  /\ (let older := sample_found "firmware/c.bin" 0x8216 1700 in
      let newer := sample_found "firmware/d.bin" 0x8217 1769 in
      qsort_result [older; newer] [newer; older]
      /\ forall sorted, qsort_result [older; newer] sorted ->
           sorted = [newer; older]
           /\ ~ spec_catalog_order [older; newer] sorted).
Proof.
  assert (G : forall a b : found_firmware,
             found_firmware_cmp a b = 1 -> found_firmware_cmp b a = -1 ->
             qsort_result [a; b] [b; a]
             /\ forall sorted, qsort_result [a; b] sorted -> sorted = [b; a]).
  { intros a b Hab Hba. split.
    - split; [apply perm_swap|].
      repeat constructor. unfold cmp_le. rewrite Hba. lia.
    - intros sorted [HP HS].
      destruct (Permutation_length_2_inv HP) as [-> | ->]; [|reflexivity].
      exfalso. inversion HS as [|? ? _ HR]; subst.
      inversion HR as [|? ? Hc]; subst.
      unfold cmp_le in Hc. rewrite Hab in Hc. lia. }
  split.
  - intros known unknown.
    destruct (G known unknown eq_refl eq_refl) as [Q U].
    split; [exact Q|]. intros sorted Hs. rewrite (U sorted Hs).
    split; [reflexivity|].
    intros H. exact (H 0%nat 1%nat unknown known ltac:(lia) eq_refl eq_refl).
  - intros older newer.
    destruct (G older newer eq_refl eq_refl) as [Q U].
    split; [exact Q|]. intros sorted Hs. rewrite (U sorted Hs).
    split; [reflexivity|].
    intros H.
    pose proof (H 0%nat 1%nat newer older ltac:(lia) eq_refl eq_refl) as C.
    vm_compute in C. lia.
Qed.

(** C5 on the card that runs the only version in the catalog. *)
Lemma latest_firmware_selection_witness :
  check_firmware_selection sample_magic sample_digest (fun _ => true)
    sample_fs [sample_found good_path 0x8211 1605] (sample_card 0x8211 1605) 0
  = Err (F_already_up_to_date 1605)
  /\ check_firmware_selection sample_magic sample_digest (fun _ => true)
       sample_fs [sample_found good_path 0x8211 1605]
       (sample_card 0x8210 1605) 0
     = Err F_no_firmware_available.
Proof.
  split.
  - destruct (latest_firmware_selection sample_magic sample_digest
                (fun _ => true) sample_fs
                [sample_found good_path 0x8211 1605]
                (sample_card 0x8211 1605)) as [_ H].
    destruct (H [] (sample_found good_path 0x8211 1605) [] eq_refl eq_refl
                (fun x (Hx : In x []) => False_ind _ Hx)) as (_ & _ & H3 & _).
    apply H3; simpl; lia.
  - destruct (latest_firmware_selection sample_magic sample_digest
                (fun _ => true) sample_fs
                [sample_found good_path 0x8211 1605]
                (sample_card 0x8210 1605)) as [H _].
    apply H. intros x [<- | []]. simpl. lia.
Defined.


(** C9 on a payload of ten bytes taken in two writes. *)
Lemma write_loop_chunks_witness :
  within_request [4; 6] 0 10
  /\ w_result (write_firmware [4; 6] 10) = Write_done
  /\ w_offset (write_firmware [4; 6] 10) = 10
  /\ w_progress (write_firmware [4; 6] 10) = [40; 100]
  /\ w_result (write_firmware [4; 0; 6] 10) = Write_returned_0 4 10.
Proof.
  assert (W : within_request [4; 6] 0 10).
  { vm_compute. intros _ _. split; [discriminate|].
    intros _ _. split; [discriminate|exact I]. }
  destruct (write_loop_chunks 10) as (H1 & H2 & _ & H4 & _ & H6).
  split; [exact W|].
  assert (D : w_result (write_firmware [4; 6] 10) = Write_done).
  { apply H6.
    - constructor; [reflexivity|]. constructor; [reflexivity|constructor].
    - vm_compute. discriminate. }
  split; [exact D|].
  assert (L : 0 < 10) by reflexivity.
  destruct (H4 [4; 6] L D) as (consumed & _ & _ & _ & _ & _ & _ & _ & _ & Hw).
  destruct (Hw W) as [Ho _].
  split; [exact Ho|]. split; [reflexivity|].
  unfold write_firmware.
  assert (P4 : 0 < to_i32 4) by reflexivity.
  rewrite (H2 4 [0; 6] 0 [] [] L P4).
  assert (L4 : 0 + to_i32 4 < 10) by reflexivity.
  assert (Z0 : to_i32 0 <= 0) by (vm_compute; discriminate).
  destruct (H1 0 [6] (0 + to_i32 4) ([] ++ [(0, 10 - 0)])
              ([] ++ [to_i32 ((0 + to_i32 4) * 100 / 10)]) L4 Z0)
    as [Hr _].
  exact Hr.
Defined.

(** C9 as stated fails. The loop ends when the offset is no longer below
    the length, not when it is equal to it: a write that reports 7 bytes
    when it was passed 6 ends the run as done at offset 11 of 10 with
    110 per cent printed. And a positive count that does not fit the
    [int] it is stored in does not advance the offset: a write that takes
    all [2^31 + 10] bytes of a payload is read as the error
    [10 - 2^31]. *)
Lemma write_overshoots_payload_length :
  (let w := write_firmware [4; 7] 10 in
   w_result w = Write_done
   /\ w_calls w = [(0, 10); (4, 6)]
   /\ w_offset w = 11
   /\ w_progress w = [40; 110])
  /\ (let len := 2 ^ 31 + 10 in
      let w := write_firmware [len] len in
      w_calls w = [(0, len)]
      /\ w_result w = Write_failed (10 - 2 ^ 31)
      /\ w_offset w = 0).
Proof.
  split; vm_compute; repeat split; reflexivity.
Qed.

(** C10 on a downgrade: the card runs 1605 and 1552 is requested. *)
Lemma requested_version_ignores_running_witness :
  let found := [sample_found good_path 0x8211 1605;
                sample_found "firmware/old.bin" 0x8211 1552] in
  1552 <> 0
  /\ select_found_firmware found (sample_card 0x8211 1605) 1552
     = Ok (sample_found "firmware/old.bin" 0x8211 1552).
Proof.
  intros found. split; [lia|].
  destruct (@requested_version_ignores_running sample_magic sample_digest
              (fun _ => true) insertion_sort sample_major sample_fs found
              (sample_card 0x8211 1605) 1552 ltac:(lia)) as (_ & H & _).
  destruct (H (sample_found "firmware/old.bin" 0x8211 1552) eq_refl)
    as [Hs _].
  exact Hs.
Defined.

(** C1 on a firmware file that was replaced, between the scan and the
    load, by the firmware of another product: nothing is sent to the card. *)
Lemma update_aborts_before_any_command_witness :
  command sample_update = Some "update"%string
  /\ exists s,
       snd (main sample_magic sample_digest (fun _ => true) insertion_sort
              sample_major sample_update (sample_env replaced_fs))
       = Exit (F_different_device 0x8210 0x8211) s
       /\ issued s = [].
Proof.
  split; [reflexivity|].
  destruct (@update_aborts_before_any_command sample_magic sample_digest
              (fun _ => true) insertion_sort sample_major sample_update
              (sample_env replaced_fs) sample_digest_length eq_refl)
    as (_ & _ & H & _).
  apply (H (sample_card 0x8211 1535)
           (sample_found good_path 0x8211 1605)
           {| header := sample_header 0x8210 1605;
              firmware_data := sample_payload |}).
  - reflexivity.
  - vm_compute. reflexivity.
  - vm_compute. reflexivity.
  - simpl. lia.
Defined.

(** C1 as stated fails: a file of the firmware directory cannot be read as
    a firmware header, the scan reports it and goes on, and the update
    resets the configuration, erases and writes the firmware and reboots
    the card. *)
Lemma update_continues_after_scan_error :
  let r := main sample_magic sample_digest (fun _ => true) insertion_sort
             sample_major sample_update (sample_env sample_fs) in
  fst r = [W_failed_to_read broken_path E_unexpected_eof]
  /\ (exists s, snd r = Cont tt s)
  /\ existsb destructive (issued (final_state (snd r))) = true
  /\ issued (final_state (snd r))
     = [Cmd_open_card; Cmd_get_protocol_version;
        Cmd_erase_config; Cmd_get_erase_progress; Cmd_get_erase_progress;
        Cmd_erase_firmware; Cmd_get_erase_progress; Cmd_get_erase_progress;
        Cmd_hwdep_write 0 4; Cmd_reboot].
Proof.
  split; [vm_compute; reflexivity|].
  split; [eexists; vm_compute; reflexivity|].
  split; vm_compute; reflexivity.
Qed.

(** ** Further properties on sample inputs *)

Lemma insertion_sort_permutation (l : list found_firmware) :
  Permutation l (insertion_sort l).
Proof. exact (proj1 (insertion_sort_qsort_result l)). Qed.

(** Two versions of one product have one sorted order. *)
Lemma sorted_catalog_unique_witness :
  let old := sample_found "firmware/old.bin" 0x8211 1552 in
  let new := sample_found good_path 0x8211 1605 in
  NoDup (map triple [old; new])
  /\ qsort_result [old; new] [new; old]
  /\ insertion_sort [old; new] = [new; old].
Proof.
  intros old new.
  assert (N : NoDup (map triple [old; new])).
  { constructor; [|constructor; [intros []|constructor]].
    intros [H | []]. discriminate H. }
  assert (Q : qsort_result [old; new] [new; old]).
  { split; [apply perm_swap|].
    repeat constructor. unfold cmp_le. vm_compute. discriminate. }
  split; [exact N|]. split; [exact Q|].
  apply (@sorted_catalog_unique [old; new] _ _ N).
  - intros ff [<- | [<- | []]]; split;
      [reflexivity | vm_compute; discriminate
      | reflexivity | vm_compute; discriminate].
  - apply insertion_sort_qsort_result.
  - exact Q.
Defined.

(** The firmware that is in both directories is listed with its path in
    the directory of the executable. *)
Lemma exec_dir_firmware_wins_witness :
  opendir both_fs exec_firmware_dir
  = Dir_entries ["scarlett2-1235-8211-1605.bin"%string]
  /\ exists ff,
       In ff (fst (enum_firmwares sample_magic insertion_sort both_fs
                     (Some exec_firmware_dir)))
       /\ same_firmware (firmware ff) (sample_header 0x8211 1605) = true
       /\ (exists d', In d' ["scarlett2-1235-8211-1605.bin"%string]
                      /\ fn ff = (exec_firmware_dir ++ "/" ++ d')%string)
       /\ forall ff',
            In ff' (fst (enum_firmwares sample_magic insertion_sort both_fs
                           (Some exec_firmware_dir))) ->
            same_firmware (firmware ff') (sample_header 0x8211 1605) = true ->
            ff' = ff.
Proof.
  split; [reflexivity|].
  apply (@exec_dir_firmware_wins sample_magic insertion_sort both_fs
           exec_firmware_dir ["scarlett2-1235-8211-1605.bin"%string]
           "scarlett2-1235-8211-1605.bin"%string (sample_header 0x8211 1605)).
  - exact insertion_sort_permutation.
  - reflexivity.
  - left. reflexivity.
  - reflexivity.
  - vm_compute. reflexivity.
  - reflexivity.
Defined.

(** The firmware file of the system directory is in the catalog. *)
Lemma enum_firmwares_complete_witness :
  has_bin "scarlett2-1235-8211-1605.bin" = true
  /\ exists ff,
       In ff (fst (enum_firmwares sample_magic insertion_sort sample_fs None))
       /\ same_firmware (firmware ff) (sample_header 0x8211 1605) = true.
Proof.
  split; [reflexivity|].
  apply (@enum_firmwares_complete sample_magic insertion_sort sample_fs None
           SYSTEM_FIRMWARE_DIR
           ["broken.bin"; "scarlett2-1235-8211-1605.bin"]%string
           "scarlett2-1235-8211-1605.bin"%string (sample_header 0x8211 1605)).
  - exact insertion_sort_permutation.
  - right. reflexivity.
  - reflexivity.
  - right. left. reflexivity.
  - reflexivity.
  - vm_compute. reflexivity.
  - reflexivity.
Defined.

(** The entry of that catalog was read from its file. *)
Lemma enum_firmwares_sound_witness :
  let ff := sample_found good_path 0x8211 1605 in
  In ff (fst (enum_firmwares sample_magic insertion_sort sample_fs None))
  /\ scarlett2_read_firmware_header sample_magic (fopen sample_fs (fn ff))
     = Ok (firmware ff)
  /\ usb_vid (firmware ff) = VENDOR_VID.
Proof.
  intro ff.
  assert (H : In ff (fst (enum_firmwares sample_magic insertion_sort
                            sample_fs None))).
  { vm_compute. left. reflexivity. }
  split; [exact H|].
  destruct (@enum_firmwares_sound sample_magic insertion_sort sample_fs None
              ff insertion_sort_permutation H) as (_ & H1 & H2 & _).
  split; [exact H1|exact H2].
Defined.

(** The selection for a card that runs 1535 when the catalog holds 1605. *)
Lemma check_firmware_selection_ok_witness :
  let found := [sample_found good_path 0x8211 1605] in
  let selected_card := sample_card 0x8211 1535 in
  check_firmware_selection sample_magic sample_digest (fun _ => true)
    sample_fs found selected_card 0
  = Ok (sample_found good_path 0x8211 1605,
        {| header := sample_header 0x8211 1605;
           firmware_data := sample_payload |})
  /\ sample_digest sample_payload = sha256 (sample_header 0x8211 1605).
Proof.
  intros found selected_card.
  assert (H : check_firmware_selection sample_magic sample_digest
                (fun _ => true) sample_fs found selected_card 0
              = Ok (sample_found good_path 0x8211 1605,
                    {| header := sample_header 0x8211 1605;
                       firmware_data := sample_payload |}))
    by (vm_compute; reflexivity).
  split; [exact H|].
  destruct (@check_firmware_selection_ok sample_magic sample_digest
              (fun _ => true) sample_fs found selected_card 0 _ _
              sample_digest_length H) as (_ & _ & _ & _ & _ & H6 & _).
  exact H6.
Defined.

(** A card that reports 50 and then the end of the erase. *)
Lemma monitor_reads_bounded_witness :
  Forall (fun p => p <= 100 \/ p = 255) [50; 255]
  /\ exists pre,
       [50; 255] = pre ++ snd (monitor_polls [50; 255])
       /\ (length pre <= 1010)%nat.
Proof.
  assert (F : Forall (fun p => p <= 100 \/ p = 255) [50; 255]).
  { constructor; [left; lia|]. constructor; [right; reflexivity|constructor]. }
  split; [exact F|].
  exact (proj1 (@monitor_reads_bounded [50; 255] F)).
Defined.

(** Ten reads of 5 and the monitor gives up; the read after them is left. *)
Lemma monitor_timeout_after_ten_equal_reads_witness :
  monitor_polls (repeat 5 10 ++ [7]) = (Mon_timed_out, [7])
  /\ exists pre v, repeat 5 10 ++ [7] = pre ++ repeat v 10 ++ [7].
Proof.
  assert (H : monitor_polls (repeat 5 10 ++ [7]) = (Mon_timed_out, [7]))
    by (vm_compute; reflexivity).
  split; [exact H|].
  exact (@monitor_timeout_after_ten_equal_reads (repeat 5 10 ++ [7]) [7] H).
Defined.

(** A payload of ten bytes taken in two writes. *)
Lemma write_done_shape_witness :
  within_request [4; 6] 0 10
  /\ w_result (write_firmware [4; 6] 10) = Write_done
  /\ exists consumed more,
       [4; 6] = consumed ++ w_rest (write_firmware [4; 6] 10)
       /\ Forall (fun r => 0 < to_i32 r) consumed
       /\ fold_right Z.add 0 (map to_i32 consumed) = 10
       /\ w_calls (write_firmware [4; 6] 10) = (0, 10) :: more
       /\ length (w_calls (write_firmware [4; 6] 10)) = length consumed
       /\ Forall (fun c => snd c = 10 - fst c /\ 0 <= fst c < 10)
                 (w_calls (write_firmware [4; 6] 10))
       /\ StronglySorted Z.lt (map fst (w_calls (write_firmware [4; 6] 10)))
       /\ last (w_progress (write_firmware [4; 6] 10)) 0 = 100
       /\ (Forall (fun r => - 2 ^ 31 <= r < 2 ^ 31) consumed ->
           Forall (fun r => 0 < r) consumed
           /\ fold_right Z.add 0 consumed = 10).
Proof.
  assert (W : within_request [4; 6] 0 10).
  { vm_compute. intros _ _. split; [discriminate|].
    intros _ _. split; [discriminate|exact I]. }
  assert (D : w_result (write_firmware [4; 6] 10) = Write_done)
    by (vm_compute; reflexivity).
  split; [exact W|]. split; [exact D|].
  assert (L : 0 < 10) by reflexivity.
  exact (@write_done_shape 10 [4; 6] L W D).
Defined.

(** The update of the sample card on the sample file system. *)
Lemma update_returns_after_every_step_witness :
  command sample_update = Some "update"%string
  /\ exists s,
       snd (main sample_magic sample_digest (fun _ => true) insertion_sort
              sample_major sample_update (sample_env sample_fs))
       = Cont tt s
       /\ handshake_ok sample_major sample_script
       /\ protocol_version s = 0x10000.
Proof.
  split; [reflexivity|].
  assert (E : exists s,
            snd (main sample_magic sample_digest (fun _ => true)
                   insertion_sort sample_major sample_update
                   (sample_env sample_fs)) = Cont tt s)
    by (eexists; vm_compute; reflexivity).
  destruct E as (s & E). exists s. split; [exact E|].
  destruct (@update_returns_after_every_step sample_magic sample_digest
              (fun _ => true) insertion_sort sample_major sample_update
              (sample_env sample_fs) s eq_refl E)
    as (sc & ff & file & pre1 & pre2 & rest & _ & _ & Hok & _ & _ & _
        & _ & _ & _ & H).
  cbv zeta in H. destruct H as (_ & _ & _ & Hv).
  split; [exact Hok|exact Hv].
Defined.

(** [list] for the card that runs 1535 when the catalog holds 1605. *)
Lemma list_cards_offers_what_update_selects_witness :
  let found := [sample_found good_path 0x8211 1605] in
  let sc := sample_card 0x8211 1535 in
  select_found_firmware found sc 0 = Ok (sample_found good_path 0x8211 1605)
  /\ upgrade_version found sc = to_i32 1605
  /\ upgrade_version found sc <> 0.
Proof.
  intros found sc. split; [reflexivity|].
  assert (R : forall ff, In ff found ->
                         0 <= firmware_version (firmware ff) < 2 ^ 32).
  { intros ff [<- | []]. simpl. lia. }
  exact (proj1 (@list_cards_offers_what_update_selects found [sc] R) sc).
Defined.

(** [list-all] for a catalog with two versions of one product. *)
Lemma list_all_lines_witness :
  let new := sample_found good_path 0x8211 1605 in
  let old := sample_found "firmware/old.bin" 0x8211 1552 in
  StronglySorted catalog_before [new; old]
  /\ map line_pid (snd (list_all [new; old] [sample_card 0x8211 1535]))
     = map pid scarlett2_supported.
Proof.
  intros new old.
  assert (N : NoDup (map triple [new; old])).
  { constructor; [|constructor; [intros []|constructor]].
    intros [H | []]. discriminate H. }
  assert (V : forall ff, In ff [new; old] ->
                         usb_vid (firmware ff) = VENDOR_VID).
  { intros ff [<- | [<- | []]]; reflexivity. }
  assert (S : StronglySorted catalog_before [new; old]).
  { apply SSorted_cons.
    - apply SSorted_cons; [apply SSorted_nil|apply Forall_nil].
    - apply Forall_cons; [|apply Forall_nil].
      right. split; [reflexivity|]. simpl. lia. }
  split; [exact S|].
  exact (proj1 (@list_all_lines [new; old] [sample_card 0x8211 1535] N V S)).
Defined.

(** The header of the sample file. *)
Lemma read_header_layout_witness :
  let file := sample_file 0x8211 1605 in
  read_header sample_magic file
  = Ok (sample_header 0x8211 1605, sample_payload)
  /\ usb_pid (sample_header 0x8211 1605)
     = byte_val (nth 10 file NUL) * 256 + byte_val (nth 11 file NUL)
  /\ file = firstn HEADER_SIZE file ++ sample_payload.
Proof.
  intro file.
  assert (H : read_header sample_magic file
              = Ok (sample_header 0x8211 1605, sample_payload))
    by (vm_compute; reflexivity).
  split; [exact H|].
  destruct (@read_header_layout sample_magic file _ _ H)
    as (H1 & _ & _ & _ & H5 & _).
  split; [exact H5|exact H1].
Defined.

(** The sample file without its last byte. *)
Lemma read_firmware_file_outcome_witness :
  let file := removelast (sample_file 0x8211 1605) in
  scarlett2_read_firmware_header sample_magic (Some file)
  = Ok (sample_header 0x8211 1605)
  /\ scarlett2_read_firmware_file sample_magic sample_digest (fun _ => true)
       (Some file) = Err E_short_data.
Proof.
  intro file.
  assert (H : scarlett2_read_firmware_header sample_magic (Some file)
              = Ok (sample_header 0x8211 1605))
    by (vm_compute; reflexivity).
  split; [exact H|].
  destruct (@read_firmware_file_outcome sample_magic sample_digest
              (fun _ => true) file sample_digest_length) as (_ & H2).
  specialize (H2 _ H). cbv zeta in H2. destruct H2 as (_ & H3 & _).
  apply H3; [reflexivity|]. vm_compute. reflexivity.
Defined.

(** The command line [-c 1 update]. *)
Lemma parse_args_result_witness :
  let args := {| command := Some "update"%string; selected_card_num := 1;
                 selected_firmware_version := 0 |} in
  parse_args sample_strtol ["-c"; "1"; "update"]%string = Ok args
  /\ (selected_card_num args = -1 \/ 0 <= selected_card_num args < 2 ^ 31)
  /\ (selected_firmware_version args = 0
      \/ 0 < selected_firmware_version args < 2 ^ 31).
Proof.
  intro args.
  assert (H : parse_args sample_strtol ["-c"; "1"; "update"]%string = Ok args)
    by (vm_compute; reflexivity).
  split; [exact H|].
  destruct (@parse_args_result sample_strtol _ _ H) as (H1 & H2 & _).
  split; [exact H1|exact H2].
Defined.

(** The cards of the sample system. *)
Lemma enum_cards_supported_witness :
  enum_cards sample_strtol (fun _ => true) sample_alsa
  = Cards_found [sample_card 0x8211 1535]
  /\ (length [sample_card 0x8211 1535]
      <= length (snd_card_next_rets sample_alsa))%nat.
Proof.
  assert (H : enum_cards sample_strtol (fun _ => true) sample_alsa
              = Cards_found [sample_card 0x8211 1535])
    by (vm_compute; reflexivity).
  split; [exact H|].
  exact (proj2 (@enum_cards_supported sample_strtol (fun _ => true)
                  sample_alsa _ H)).
Defined.
